(** * sikai-skills: queue store, note chunking, capture retry and knowledge base

    A shallow embedding of the parts of the repository that its
    specification makes testable statements about:

    - [x-ops/scripts/queue_io.py]: [parse_queue_md], [render_queue_md];
    - [skills/x-batch-notes-notion-sync/scripts/batch_x_learning.py]:
      [chunk_text], [categorize], [summarize], [load_links],
      [capture_if_needed] and the link loop of [main];
    - [x-ops/scripts/read_x_post.py]: [_find_target_article] and
      [_find_target_article_with_retries];
    - [skills/x-link-capture-analyze/scripts/run_x_capture_analyze.py]:
      [_run] and [_capture_single];
    - [x-ops/scripts/learn_from_capture.py]: [_append_kb], [_clean],
      [_sentences] and [_top_points];

    and of the code around them:

    - [x-ops/scripts/drafts_to_x.py]: [trim_text] and [main], the publisher;
    - [x-ops/scripts/queue_generate.py]: [truncate], [fallback_text] and
      [build_items], with [infer_github_repo] of [x-ops/scripts/utils.py];
    - [batch_x_learning.py]: [extract_status_id] and [build_grouped];
    - [read_x_post.py]: [_article_status_links], [_collect_articles],
      [_extract_handle], [_normalize_article_url] and [_parse_cookie_string].

    Python [str] values are lists of Unicode code points, Python [int]s are
    [Z], exceptions are an explicit result type, files are a finite map from
    paths to contents, and the browser page and child processes are explicit
    state. *)

From Stdlib Require Import String Ascii Decimal DecimalPos DecimalN.
From stdpp Require Import gmap.

Open Scope N_scope.

(** ** Python strings *)

Abbreviation char := N.
Abbreviation str := (list N).

Module Str.

(** Literals are written as Rocq strings, whose bytes are the UTF-8
    encoding of the text, and decoded to code points. *)
Fixpoint utf8_decode (pending : nat) (acc : N) (bs : list N) : str :=
  match bs with
  | [] => []
  | b :: bs' =>
    match pending with
    | O =>
      if b <? 128 then b :: utf8_decode 0 0 bs'
      else if b <? 224 then utf8_decode 1 (b - 192) bs'
      else if b <? 240 then utf8_decode 2 (b - 224) bs'
      else utf8_decode 3 (b - 240) bs'
    | S O => (acc * 64 + (b - 128)) :: utf8_decode 0 0 bs'
    | S p => utf8_decode p (acc * 64 + (b - 128)) bs'
    end
  end.

Definition py (s : string) : str :=
  utf8_decode 0 0 (map N_of_ascii (list_ascii_of_string s)).

(** [str.isspace] for one character; also what [\s] matches in [re] and
    what [strip()] and [split()] remove. *)
Definition isspace (c : char) : bool :=
  ((9 <=? c) && (c <=? 13)) || ((28 <=? c) && (c <=? 32))
  || (c =? 133) || (c =? 160) || (c =? 5760)
  || ((8192 <=? c) && (c <=? 8202))
  || (c =? 8232) || (c =? 8233) || (c =? 8239) || (c =? 8287) || (c =? 12288).

(** The line boundaries of [str.splitlines]. *)
Definition is_linebreak (c : char) : bool :=
  ((10 <=? c) && (c <=? 13)) || ((28 <=? c) && (c <=? 30))
  || (c =? 133) || (c =? 8232) || (c =? 8233).

(** [\d] and [int()] on the ASCII digits; the other Unicode decimal digits
    are not part of this model. *)
Definition isdigit (c : char) : bool := (48 <=? c) && (c <=? 57).

(** [str.lower] on the ASCII letters; characters without case, such as the
    CJK keywords of the repository, are left as they are. *)
Definition lower_char (c : char) : char :=
  if (65 <=? c) && (c <=? 90) then c + 32 else c.

Definition lower (s : str) : str := map lower_char s.

Definition eqb (a b : str) : bool := bool_decide (a = b).

Definition nonempty (s : str) : bool :=
  match s with [] => false | _ :: _ => true end.

Fixpoint startswith (p s : str) : bool :=
  match p with
  | [] => true
  | a :: p' =>
    match s with
    | [] => false
    | b :: s' => (a =? b) && startswith p' s'
    end
  end.

(** [hay.find(needle)]; [needle in hay] is [contains]. *)
Fixpoint find (needle hay : str) : option nat :=
  if startswith needle hay then Some O
  else match hay with
       | [] => None
       | _ :: hay' => S <$> find needle hay'
       end.

Definition contains (needle hay : str) : bool :=
  match find needle hay with Some _ => true | None => false end.

(** [s[a:b]] for indices that are not negative. *)
Definition slice (s : str) (a b : nat) : str := take (b - a) (drop a s).

Fixpoint lstrip (s : str) : str :=
  match s with
  | [] => []
  | c :: s' => if isspace c then lstrip s' else s
  end.

Fixpoint rstrip (s : str) : str :=
  match s with
  | [] => []
  | c :: s' =>
    match rstrip s' with
    | [] => if isspace c then [] else [c]
    | r => c :: r
    end
  end.

Definition strip (s : str) : str := rstrip (lstrip s).

Definition no_space (s : str) : bool := forallb (fun c => negb (isspace c)) s.

(** [s.split()]: the maximal runs of characters that are not whitespace. *)
Fixpoint split_ws_from (cur : str) (s : str) : list str :=
  match s with
  | [] => match cur with [] => [] | _ => [cur] end
  | c :: s' =>
    if isspace c then
      match cur with
      | [] => split_ws_from [] s'
      | _ => cur :: split_ws_from [] s'
      end
    else split_ws_from (cur ++ [c]) s'
  end.

Definition split_ws (s : str) : list str := split_ws_from [] s.

(** [s.split(sep, 1)] for a one-character separator that occurs in [s]:
    the text before the first [sep] and the text after it. *)
Fixpoint split_once (sep : char) (s : str) : option (str * str) :=
  match s with
  | [] => None
  | c :: s' =>
    if c =? sep then Some ([], s')
    else match split_once sep s' with
         | Some (k, v) => Some (c :: k, v)
         | None => None
         end
  end.

(** [s.splitlines()]: a carriage return followed by a line feed is one
    boundary, and a final boundary opens no further line. *)
Fixpoint splitlines (s : str) : list str :=
  match s with
  | [] => []
  | c :: s' =>
    if is_linebreak c then
      [] :: (if c =? 13 then
               match s' with
               | d :: s'' => if d =? 10 then splitlines s'' else splitlines s'
               | [] => []
               end
             else splitlines s')
    else
      match splitlines s' with
      | [] => [[c]]
      | l :: ls => (c :: l) :: ls
      end
  end.

(** [sep.join(parts)]. *)
Fixpoint join (sep : str) (parts : list str) : str :=
  match parts with
  | [] => []
  | [p] => p
  | p :: ps => p ++ sep ++ join sep ps
  end.

(** [re.sub(r"\s+", " ", s)]. *)
Fixpoint collapse_ws (after_space : bool) (s : str) : str :=
  match s with
  | [] => []
  | c :: s' =>
    if isspace c then
      if after_space then collapse_ws true s' else 32 :: collapse_ws true s'
    else c :: collapse_ws false s'
  end.

End Str.

Abbreviation py := Str.py.

(** The characters the code names. *)
Definition NL : str := [10].

(** ** Python integers as text *)

Module PyInt.

Import Str.

Definition digit_cons (c : char) (d : uint) : uint :=
  match c - 48 with
  | 0 => D0 d | 1 => D1 d | 2 => D2 d | 3 => D3 d | 4 => D4 d
  | 5 => D5 d | 6 => D6 d | 7 => D7 d | 8 => D8 d | _ => D9 d
  end.

Fixpoint uint_chars (d : uint) : str :=
  match d with
  | Nil => []
  | D0 d => 48 :: uint_chars d | D1 d => 49 :: uint_chars d
  | D2 d => 50 :: uint_chars d | D3 d => 51 :: uint_chars d
  | D4 d => 52 :: uint_chars d | D5 d => 53 :: uint_chars d
  | D6 d => 54 :: uint_chars d | D7 d => 55 :: uint_chars d
  | D8 d => 56 :: uint_chars d | D9 d => 57 :: uint_chars d
  end.

(** The digits of an [int()] argument: groups of digits separated by
    single underscores. [after_digit] tells whether the previous character
    was a digit, which an underscore and the end of the text both need. *)
Fixpoint parse_digits (after_digit : bool) (s : str) : option uint :=
  match s with
  | [] => if after_digit then Some Nil else None
  | c :: s' =>
    if isdigit c then digit_cons c <$> parse_digits true s'
    else if (c =? 95) && after_digit then parse_digits false s'
    else None
  end.

(** [int(s)] in base ten: surrounding whitespace, one optional sign, then
    the digits. [None] is the [ValueError] that Python raises. The digits
    are the ASCII ones, and the interpreter's bound on the number of digits
    it converts is left out. *)
Definition int (s : str) : option Z :=
  match strip s with
  | [] => None
  | c :: r =>
    if c =? 45 then (fun d => (- Z.of_N (N.of_uint d))%Z) <$> parse_digits false r
    else if c =? 43 then (fun d => Z.of_N (N.of_uint d)) <$> parse_digits false r
    else (fun d => Z.of_N (N.of_uint d)) <$> parse_digits false (c :: r)
  end.

(** The characters of a formatted integer. *)
Definition sign_or_digit (c : char) : bool := (c =? 45) || isdigit c.

Definition zfill (width : nat) (s : str) : str :=
  replicate (width - length s) 48 ++ s.

(** [str(n)] and [f"{n}"]. *)
Definition format_d (n : Z) : str :=
  let digits := uint_chars (N.to_uint (Z.abs_N n)) in
  if (n <? 0)%Z then 45 :: digits else digits.

(** [f"{n:03d}"]: the sign counts towards the width of three. *)
Definition format_03d (n : Z) : str :=
  let digits := uint_chars (N.to_uint (Z.abs_N n)) in
  if (n <? 0)%Z then 45 :: zfill 2 digits else zfill 3 digits.

End PyInt.

(** ** Exceptions *)

Inductive exn :=
  | ValueError (msg : str)
  | IndexError (msg : str)
  | RuntimeError (msg : str)
  | OtherError (msg : str).

Inductive result (A : Type) :=
  | Ok (a : A)
  | Raise (e : exn).
Arguments Ok {A} a.
Arguments Raise {A} e.

#[global] Instance result_bind : MBind result := fun A B k r =>
  match r with
  | Ok a => k a
  | Raise e => Raise e
  end.

#[global] Instance result_ret : MRet result := fun A a => Ok a.

(** [str(exc)] for the exceptions above. *)
Definition exn_msg (e : exn) : str :=
  match e with
  | ValueError m | IndexError m | RuntimeError m | OtherError m => m
  end.

(** ** The queue store: [queue_io.py] *)

Record QueueItem := {
  item_id : Z;
  status : str;
  type : str;
  lang : str;
  source : str;
  note : str;
  text : str;
}.

Module Queue.

Import Str.

Definition set_text (it : QueueItem) (t : str) : QueueItem :=
  {| item_id := item_id it; status := status it; type := type it;
     lang := lang it; source := source it; note := note it; text := t |}.

Definition set_field (it : QueueItem) (key value : str) : QueueItem :=
  if eqb key (py "type") then
    {| item_id := item_id it; status := status it; type := value;
       lang := lang it; source := source it; note := note it; text := text it |}
  else if eqb key (py "lang") then
    {| item_id := item_id it; status := status it; type := type it;
       lang := value; source := source it; note := note it; text := text it |}
  else if eqb key (py "source") then
    {| item_id := item_id it; status := status it; type := type it;
       lang := lang it; source := value; note := note it; text := text it |}
  else if eqb key (py "note") then
    {| item_id := item_id it; status := status it; type := type it;
       lang := lang it; source := source it; note := value; text := text it |}
  else it.

(** The locals of [parse_queue_md] that its loop updates. *)
Record pstate := {
  header_lines : list str;
  items : list QueueItem;
  current : option QueueItem;
  in_text : bool;
}.

Definition init : pstate :=
  {| header_lines := []; items := []; current := None; in_text := false |}.

(** [flush_current()] leaves [current] empty and the item, if any, at the
    end of [items]. *)
Definition flush_current (st : pstate) : list QueueItem :=
  match current st with
  | Some it => items st ++ [it]
  | None => items st
  end.

(** Lines 41-45: the id is the third whitespace-separated token, the status
    the stripped text between the first "[" and the first "]". *)
Definition marker_status (line : str) : str :=
  match find (py "[") line, find (py "]") line with
  | Some i, Some j => strip (slice line (S i) j)
  | _, _ => py "pending"
  end.

Definition marker_id (line : str) : result Z :=
  match split_ws line !! 2%nat with
  | None => Raise (IndexError (py "list index out of range"))
  | Some tok =>
    match PyInt.int tok with
    | None => Raise (ValueError (py "invalid literal for int() with base 10: '"
                                 ++ tok ++ py "'"))
    | Some n => Ok n
    end
  end.

(** How the loop extends a body by one line. *)
Definition add_line (t line : str) : str :=
  if nonempty t then t ++ NL ++ line else line.

(** One iteration of the loop over the lines. *)
Definition step (st : pstate) (line : str) : result pstate :=
  if startswith (py "## Item ") line then
    let items' := flush_current st in
    n ← marker_id line;
    Ok {| header_lines := header_lines st; items := items';
          current := Some {| item_id := n; status := marker_status line;
                             type := []; lang := []; source := [];
                             note := []; text := [] |};
          in_text := false |}
  else
    match current st with
    | None =>
      Ok {| header_lines := header_lines st ++ [line]; items := items st;
            current := None; in_text := in_text st |}
    | Some cur =>
      if startswith (py "text:") line then
        Ok {| header_lines := header_lines st; items := items st;
              current := Some (set_text cur []); in_text := true |}
      else if in_text st then
        Ok {| header_lines := header_lines st; items := items st;
              current := Some (set_text cur (add_line (text cur) line));
              in_text := true |}
      else
        match split_once 58 line with
        | Some (key, value) =>
          Ok {| header_lines := header_lines st; items := items st;
                current := Some (set_field cur (strip key) (strip value));
                in_text := false |}
        | None => Ok st
        end
    end.

Fixpoint loop (st : pstate) (lines : list str) : result pstate :=
  match lines with
  | [] => Ok st
  | line :: rest => st' ← step st line; loop st' rest
  end.

(** [parse_queue_md], given the text that reading the file returns. *)
Definition parse_queue_md (content : str) : result (list str * list QueueItem) :=
  st ← loop init (splitlines content);
  Ok (header_lines st, flush_current st).

Definition marker_line (it : QueueItem) : str :=
  py "## Item " ++ PyInt.format_03d (item_id it) ++ py " [" ++ status it ++ py "]".

Definition body_lines (it : QueueItem) : list str :=
  if nonempty (text it) then splitlines (text it) else [].

(** The lines of one item after its blank separator line. *)
Definition block (it : QueueItem) : list str :=
  [ marker_line it;
    py "type: " ++ type it;
    py "lang: " ++ lang it;
    py "source: " ++ source it;
    py "note: " ++ note it;
    py "text:" ]
  ++ body_lines it.

Definition render_item (it : QueueItem) : list str := [] :: block it.

Definition render_lines (header : list str) (its : list QueueItem) : list str :=
  (match header with [] => [py "# X Queue"] | _ => header end)
  ++ concat (map render_item its) ++ [[]].

Definition render_queue_md (header : list str) (its : list QueueItem) : str :=
  join NL (render_lines header its).

(** What a header and an item must look like for the round trip: lines and
    fields hold no line boundary, fields carry no surrounding whitespace, a
    status holds no "]", and no line of a header or body reads as a marker
    or, in a body, as "text:". The body is joined by line feeds, and neither
    starts nor ends with an empty line. *)
Definition one_line (s : str) : bool :=
  forallb (fun c => negb (is_linebreak c)) s.

Definition plain_field (s : str) : bool := one_line s && eqb (strip s) s.

Definition plain_status (s : str) : bool :=
  plain_field s && negb (existsb (N.eqb 93) s).

Definition header_line (l : str) : bool :=
  one_line l && negb (startswith (py "## Item ") l).

Definition plain_header (h : list str) : bool :=
  match h with [] => false | _ => forallb header_line h end.

Definition body_line (l : str) : bool :=
  negb (startswith (py "## Item ") l) && negb (startswith (py "text:") l).

Definition plain_text (t : str) : bool :=
  eqb (join NL (splitlines t)) t
  && forallb body_line (splitlines t)
  && match splitlines t with [] :: _ => false | _ => true end.

Definition plain_item (it : QueueItem) : bool :=
  plain_status (status it) && plain_field (type it) && plain_field (lang it)
  && plain_field (source it) && plain_field (note it) && plain_text (text it).

(** What [parse_queue_md] makes of an item that another item follows: the
    blank line before the next marker is taken into a body that is not
    empty. *)
Definition closing (followed : bool) (it : QueueItem) : QueueItem :=
  if followed && nonempty (text it) then set_text it (text it ++ NL) else it.

Fixpoint absorbed (its : list QueueItem) : list QueueItem :=
  match its with
  | [] => []
  | it :: rest =>
    closing (match rest with [] => false | _ => true end) it :: absorbed rest
  end.

(** The lines of the items after the first blank separator line. *)
Fixpoint units (its : list QueueItem) : list str :=
  match its with
  | [] => []
  | it :: rest =>
    block it ++ (match rest with [] => [] | _ => [[]] end) ++ units rest
  end.

(** Two items that agree on every field but the body, where the second
    body starts with the first. *)
Definition same_fields (a b : QueueItem) : Prop :=
  item_id b = item_id a /\ status b = status a /\ type b = type a /\
  lang b = lang a /\ source b = source a /\ note b = note a /\
  text a `prefix_of` text b.

(** A queue as the generator writes it, and items that show what does not
    survive the round trip. *)
Definition sample_header : list str :=
  [py "# X Queue - 2026-11-03"; py "timezone: Asia/Shanghai"; py "posts_per_day: 15"].

Definition sample_item (n : Z) (body : str) : QueueItem :=
  {| item_id := n; status := py "pending"; type := py "github_trending";
     lang := py "zh"; source := py "https://example.com"; note := py "some note";
     text := body |}.

Definition sample_body : str := py "line 1 of body" ++ NL ++ NL ++ py "line 3 of body".

Definition padded_note_item : QueueItem :=
  {| item_id := 5; status := py "pending"; type := py "t"; lang := py "en";
     source := py "s"; note := py " padded "; text := py "body" |}.

(** A marker line whose id token is missing or is not an integer. *)
Definition malformed (line : str) : Prop :=
  startswith (py "## Item ") line = true /\
  match split_ws line !! 2%nat with
  | None => True
  | Some tok => PyInt.int tok = None
  end.

(** Two items with the same id and status. *)
Definition same_marker (it it' : QueueItem) : Prop :=
  item_id it' = item_id it /\ status it' = status it.

(** The item that a marker line opens. *)
Definition opened (n : Z) (st : str) : QueueItem :=
  {| item_id := n; status := st; type := []; lang := []; source := [];
     note := []; text := [] |}.

End Queue.

(** ** Note chunking, categories and summaries: [batch_x_learning.py] *)

Module Batch.

Import Str.

(** The locals of [chunk_text]. *)
Record cstate := {
  chunks : list str;
  buf : list str;
  size : nat;
}.

Definition chunk_init : cstate := {| chunks := []; buf := []; size := 0 |}.

Definition has_lines (b : list str) : bool :=
  match b with [] => false | _ :: _ => true end.

Definition chunk_step (max_chars : nat) (st : cstate) (line : str) : cstate :=
  let add := (length line + 1)%nat in
  if (max_chars <? size st + add)%nat && has_lines (buf st) then
    {| chunks := chunks st ++ [join NL (buf st)]; buf := [line]; size := add |}
  else
    {| chunks := chunks st; buf := buf st ++ [line]; size := (size st + add)%nat |}.

Definition chunk_finish (st : cstate) : list str :=
  if has_lines (buf st) then chunks st ++ [join NL (buf st)] else chunks st.

Definition chunk_text (text : str) (max_chars : nat) : list str :=
  chunk_finish (foldl (chunk_step max_chars) chunk_init (splitlines text)).

(** What [size] counts for a buffer: every line and one separator each. *)
Definition weight (b : list str) : nat :=
  foldr (fun line n => (length line + 1 + n)%nat) O b.

(** What the loop keeps true after the lines [done]. *)
Definition chunk_inv (max_chars : nat) (done : list str) (st : cstate) : Prop :=
  exists groups : list (list str),
    chunks st = map (join NL) groups /\
    concat groups ++ buf st = done /\
    Forall (fun g => g <> []) groups /\
    Forall (fun g => length g = 1%nat \/ (length (join NL g) < max_chars)%nat) groups /\
    size st = weight (buf st) /\
    ((length (buf st) <= 1)%nat \/ (size st <= max_chars)%nat).

(** A text of one line that is one character longer than the cap. *)
Definition long_line : str := replicate 1801 97.

(** A dict keeps the order in which its keys were written. *)
Definition CATEGORY_RULES : list (str * list str) :=
  [ (py "install-debug",
     [py "安装"; py "配置"; py "报错"; py "debug"; py "error"; py "setup";
      py "deploy"; py "运行"; py "启动"]);
    (py "architecture-principles",
     [py "原理"; py "架构"; py "architecture"; py "protocol"; py "cdp";
      py "机制"; py "design"]);
    (py "security-risk",
     [py "安全"; py "漏洞"; py "risk"; py "风控"; py "暴露"; py "认证";
      py "权限"; py "攻击"]);
    (py "growth-content",
     [py "爆款"; py "内容"; py "运营"; py "流量"; py "选题"; py "结构";
      py "转化"; py "自媒体"]);
    (py "tools-release",
     [py "发布"; py "更新"; py "release"; py "new"; py "模型"; py "功能";
      py "版本"]) ].

Fixpoint first_category (rules : list (str * list str)) (low : str) : str :=
  match rules with
  | [] => py "uncategorized"
  | (cat, keys) :: rest =>
    if existsb (fun k => contains (lower k) low) keys then cat
    else first_category rest low
  end.

Definition categorize (text : str) : str :=
  first_category CATEGORY_RULES (lower text).

(** [t[:limit - 1]]: a negative bound counts from the end. *)
Definition summarize (text : str) (limit : nat) : str :=
  let t := strip (collapse_ws false text) in
  if (length t <=? limit)%nat then t
  else (match limit with
        | O => take (length t - 1) t
        | S k => take k t
        end) ++ [8230].

(** [re.search(r"/status/(\d+)", url)]: the digits after the leftmost
    "/status/" that a digit follows, or the empty string. *)
Fixpoint take_digits (s : str) : str :=
  match s with
  | c :: s' => if isdigit c then c :: take_digits s' else []
  | [] => []
  end.

Fixpoint extract_status_id (url : str) : str :=
  match url with
  | [] => []
  | _ :: url' =>
    if startswith (py "/status/") url then
      match take_digits (drop 8 url) with
      | [] => extract_status_id url'
      | digits => digits
      end
    else extract_status_id url'
  end.

(** The text of the specification's scenario and its summary. *)
Definition scenario_text : str :=
  py "step 1: 安装" ++ NL ++ py "step 2: 配置" ++ NL.

Definition scenario_summary : str := py "step 1: 安装 step 2: 配置".

Definition load_links (content : str) : list str :=
  filter (fun line => nonempty line = true /\ startswith (py "#") line = false)
         (map strip (splitlines content)).

(** The fields of a capture file that the tools read; a missing key is
    [None] and is read with a default. *)
Record capture := {
  target_status_id : option str;
  url : option str;
  main_author : option str;
  main_text : option str;
}.

Definition XOPS_DIR : str := py "/home/sikai/ai-workspace/x-ops".
Definition CAPTURE_DIR : str := XOPS_DIR ++ py "/data/captured".

Definition capture_path (sid : str) : str :=
  CAPTURE_DIR ++ py "/" ++ sid ++ py ".json".

(** One entry of [items] and the summary that [main] prints. *)
Record note_item := {
  ni_status_id : str;
  ni_url : str;
  ni_author : str;
  ni_summary : str;
  ni_category : str;
}.

Record summary := {
  links : nat;
  processed : nat;
  errors : list str;
}.

Section Main.

(** What lies outside the script: the files, as a map from path to text;
    [json.loads] with the dictionary lookups that follow it; and the
    fetch script, which returns an exit code and may write files. *)
Variable load_capture : str -> result capture.
Variable fetch_and_learn : list str -> gmap str str -> Z * gmap str str.

Definition capture_if_needed (url browser proxy : str) (fetch : bool)
    (fs : gmap str str) : result str * gmap str str :=
  let sid := extract_status_id url in
  if negb (nonempty sid) then
    (Raise (ValueError (py "Invalid X link: " ++ url)), fs)
  else
    let cap := capture_path sid in
    if bool_decide (is_Some (fs !! cap)) || negb fetch then (Ok cap, fs)
    else
      let cmd := [XOPS_DIR ++ py "/scripts/fetch_and_learn.sh"; url; browser]
                 ++ (if nonempty proxy then [proxy] else []) in
      let '(rc, fs') := fetch_and_learn cmd fs in
      if (rc =? 0)%Z then (Ok cap, fs')
      else (Raise (OtherError (py "Command returned non-zero exit status")), fs').

(** The locals of the loop over the links in [main]. *)
Record mstate := {
  files : gmap str str;
  m_items : list note_item;
  m_errors : list str;
}.

Definition or_else (a : option str) (b : str) : str :=
  match a with
  | Some x => if nonempty x then x else b
  | None => b
  end.

Definition link_step (browser proxy : str) (fetch : bool)
    (st : mstate) (link : str) : mstate :=
  let '(r, fs') := capture_if_needed link browser proxy fetch (files st) in
  match r with
  | Raise e =>
    {| files := fs'; m_items := m_items st;
       m_errors := m_errors st ++ [link ++ py ": " ++ exn_msg e] |}
  | Ok cap =>
    match fs' !! cap with
    | None =>
      {| files := fs'; m_items := m_items st;
         m_errors := m_errors st ++ [py "missing capture: " ++ link] |}
    | Some content =>
      match load_capture content with
      | Raise e =>
        {| files := fs'; m_items := m_items st;
           m_errors := m_errors st ++ [link ++ py ": " ++ exn_msg e] |}
      | Ok data =>
        let text := default [] (main_text data) in
        {| files := fs';
           m_items := m_items st ++
             [{| ni_status_id := or_else (target_status_id data) (extract_status_id link);
                 ni_url := link;
                 ni_author := default [] (main_author data);
                 ni_summary := summarize text 120;
                 ni_category := categorize text |}];
           m_errors := m_errors st |}
      end
    end
  end.

(** A link that will yield an item: it names a status id, and the capture
    file of that id exists and loads. *)
Definition ready_link (fs : gmap str str) (link : str) : Prop :=
  nonempty (extract_status_id link) = true /\
  exists content data,
    fs !! capture_path (extract_status_id link) = Some content /\
    load_capture content = Ok data.

(** [main] up to the summary, without the Notion call: the links file is
    read, every link is tried, and the counts are reported. *)
Definition run_links (browser proxy : str) (fetch : bool)
    (fs : gmap str str) (ls : list str) : mstate :=
  foldl (link_step browser proxy fetch)
        {| files := fs; m_items := []; m_errors := [] |} ls.

Definition main (links_content browser proxy : str) (fetch : bool)
    (fs : gmap str str) : summary :=
  let ls := load_links links_content in
  let st := run_links browser proxy fetch fs ls in
  {| links := length ls; processed := length (m_items st);
     errors := m_errors st |}.

End Main.

End Batch.

(** ** The knowledge base: [learn_from_capture.py] *)

Module Learn.

Import Str.

Definition marker_of (sid : str) : str :=
  py "<!-- status_id:" ++ sid ++ py " -->".

(** The lines that [_append_kb] collects, in the order it appends them. *)
Definition kb_lines (data : Batch.capture) (points : list str)
    (learned_path : str) : list str :=
  let sid := default [] (Batch.target_status_id data) in
  [ marker_of sid;
    py "## " ++ sid;
    py "- source_url: " ++ default [] (Batch.url data);
    py "- author: " ++ default [] (Batch.main_author data);
    py "- learned_note: " ++ learned_path ]
  ++ (match points with
      | [] => []
      | _ => py "- top_points:" :: map (fun p => py "  - " ++ p) (take 5 points)
      end)
  ++ [[]].

Definition kb_entry (data : Batch.capture) (points : list str)
    (learned_path : str) : str :=
  join NL (kb_lines data points learned_path) ++ NL.

(** [path.write_text(s)] and writing [s] to a file opened in mode "a". *)
Definition write_text (fs : gmap str str) (path s : str) : gmap str str :=
  <[path := s]> fs.

Definition append_text (fs : gmap str str) (path s : str) : gmap str str :=
  <[path := default [] (fs !! path) ++ s]> fs.

(** [_append_kb]: the returned flag and the files afterwards. *)
Definition _append_kb (fs : gmap str str) (kb_path : str) (data : Batch.capture)
    (points : list str) (learned_path : str) : bool * gmap str str :=
  let sid := default [] (Batch.target_status_id data) in
  let marker := marker_of sid in
  match fs !! kb_path with
  | Some existing =>
    if contains marker existing then (false, fs)
    else (true, append_text fs kb_path (kb_entry data points learned_path))
  | None =>
    let fs1 := write_text fs kb_path (py "# X Lessons KB" ++ NL ++ NL) in
    (true, append_text fs1 kb_path (kb_entry data points learned_path))
  end.

(** The number of positions of [hay] at which [needle] starts. *)
Fixpoint occurrences (needle hay : str) : nat :=
  match hay with
  | [] => if startswith needle [] then 1 else 0
  | _ :: hay' => ((if startswith needle hay then 1 else 0) + occurrences needle hay')%nat
  end.

(** A run of calls of [_append_kb] on one knowledge base, each with its own
    capture, points and note path; the flags come back in call order. *)
Fixpoint append_all (fs : gmap str str) (kb_path : str)
    (calls : list (Batch.capture * list str * str)) : list bool * gmap str str :=
  match calls with
  | [] => ([], fs)
  | (data, points, learned_path) :: rest =>
    let '(b, fs') := _append_kb fs kb_path data points learned_path in
    let '(bs, fs'') := append_all fs' kb_path rest in
    (b :: bs, fs'')
  end.

(** An entry none of whose fields holds the character "<", with which
    every marker starts. *)
Definition plain_entry (data : Batch.capture) (points : list str)
    (learned_path : str) : Prop :=
  (60 ∉ default [] (Batch.target_status_id data)) /\
  (60 ∉ default [] (Batch.url data)) /\
  (60 ∉ default [] (Batch.main_author data)) /\
  (60 ∉ learned_path) /\
  Forall (fun p : str => 60 ∉ p) (take 5 points).

(** A capture whose source URL quotes the marker of its own status id. *)
Definition quoting_capture : Batch.capture :=
  {| Batch.target_status_id := Some (py "42");
     Batch.url := Some (py "https://x.com/a/status/42#<!-- status_id:42 -->");
     Batch.main_author := Some (py "a");
     Batch.main_text := Some (py "some text") |}.

End Learn.

(** ** Finding the target post: [read_x_post.py] *)

Module Reader.

Import Str.

(** What the locators read from one [article] node: the [href] of the link
    around its [time] element, if there is one, and the [href]s of its
    links that contain "/status/". *)
Record article := {
  permalink_href : option str;
  status_hrefs : list str;
}.

(** The page: the articles mounted at each scroll position, the current
    position, and how many times the wheel was turned. *)
Record page := {
  mounted : nat -> list article;
  position : nat;
  wheels : nat;
}.

Definition press_home (pg : page) : page :=
  {| mounted := mounted pg; position := 0; wheels := wheels pg |}.

Definition mouse_wheel (pg : page) : page :=
  {| mounted := mounted pg; position := S (position pg); wheels := S (wheels pg) |}.

Definition _status_from_time_permalink (art : article) : str * str :=
  match permalink_href art with
  | None => ([], [])
  | Some href => (Batch.extract_status_id href, href)
  end.

(** [_article_status_links]: pairs of id and [href], without the links that
    carry no id and without repeats. *)
Fixpoint status_links_from (seen : list (str * str)) (hrefs : list str)
    : list (str * str) :=
  match hrefs with
  | [] => []
  | href :: rest =>
    let sid := Batch.extract_status_id href in
    if negb (nonempty sid) then status_links_from seen rest
    else if bool_decide ((sid, href) ∈ seen) then status_links_from seen rest
    else (sid, href) :: status_links_from ((sid, href) :: seen) rest
  end.

Definition _article_status_links (art : article) : list (str * str) :=
  status_links_from [] (status_hrefs art).

Definition no_article : exn := RuntimeError (py "No tweet article found on page").

Definition target_not_found (status_id : str) : exn :=
  RuntimeError (py "Target status id not found on page: " ++ status_id).

Definition by_permalink (status_id : str) (art : article) : bool :=
  let sid := fst (_status_from_time_permalink art) in
  nonempty sid && eqb sid status_id.

Definition by_any_link (status_id : str) (art : article) : bool :=
  existsb (fun l => eqb (fst l) status_id) (_article_status_links art).

Definition _find_target_article (pg : page) (status_id : str) : result article :=
  let articles := mounted pg (position pg) in
  match articles with
  | [] => Raise no_article
  | first :: _ =>
    if negb (nonempty status_id) then Ok first
    else
      match List.find (by_permalink status_id) articles with
      | Some art => Ok art
      | None =>
        match List.find (by_any_link status_id) articles with
        | Some art => Ok art
        | None => Raise (target_not_found status_id)
        end
      end
  end.

(** The [for i in range(attempts)] loop, [todo] iterations before its end. *)
Fixpoint retry_loop (todo : nat) (pg : page) (status_id : str)
    (last_err : option exn) : result article * page :=
  match todo with
  | O =>
    (Raise (match last_err with
            | Some e => e
            | None => target_not_found status_id
            end), pg)
  | S todo' =>
    match _find_target_article pg status_id with
    | Ok art => (Ok art, pg)
    | Raise e =>
      match todo' with
      | O => (Raise e, pg)
      | S _ => retry_loop todo' (mouse_wheel pg) status_id (Some e)
      end
    end
  end.

(** Whether one of the articles is the target, by either of the two tests. *)
Definition has_target (status_id : str) (arts : list article) : bool :=
  existsb (by_permalink status_id) arts || existsb (by_any_link status_id) arts.

Definition attempts : nat := 8.

Definition _find_target_article_with_retries (pg : page) (status_id : str)
    : result article * page :=
  retry_loop attempts (press_home pg) status_id None.

End Reader.

(** ** One capture with its fallback: [run_x_capture_analyze.py] *)

Module Analyze.

Import Str.

Definition XOPS_DIR : str := py "/home/sikai/ai-workspace/x-ops".
Definition CAPTURE_DIR : str := XOPS_DIR ++ py "/data/captured".
Definition READ_SCRIPT : str := XOPS_DIR ++ py "/scripts/read_x_post.py".

(** [lines[-n:]]. *)
Definition last_lines (n : nat) (ls : list str) : list str :=
  drop (length ls - n) ls.

Record capture_result := {
  status_id : str;
  capture_output_tail : str;
  capture_mode : str;
  capture_error_headless : option str;
}.

Section Capture.

(** What lies outside the script: the interpreter's path, which paths
    exist, and the child processes. The [k]-th child process started,
    given its command line, ends with an exit code and its output; the
    state is the list of command lines started so far. *)
Variable executable : str.
Variable path_exists : str -> bool.
Variable child : nat -> list str -> Z * str.

Definition _run (cmd : list str) (started : list (list str))
    : result str * list (list str) :=
  let '(rc, out) := child (length started) cmd in
  let started' := started ++ [cmd] in
  if negb (rc =? 0)%Z then
    let tail := join NL (last_lines 30 (splitlines out)) in
    (Raise (RuntimeError (py "command failed rc=" ++ PyInt.format_d rc ++ py ": "
                          ++ join (py " ") cmd ++ NL ++ tail)), started')
  else (Ok out, started').

Definition capture_cmd (status url browser proxy cookie_file : str)
    (timeout_ms : Z) (headless : bool) : list str :=
  [ executable; READ_SCRIPT; url; py "--browser"; browser; py "--timeout";
    PyInt.format_d timeout_ms; py "--output";
    CAPTURE_DIR ++ py "/" ++ status ++ py ".json" ]
  ++ (if headless then [py "--headless"] else [])
  ++ (if nonempty (strip proxy) then [py "--proxy"; strip proxy] else [])
  ++ (if nonempty (strip cookie_file) && path_exists (strip cookie_file)
      then [py "--cookie-file"; strip cookie_file] else []).

Definition _capture_single (url browser proxy cookie_file : str)
    (timeout_ms : Z) (headless : bool) (started : list (list str))
    : result capture_result * list (list str) :=
  let sid := Batch.extract_status_id url in
  if negb (nonempty sid) then
    (Raise (ValueError (py "Invalid X status URL: " ++ url)), started)
  else
    let cmd := capture_cmd sid url browser proxy cookie_file timeout_ms headless in
    match _run cmd started with
    | (Ok out, started1) =>
      (Ok {| status_id := sid;
             capture_output_tail := join NL (last_lines 12 (splitlines out));
             capture_mode := if headless then py "headless" else py "headed";
             capture_error_headless := None |}, started1)
    | (Raise exc, started1) =>
      if negb headless then (Raise exc, started1)
      else
        let retry_cmd := filter (fun c => c <> py "--headless") cmd in
        match _run retry_cmd started1 with
        | (Ok out2, started2) =>
          (Ok {| status_id := sid;
                 capture_output_tail := join NL (last_lines 12 (splitlines out2));
                 capture_mode := py "headed-fallback";
                 capture_error_headless := Some (exn_msg exc) |}, started2)
        | (Raise exc2, started2) => (Raise exc2, started2)
        end
    end.

End Capture.

End Analyze.


(** ** Views of a queue file *)

Module QueueView.

Import Str Queue.

Definition is_marker (line : str) : bool := startswith (py "## Item ") line.

(** The lines before the first marker line. *)
Fixpoint before_first_marker (lines : list str) : list str :=
  match lines with
  | [] => []
  | l :: rest => if is_marker l then [] else l :: before_first_marker rest
  end.

Definition marker_lines (lines : list str) : list str :=
  List.filter is_marker lines.

(** What a marker line says: the outcome of reading its id, and its status. *)
Definition marker_says (line : str) : result Z * str :=
  (marker_id line, marker_status line).

Definition item_says (it : QueueItem) : result Z * str :=
  (Ok (item_id it), status it).

(** An item that can be written and found again: its fields are single
    lines, and no line of its body starts with "## Item ". *)
Definition findable_item (it : QueueItem) : bool :=
  one_line (status it) && one_line (type it) && one_line (lang it)
  && one_line (source it) && one_line (note it)
  && forallb (fun l => negb (is_marker l)) (splitlines (text it)).

(** An item as a parse leaves it: a status that renders and parses as it
    is, single-line fields, and no marker line in the body. *)
Definition parsed_item (it : QueueItem) : bool :=
  plain_status (status it) && findable_item it.

(** A line of a body or a header: a single line that is no marker. *)
Definition body_line_ok (l : str) : bool := one_line l && negb (is_marker l).

(** What the parser keeps true of its state: the items closed so far are
    as above, and so is the open item, whose text is the join of body
    lines. *)
Definition parse_inv (st : pstate) : Prop :=
  forallb parsed_item (items st) = true /\
  forallb body_line_ok (header_lines st) = true /\
  match current st with
  | Some cur =>
    plain_status (status cur) = true /\ one_line (type cur) = true /\
    one_line (lang cur) = true /\ one_line (source cur) = true /\
    one_line (note cur) = true /\
    exists ls, text cur = join NL ls /\ forallb body_line_ok ls = true
  | None => True
  end.

(** Whether an item is open whose "text:" line has not come yet. *)
Definition fields_open (st : pstate) : bool :=
  match current st with Some _ => negb (in_text st) | None => false end.

(** Whether the parser, after a line, has an item open and has not yet
    seen its "text:" line, given whether that was so before the line. *)
Definition track (fields_open : bool) (line : str) : bool :=
  if is_marker line then true
  else if startswith (py "text:") line then false
  else fields_open.

Definition in_fields (lines : list str) : bool := foldl track false lines.

Definition known_keys : list str := [py "type"; py "lang"; py "source"; py "note"].

(** A line that is no marker, no "text:" line and no line of a known key. *)
Definition unknown_line (line : str) : bool :=
  negb (is_marker line) && negb (startswith (py "text:") line)
  && match split_once 58 line with
     | Some (key, _) => negb (bool_decide (strip key ∈ known_keys))
     | None => true
     end.

End QueueView.

(** ** The publisher: [drafts_to_x.py] *)

Module Drafts.

Import Str Queue.

(** [l[:k]] for an integer [k]: a negative [k] counts from the end. *)
Definition py_take {A : Type} (k : Z) (l : list A) : list A :=
  if (0 <=? k)%Z then take (Z.to_nat k) l
  else take (length l - Z.to_nat (- k)) l.

Definition trim_text (text : str) (limit : Z) : str :=
  if (Z.of_nat (length text) <=? limit)%Z then text
  else py_take (limit - 1) text ++ [8230].

Definition set_status (it : QueueItem) (s : str) : QueueItem :=
  {| item_id := item_id it; status := s; type := type it; lang := lang it;
     source := source it; note := note it; text := text it |}.

(** [i.status == "pending" and i.text.strip()]. *)
Definition drafted (it : QueueItem) : QueueItem := set_status it (py "drafted").

Definition is_pending (it : QueueItem) : bool :=
  eqb (status it) (py "pending") && nonempty (strip (text it)).

(** [pending] holds the very objects of [items], so it is kept as the list of
    their positions. *)
Definition pending (items : list QueueItem) : list nat :=
  List.filter (fun i => match items !! i with
                        | Some it => is_pending it
                        | None => false
                        end)
              (seq 0 (length items)).

Section Main.

(** The browser: whether the [k]-th drafting, of the given text, goes through
    [open_compose], [fill_text] and [save_draft] without an exception. *)
Variable draft : nat -> str -> bool.

(** The loop over [to_process]: an item is marked in place when its drafting
    went through, and skipped otherwise. *)
Fixpoint process (k : nat) (to_process : list nat) (items : list QueueItem)
    : list QueueItem :=
  match to_process with
  | [] => items
  | i :: rest =>
    let text := trim_text (default [] (text <$> items !! i)) 280 in
    if draft k text then
      process (S k) rest (alter (fun it => set_status it (py "drafted")) i items)
    else process (S k) rest items
  end.

(** [main] on the files: the queue is read and parsed; without a pending
    item nothing happens; with [--mark] the queue is written back. *)
Definition main (fs : gmap str str) (queue : str) (limit : Z) (mark : bool)
    : result (gmap str str) :=
  match fs !! queue with
  | None => Raise (OtherError (py "No such file or directory"))
  | Some content =>
    parsed ← parse_queue_md content;
    let to_process := py_take limit (pending parsed.2) in
    match to_process with
    | [] => Ok fs
    | _ =>
      let items' := process 0 to_process parsed.2 in
      if mark then Ok (<[queue := render_queue_md parsed.1 items']> fs)
      else Ok fs
    end
  end.

End Main.

End Drafts.

(** ** Grouping the notes: [build_grouped] in [batch_x_learning.py] *)

Module Grouped.

Import Str Batch.

(** [KeyError(k)]: its text is the key between quotes, as it is written
    for a key of plain characters. *)
Definition key_error (k : str) : exn := OtherError (py "'" ++ k ++ py "'").

(** The keys of the dict that [build_grouped] starts from, in the order
    they are written. *)
Definition categories : list str := map fst CATEGORY_RULES ++ [py "uncategorized"].

(** [grouped[key].append(it)], the dict being the list of its entries in
    the order of their keys. *)
Fixpoint dict_append (key : str) (it : note_item)
    (grouped : list (str * list note_item)) : result (list (str * list note_item)) :=
  match grouped with
  | [] => Raise (key_error key)
  | (k, posts) :: rest =>
    if eqb k key then Ok ((k, posts ++ [it]) :: rest)
    else rest' ← dict_append key it rest; Ok ((k, posts) :: rest')
  end.

Fixpoint group_loop (grouped : list (str * list note_item)) (items : list note_item)
    : result (list (str * list note_item)) :=
  match items with
  | [] => Ok grouped
  | it :: rest =>
    grouped' ← dict_append (ni_category it) it grouped;
    group_loop grouped' rest
  end.

Definition build_grouped (items : list note_item)
    : result (list (str * list note_item)) :=
  group_loop (map (fun k => (k, [])) categories) items.

(** The items of one category, in their order. *)
Definition of_category (cat : str) (items : list note_item) : list note_item :=
  List.filter (fun it => eqb (ni_category it) cat) items.

End Grouped.

(** ** Cleaning a text: [_clean] in [learn_from_capture.py] and [read_x_post.py] *)

Module Clean.

Import Str.

Definition _clean (text : str) : str := strip (collapse_ws false text).

(** A text in which every whitespace character is one blank that stands
    between two characters that are not whitespace. *)
Fixpoint tidy_from (after_space : bool) (s : str) : bool :=
  match s with
  | [] => negb after_space
  | c :: s' =>
    if isspace c then (c =? 32) && negb after_space && tidy_from true s'
    else tidy_from false s'
  end.

Definition tidy (s : str) : bool :=
  match s with
  | [] => true
  | _ :: _ => tidy_from true s
  end.

(** A text after [collapse_ws]: white space is single blanks, but the text
    may still start or end with one. *)
Fixpoint collapsed (after_space : bool) (s : str) : bool :=
  match s with
  | [] => true
  | c :: s' =>
    if isspace c then (c =? 32) && negb after_space && collapsed true s'
    else collapsed false s'
  end.

Definition visible (s : str) : str := List.filter (fun c => negb (isspace c)) s.

End Clean.

(** ** Sentences of a text: [_sentences] in [learn_from_capture.py] *)

Module Sentences.

Import Str Clean.

(** The characters of the class in the pattern of [re.split]. *)
Definition is_sep (c : char) : bool :=
  bool_decide (c ∈ NL ++ py "。！？!?;；").

(** A character that is neither a separator nor a carriage return. *)
Definition plain_char (c : char) : Prop := is_sep c = false /\ c <> 13.

(** [re.split] on runs of separators: the pieces between the runs, with an
    empty piece before a run at the start and after a run at the end. *)
Fixpoint re_split (in_run : bool) (cur : str) (s : str) : list str :=
  match s with
  | [] => [cur]
  | c :: s' =>
    if is_sep c then
      if in_run then re_split true [] s' else cur :: re_split true [] s'
    else re_split false (cur ++ [c]) s'
  end.

(** [text.replace("\r", "\n")]. *)
Definition cr_to_lf (text : str) : str :=
  map (fun c => if c =? 13 then 10 else c) text.

Fixpoint keep_sentences (chunks : list str) : list str :=
  match chunks with
  | [] => []
  | chunk :: rest =>
    let line := _clean chunk in
    if negb (nonempty line) then keep_sentences rest
    else if (length line <? 8)%nat then keep_sentences rest
    else line :: keep_sentences rest
  end.

Definition _sentences (text : str) : list str :=
  keep_sentences (re_split false [] (cr_to_lf text)).

End Sentences.

(** ** The articles of a page: [_collect_articles] in [read_x_post.py] *)

Module Feed.

Import Str.

(** The dict that [_extract_article] returns. *)
Record post := {
  p_status_id : str;
  p_status_url : str;
  p_author : str;
  p_author_handle : str;
  p_timestamp : str;
  p_text : str;
  p_media_urls : list str;
  p_article_urls : list str;
}.

Section Collect.

(** What lies outside: the article nodes of the page and what
    [_extract_article] reads from each. *)
Variable node : Type.
Variable _extract_article : node -> post.

(** The loop of [_collect_articles] over the nodes still to visit, with
    the ids seen so far. *)
Fixpoint collect_loop (seen_ids : list str) (nodes : list node) : list post :=
  match nodes with
  | [] => []
  | n :: rest =>
    let data := _extract_article n in
    let sid := p_status_id data in
    if nonempty sid then
      if bool_decide (sid ∈ seen_ids) then collect_loop seen_ids rest
      else data :: collect_loop (sid :: seen_ids) rest
    else if negb (nonempty (p_text data)) then collect_loop seen_ids rest
    else data :: collect_loop seen_ids rest
  end.

Definition _collect_articles (articles : list node) (max_articles : Z) : list post :=
  let count := Z.min (Z.of_nat (length articles)) max_articles in
  collect_loop [] (take (Z.to_nat count) articles).

End Collect.

(** The status ids of a list of posts, without the empty ones. *)
Definition ids_of (items : list post) : list str :=
  List.filter nonempty (map p_status_id items).

End Feed.

(** ** The handle of an author: [_extract_handle] in [read_x_post.py] *)

Module Handle.

Import Str.

(** The class [[A-Za-z0-9_]]. *)
Definition is_word (c : char) : bool :=
  ((65 <=? c) && (c <=? 90)) || ((97 <=? c) && (c <=? 122)) || isdigit c || (c =? 95).

(** The longest run of at most [n] characters of the class at the start
    of [s]. *)
Fixpoint take_word (n : nat) (s : str) : str :=
  match n, s with
  | S n', c :: s' => if is_word c then c :: take_word n' s' else []
  | _, _ => []
  end.

(** [re.search(r"@([A-Za-z0-9_]{1,15})", user_text)]: the leftmost "@"
    that a character of the class follows. *)
Fixpoint _extract_handle (user_text : str) : str :=
  match user_text with
  | [] => []
  | c :: rest =>
    if c =? 64 then
      match take_word 15 rest with
      | [] => _extract_handle rest
      | w => lower w
      end
    else _extract_handle rest
  end.

End Handle.

(** ** The generator: [queue_generate.py], with [infer_github_repo] of [utils.py] *)

Module Generate.

Import Str Queue.

(** [SeedItem] of [utils.py]. *)
Record SeedItem := {
  seed_section : str;
  seed_url : str;
  seed_note : str;
  seed_title : str;
  seed_summary : str;
}.

(** The longest run of characters other than "/" at the start of [s]. *)
Fixpoint segment (s : str) : str :=
  match s with
  | c :: s' => if c =? 47 then [] else c :: segment s'
  | [] => []
  end.

(** [re.match(r"https?://github.com/([^/]+/[^/]+)", url)]: the dot of the
    pattern stands for any character but a line feed. *)
Definition infer_github_repo (url : str) : str :=
  let after_http :=
    if startswith (py "https") url then Some (drop 5 url)
    else if startswith (py "http") url then Some (drop 4 url)
    else None in
  match after_http with
  | None => []
  | Some r =>
    if negb (startswith (py "://github") r) then []
    else
      match drop 9 r with
      | [] => []
      | dot :: r' =>
        if (dot =? 10) || negb (startswith (py "com/") r') then []
        else
          let owner := segment (drop 4 r') in
          match drop (length owner) (drop 4 r') with
          | [] => []
          | _ :: r'' =>
            let repo := segment r'' in
            if nonempty owner && nonempty repo then owner ++ py "/" ++ repo else []
          end
      end
  end.

(** [a or b]. *)
Definition or_str (a b : str) : str := if nonempty a then a else b.

Definition truncate (text : str) (limit : Z) : str :=
  if (Z.of_nat (length text) <=? limit)%Z then text
  else Drafts.py_take (limit - 1) text ++ [8230].

Definition fallback_text (item : SeedItem) (lang : str) : str :=
  let title := or_str (seed_title item)
                 (or_str (infer_github_repo (seed_url item)) (py "未命名内容")) in
  let summary := or_str (seed_summary item) (or_str (seed_note item) (py "简要更新")) in
  if eqb (seed_section item) (py "ai_hotspot") then
    truncate
      (if eqb lang (py "en") then
         py "AI update: " ++ title ++ NL ++ py "TL;DR: " ++ summary ++ NL
         ++ py "Source: " ++ seed_url item
       else
         py "【AI动态】" ++ title ++ NL ++ py "一句话：" ++ summary ++ NL
         ++ py "来源：" ++ seed_url item) 280
  else if eqb (seed_section item) (py "openclaw") then
    truncate
      (if eqb lang (py "en") then
         py "Openclaw notes: " ++ title ++ NL ++ py "Key points: " ++ summary ++ NL
         ++ py "Source: " ++ seed_url item
       else
         py "【Openclaw 经验】" ++ title ++ NL ++ py "要点：" ++ summary ++ NL
         ++ py "来源：" ++ seed_url item) 280
  else if eqb (seed_section item) (py "github_trending") then
    let repo := or_str (infer_github_repo (seed_url item)) title in
    truncate
      (if eqb lang (py "en") then
         py "GitHub trend: " ++ repo ++ NL ++ py "Why: " ++ summary ++ NL
         ++ py "Source: " ++ seed_url item
       else
         py "【GitHub 热门】" ++ repo ++ NL ++ py "亮点：" ++ summary ++ NL
         ++ py "来源：" ++ seed_url item) 280
  else if eqb lang (py "en") then
    truncate (py "Update: " ++ title ++ NL ++ summary ++ NL
              ++ py "Source: " ++ seed_url item) 280
  else
    truncate (py "更新：" ++ title ++ NL ++ summary ++ NL
              ++ py "来源：" ++ seed_url item) 280.

Section Build.

(** What lies outside: the text that the language model command gives for
    a template and a seed, empty when there is none. *)
Variable render_with_llm : str -> SeedItem -> str.

Definition order : list str :=
  [py "ai_hotspot"; py "openclaw"; py "github_trending"].

Definition merged (sections : gmap str (list SeedItem)) : list SeedItem :=
  concat (map (fun key => default [] (sections !! key)) order).

(** One turn of the loop of [build_items], for the seed at index [idx]. *)
Definition build_item (idx : nat) (seed : SeedItem) : QueueItem :=
  let lang := if ((Z.of_nat idx + 1) mod 6 =? 0)%Z then py "en" else py "zh" in
  let text :=
    if eqb (seed_section seed) (py "ai_hotspot") then
      render_with_llm (py "ai_hotspot") seed
    else if eqb (seed_section seed) (py "openclaw") then
      render_with_llm (py "openclaw") seed
    else if eqb (seed_section seed) (py "github_trending") then
      render_with_llm (py "github_trending") seed
    else [] in
  let text := if negb (nonempty text) then fallback_text seed lang else text in
  {| item_id := Z.of_nat idx + 1; status := py "pending"; type := seed_section seed;
     lang := lang; source := seed_url seed; note := seed_note seed; text := text |}.

Definition build_items (sections : gmap str (list SeedItem)) (limit : Z)
    : list QueueItem :=
  match merged sections with
  | [] => []
  | seeds => imap build_item (Drafts.py_take limit seeds)
  end.

End Build.

End Generate.

(** ** Where [chunk_text] starts a new chunk *)

Module ChunkOrder.

Import Str Batch.

(** Groups of lines in which the first line of every group but the first
    did not fit into the group before it. *)
Fixpoint greedy (max_chars : nat) (groups : list (list str)) : Prop :=
  match groups with
  | g :: rest =>
    match rest with
    | h :: _ => (max_chars < weight g + (length (hd [] h) + 1))%nat
    | [] => True
    end /\ greedy max_chars rest
  | [] => True
  end.

(** The buffer as a group, when it holds lines. *)
Definition open_group (st : cstate) : list (list str) :=
  if has_lines (buf st) then [buf st] else [].

(** What the loop keeps true after the lines [done]. *)
Definition greedy_inv (max_chars : nat) (done : list str) (st : cstate) : Prop :=
  exists groups : list (list str),
    chunks st = map (join NL) groups /\
    concat groups ++ buf st = done /\
    Forall (fun g => g <> []) groups /\
    size st = weight (buf st) /\
    (buf st = [] -> groups = []) /\
    greedy max_chars (groups ++ open_group st).

End ChunkOrder.

(** ** The points of a note: [_top_points] in [learn_from_capture.py] *)

Module TopPoints.

Import Str Sentences.

Section Rank.

(** The score of a sentence. The ranking below is the same for whatever
    the scoring is, and [_score_sentence] reads word boundaries of the
    regular expression engine, so it stays a parameter. *)
Variable _score_sentence : str -> Z.

(** The loop that fills [ranked]: a sentence whose lower-case form was
    seen is passed over. *)
Fixpoint rank_loop (seen : list str) (sents : list str) : list (Z * str) :=
  match sents with
  | [] => []
  | s :: rest =>
    let key := lower s in
    if bool_decide (key ∈ seen) then rank_loop seen rest
    else (_score_sentence s, s) :: rank_loop (key :: seen) rest
  end.

(** [ranked.sort(key=lambda x: x[0], reverse=True)]: the sort is stable, so
    an entry comes after the entries before it whose score is not smaller. *)
Fixpoint insert_desc (x : Z * str) (l : list (Z * str)) : list (Z * str) :=
  match l with
  | [] => [x]
  | y :: l' => if (y.1 <? x.1)%Z then x :: l else y :: insert_desc x l'
  end.

Definition sort_desc (l : list (Z * str)) : list (Z * str) :=
  foldl (fun acc x => insert_desc x acc) [] l.

(** The order of the sorted entries: the score does not go up. *)
Definition score_ge (a b : Z * str) : Prop := (b.1 <= a.1)%Z.

Fixpoint sorted_desc (l : list (Z * str)) : Prop :=
  match l with
  | [] => True
  | a :: l' => Forall (score_ge a) l' /\ sorted_desc l'
  end.

Definition all_sentences (texts : list str) : list str :=
  concat (map _sentences texts).

Definition ranked (texts : list str) : list (Z * str) :=
  sort_desc (rank_loop [] (all_sentences texts)).

Definition _top_points (texts : list str) (limit : Z) : list str :=
  let all_sents := all_sentences texts in
  let points := List.filter nonempty (map snd (Drafts.py_take limit (ranked texts))) in
  match points, all_sents with
  | [], _ :: _ =>
    Drafts.py_take (Z.min limit (Z.of_nat (length all_sents))) all_sents
  | _, _ => points
  end.

End Rank.

End TopPoints.

(** ** Links to long articles: [_normalize_article_url] in [read_x_post.py] *)

Module ArticleUrl.

Import Str.

(** [s.split(sep, 1)[0]]: the text before the first [sep], or all of [s]. *)
Definition before (sep s : str) : str :=
  match find sep s with
  | Some i => take i s
  | None => s
  end.

(** The address after the first step: a path is put under the site. *)
Definition absolute (url : str) : str :=
  if startswith (py "/") url then py "https://x.com" ++ url else url.

Definition _normalize_article_url (url : str) : str :=
  if negb (nonempty url) then []
  else
    let url1 := absolute url in
    let url2 := before (py "?") url1 in
    if contains (py "/article/") url2 && contains (py "/media/") url2
    then before (py "/media/") url2
    else url2.

End ArticleUrl.

(** ** Cookies: [_parse_cookie_string] in [read_x_post.py] *)

Module Cookies.

Import Str.

(** [s.split(sep)] for a one-character separator: the pieces between the
    separators, empty ones included. *)
Fixpoint split_on (sep : char) (cur : str) (s : str) : list str :=
  match s with
  | [] => [cur]
  | c :: s' =>
    if c =? sep then cur :: split_on sep [] s'
    else split_on sep (cur ++ [c]) s'
  end.

(** One turn of the loop over the parts, [out] being the dict. *)
Definition cookie_step (out : gmap str str) (part : str) : gmap str str :=
  let item := strip part in
  if negb (nonempty item) then out
  else
    match split_once 61 item with
    | None => out
    | Some (k, v) =>
      if negb (nonempty (strip k)) then out
      else <[strip k := strip v]> out
    end.

Definition _parse_cookie_string (raw : str) : gmap str str :=
  foldl cookie_step ∅ (split_on 59 [] raw).

(** A cookie as the loop leaves it in the dict. *)
Definition clean_cookie (k v : str) : Prop :=
  k <> [] /\ strip k = k /\ strip v = v /\ (59 ∉ k) /\ (61 ∉ k) /\ (59 ∉ v).

End Cookies.
(** * Properties *)

(** Literals in a goal are replaced by their code points. *)
Ltac py_eval :=
  repeat match goal with
  | |- context [Str.py ?s] =>
    let v := eval vm_compute in (Str.py s) in change (Str.py s) with v
  end.

Ltac py_eval_in H :=
  repeat match type of H with
  | context [Str.py ?s] =>
    let v := eval vm_compute in (Str.py s) in change (Str.py s) with v in H
  end.

(** ** Facts about strings *)

Module StrFacts.

Import Str.

Lemma find_one_here (c : char) (pre rest : str) :
  c ∉ pre -> find [c] (pre ++ c :: rest) = Some (length pre).
Proof.
  induction pre as [|d pre IH]; intros Hn.
  - simpl. rewrite N.eqb_refl. reflexivity.
  - apply not_elem_of_cons in Hn as [Hd Hn].
    change (find [c] ((d :: pre) ++ c :: rest))
      with (if startswith [c] (d :: pre ++ c :: rest) then Some O
            else S <$> find [c] (pre ++ c :: rest)).
    simpl startswith. rewrite andb_true_r.
    destruct (N.eqb_spec c d) as [->|_]; [done|].
    rewrite IH by done. reflexivity.
Qed.

Lemma find_one_none (c : char) (s : str) : c ∉ s -> find [c] s = None.
Proof.
  induction s as [|d s IH]; intros Hn; [reflexivity|].
  apply not_elem_of_cons in Hn as [Hd Hn].
  change (find [c] (d :: s))
    with (if startswith [c] (d :: s) then Some O else S <$> find [c] s).
  simpl startswith. rewrite andb_true_r.
  destruct (N.eqb_spec c d) as [->|_]; [done|].
  rewrite IH by done. reflexivity.
Qed.

Lemma slice_middle (pre mid post : str) :
  slice (pre ++ mid ++ post) (length pre) (length pre + length mid) = mid.
Proof.
  unfold slice. rewrite drop_app_length.
  replace (length pre + length mid - length pre)%nat with (length mid) by lia.
  apply take_app_length.
Qed.

Lemma slice_empty (s : str) (a b : nat) : (b <= a)%nat -> slice s a b = [].
Proof.
  intros H. unfold slice. replace (b - a)%nat with O by lia. reflexivity.
Qed.

Lemma startswith_app_self (m rest : str) : startswith m (m ++ rest) = true.
Proof. induction m as [|a m IH]; simpl; [done|]. by rewrite N.eqb_refl, IH. Qed.

Lemma eqb_eq (a b : str) : eqb a b = true <-> a = b.
Proof. unfold eqb. apply bool_decide_eq_true. Qed.

Lemma eqb_refl (a : str) : eqb a a = true.
Proof. by apply eqb_eq. Qed.

(** *** Lines *)

Lemma splitlines_char (c : char) (s : str) :
  is_linebreak c = false ->
  splitlines (c :: s) = match splitlines s with
                        | [] => [[c]]
                        | l :: ls => (c :: l) :: ls
                        end.
Proof. intros H. simpl. by rewrite H. Qed.

Lemma splitlines_line (l s : str) :
  Queue.one_line l = true -> splitlines (l ++ NL ++ s) = l :: splitlines s.
Proof.
  induction l as [|c l IH]; intros H.
  - reflexivity.
  - simpl in H. apply andb_true_iff in H as [Hc Hl]. apply negb_true_iff in Hc.
    change ((c :: l) ++ NL ++ s) with (c :: (l ++ NL ++ s)).
    rewrite splitlines_char, IH by done. reflexivity.
Qed.

Lemma splitlines_join (ls : list str) :
  ls <> [] -> forallb Queue.one_line ls = true ->
  splitlines (join NL (ls ++ [[]])) = ls.
Proof.
  induction ls as [|l ls IH]; intros Hne H; [done|].
  simpl in H. apply andb_true_iff in H as [Hl Hls].
  destruct ls as [|l' ls].
  - change (join NL ([l] ++ [[]])) with (l ++ NL ++ []).
    by rewrite splitlines_line.
  - change (join NL ((l :: l' :: ls) ++ [[]]))
      with (l ++ NL ++ join NL ((l' :: ls) ++ [[]])).
    rewrite splitlines_line by done. by rewrite IH.
Qed.

Lemma splitlines_one_line (s : str) : forallb Queue.one_line (splitlines s) = true.
Proof.
  induction s as [s IH] using (induction_ltof1 _ (@length N)); unfold ltof in *.
  destruct s as [|c s]; [reflexivity|].
  destruct (is_linebreak c) eqn:Hc.
  - simpl. rewrite Hc. simpl.
    destruct (c =? 13); [|apply IH; simpl; lia].
    destruct s as [|d s]; [reflexivity|].
    destruct (d =? 10); apply IH; simpl; lia.
  - rewrite splitlines_char by done.
    pose proof (IH s ltac:(simpl; lia)) as Hs.
    destruct (splitlines s) as [|l ls]; simpl in *; rewrite Hc; simpl; [done|].
    exact Hs.
Qed.

(** *** Whitespace *)

Lemma strip_no_space (s : str) : no_space s = true -> strip s = s.
Proof.
  intros H. unfold strip.
  assert (Hl : lstrip s = s).
  { destruct s as [|c s]; [done|]. simpl in *.
    apply andb_true_iff in H as [Hc _]. apply negb_true_iff in Hc. by rewrite Hc. }
  rewrite Hl. clear Hl. induction s as [|c s IH]; [done|].
  simpl in H. apply andb_true_iff in H as [Hc Hs]. apply negb_true_iff in Hc.
  simpl. rewrite IH by done. rewrite Hc. by destruct s.
Qed.

Lemma strip_blank_first (s : str) : strip (32 :: s) = strip s.
Proof. reflexivity. Qed.

Lemma split_ws_token (cur tok rest : str) :
  no_space tok = true -> cur ++ tok <> [] ->
  split_ws_from cur (tok ++ 32 :: rest) = (cur ++ tok) :: split_ws_from [] rest.
Proof.
  revert cur. induction tok as [|c tok IH]; intros cur H Hne.
  - rewrite app_nil_r in *. simpl. by destruct cur.
  - simpl in H. apply andb_true_iff in H as [Hc Ht]. apply negb_true_iff in Hc.
    simpl. rewrite Hc. rewrite IH; [|done|].
    + by rewrite <- app_assoc.
    + destruct cur; done.
Qed.

End StrFacts.

(** ** Integers as text *)

Module PyIntFacts.

Import Str StrFacts PyInt.

Lemma isdigit_bounds (c : char) : isdigit c = true <-> 48 <= c <= 57.
Proof. unfold isdigit. rewrite andb_true_iff, !N.leb_le. done. Qed.

Lemma uint_chars_digits (u : uint) : forallb isdigit (uint_chars u) = true.
Proof. induction u; simpl; done. Qed.

Lemma parse_uint_chars (u : uint) :
  forall after_digit : bool,
  u <> Nil \/ after_digit = true ->
  parse_digits after_digit (uint_chars u) = Some u.
Proof.
  induction u as [|u IH|u IH|u IH|u IH|u IH|u IH|u IH|u IH|u IH|u IH];
    intros b H;
    [destruct H as [H | ->]; [done|reflexivity]
    |simpl; rewrite IH by (by right); reflexivity..].
Qed.

Lemma parse_zeros (j : nat) (s : str) (after_digit : bool) (u : uint) :
  (forall b, parse_digits b s = Some u) ->
  exists u', parse_digits after_digit (replicate j 48 ++ s) = Some u' /\
             N.of_uint u' = N.of_uint u.
Proof.
  intros Hs. revert after_digit. induction j as [|j IH]; intros b.
  - exists u. simpl. by rewrite Hs.
  - destruct (IH true) as (u' & Hp & Hv). exists (D0 u'). simpl.
    rewrite Hp. done.
Qed.

Lemma to_uint_not_nil (n : N) : N.to_uint n <> Nil.
Proof.
  destruct n as [|p]; [done|]. apply DecimalPos.Unsigned.to_uint_nonnil.
Qed.

Lemma format_03d_chars (n : Z) : forallb sign_or_digit (format_03d n) = true.
Proof.
  assert (Hd : forall s, forallb isdigit s = true -> forallb sign_or_digit s = true).
  { intros s H. induction s as [|c s IH]; [done|]. simpl in *.
    apply andb_true_iff in H as [Hc Hs]. unfold sign_or_digit at 1.
    rewrite Hc, orb_true_r, IH by done. done. }
  unfold format_03d, zfill. destruct (n <? 0)%Z; simpl.
  - apply Hd. rewrite forallb_app, uint_chars_digits, andb_true_r.
    by induction (2 - length (uint_chars (N.to_uint (Z.abs_N n))))%nat.
  - apply Hd. rewrite forallb_app, uint_chars_digits, andb_true_r.
    by induction (3 - length (uint_chars (N.to_uint (Z.abs_N n))))%nat.
Qed.

Lemma sign_or_digit_cases (c : char) :
  sign_or_digit c = true -> c = 45 \/ 48 <= c <= 57.
Proof.
  unfold sign_or_digit. rewrite orb_true_iff, N.eqb_eq, isdigit_bounds. done.
Qed.

Lemma sign_or_digit_no_space (s : str) :
  forallb sign_or_digit s = true -> no_space s = true.
Proof.
  intros H. apply forallb_forall. intros c Hc.
  pose proof (proj1 (forallb_forall _ _) H c Hc) as Hs.
  apply sign_or_digit_cases in Hs. apply negb_true_iff, not_true_is_false.
  unfold isspace. rewrite !orb_true_iff, !andb_true_iff, !N.leb_le, !N.eqb_eq. lia.
Qed.

Lemma sign_or_digit_one_line (s : str) :
  forallb sign_or_digit s = true -> Queue.one_line s = true.
Proof.
  intros H. apply forallb_forall. intros c Hc.
  pose proof (proj1 (forallb_forall _ _) H c Hc) as Hs.
  apply sign_or_digit_cases in Hs. apply negb_true_iff, not_true_is_false.
  unfold is_linebreak. rewrite !orb_true_iff, !andb_true_iff, !N.leb_le, !N.eqb_eq. lia.
Qed.

Lemma sign_or_digit_no_bracket (s : str) :
  forallb sign_or_digit s = true -> (91 ∉ s) /\ (93 ∉ s).
Proof.
  intros H. split; intros Hin%list_elem_of_In;
    pose proof (proj1 (forallb_forall _ _) H _ Hin) as Hs;
    apply sign_or_digit_cases in Hs; lia.
Qed.

Lemma format_03d_not_empty (n : Z) : format_03d n <> [].
Proof.
  unfold format_03d, zfill. destruct (n <? 0)%Z; [done|].
  pose proof (to_uint_not_nil (Z.abs_N n)) as H.
  destruct (N.to_uint (Z.abs_N n)); try done;
    intros [_ He]%app_eq_nil; discriminate.
Qed.

(** Reading back a formatted integer. *)
Lemma int_format_03d (n : Z) : int (format_03d n) = Some n.
Proof.
  unfold int.
  rewrite strip_no_space by apply sign_or_digit_no_space, format_03d_chars.
  assert (Hparse : forall j b, exists u',
            parse_digits b (replicate j 48 ++ uint_chars (N.to_uint (Z.abs_N n)))
              = Some u' /\ N.of_uint u' = Z.abs_N n).
  { intros j b.
    destruct (parse_zeros j (uint_chars (N.to_uint (Z.abs_N n))) b (N.to_uint (Z.abs_N n)))
      as (u' & Hp & Hv).
    - intros b'. apply parse_uint_chars. left. apply to_uint_not_nil.
    - exists u'. split; [done|]. rewrite Hv. apply DecimalN.Unsigned.of_to. }
  unfold format_03d, zfill. destruct (Z.ltb_spec n 0) as [Hneg|Hpos].
  - rewrite N.eqb_refl.
    destruct (Hparse (2 - length (uint_chars (N.to_uint (Z.abs_N n))))%nat false)
      as (u' & -> & Hv).
    simpl. rewrite Hv. f_equal. rewrite N2Z.inj_abs_N. lia.
  - destruct (Hparse (3 - length (uint_chars (N.to_uint (Z.abs_N n))))%nat false)
      as (u' & Hp & Hv).
    pose proof (format_03d_chars n) as Hc. unfold format_03d, zfill in Hc.
    destruct (Z.ltb_spec n 0) as [?|_]; [lia|].
    destruct (replicate _ 48 ++ uint_chars (N.to_uint (Z.abs_N n))) as [|c r] eqn:Hs.
    { simpl in Hp. discriminate. }
    simpl in Hc. apply andb_true_iff in Hc as [Hc _].
    assert (Hd : isdigit c = true).
    { clear -Hs. destruct (3 - length (uint_chars (N.to_uint (Z.abs_N n))))%nat.
      - simpl in Hs. pose proof (uint_chars_digits (N.to_uint (Z.abs_N n))) as H.
        rewrite Hs in H. simpl in H. by apply andb_true_iff in H as [H _].
      - simpl in Hs. by injection Hs as <- _. }
    apply isdigit_bounds in Hd.
    destruct (N.eqb_spec c 45); [lia|]. destruct (N.eqb_spec c 43); [lia|].
    rewrite Hp. simpl. rewrite Hv. f_equal. rewrite N2Z.inj_abs_N. lia.
Qed.

End PyIntFacts.

(** ** The item marker *)

Module QueueMarker.

Import Str StrFacts Queue.

Lemma malformed_marker_id line :
  malformed line -> exists e, marker_id line = Raise e.
Proof.
  intros [_ H]. unfold marker_id.
  destruct (split_ws line !! 2%nat) as [tok|]; [rewrite H|]; eauto.
Qed.

Lemma step_malformed st line :
  malformed line -> exists e, step st line = Raise e.
Proof.
  intros H. destruct (malformed_marker_id line H) as [e He].
  destruct H as [Hp _]. unfold step. rewrite Hp, He. simpl. eauto.
Qed.

Lemma loop_malformed lines :
  forall st, Exists malformed lines -> exists e, loop st lines = Raise e.
Proof.
  induction lines as [|l lines IH]; intros st H.
  - inversion H.
  - simpl. destruct (step st l) as [st'|e] eqn:Hs; simpl; [|eauto].
    inversion H as [? ? Hbad|? ? Hrest]; subst.
    + destruct (step_malformed st l Hbad) as [e He]. congruence.
    + apply IH, Hrest.
Qed.



Lemma set_field_same_marker it k v : same_marker it (set_field it k v).
Proof.
  unfold set_field, same_marker.
  repeat match goal with |- context [if ?b then _ else _] => destruct b end;
    simpl; auto.
Qed.

(** An item, once opened, keeps its id and status to the end of the parse. *)
Lemma step_keeps st line st' :
  step st line = Ok st' ->
  forall it, it ∈ flush_current st ->
  exists it', it' ∈ flush_current st' /\ same_marker it it'.
Proof.
  unfold step. intros Hs it Hit.
  destruct (startswith (py "## Item ") line).
  { destruct (marker_id line) as [n|e]; simpl in Hs; [|discriminate].
    injection Hs as <-. exists it. split; [|split; reflexivity].
    unfold flush_current at 1. simpl. set_solver. }
  unfold flush_current in *.
  destruct (current st) as [cur|] eqn:Hc.
  2:{ injection Hs as <-. simpl. exists it. split; [done|split; reflexivity]. }
  apply elem_of_app in Hit.
  assert (Hgen : forall cur', same_marker cur cur' ->
            exists it', it' ∈ items st ++ [cur'] /\ same_marker it it').
  { intros cur' Hsm. destruct Hit as [Hit|Hit].
    - exists it. split; [set_solver|split; reflexivity].
    - apply list_elem_of_singleton in Hit as ->. exists cur'. split; [set_solver|done]. }
  destruct (startswith (py "text:") line).
  { injection Hs as <-. simpl. apply Hgen. split; reflexivity. }
  destruct (in_text st).
  { injection Hs as <-. simpl. apply Hgen. split; reflexivity. }
  destruct (split_once 58 line) as [[k v]|].
  { injection Hs as <-. simpl. apply Hgen, set_field_same_marker. }
  injection Hs as <-. rewrite Hc. apply Hgen. split; reflexivity.
Qed.

Lemma loop_keeps lines :
  forall st st', loop st lines = Ok st' ->
  forall it, it ∈ flush_current st ->
  exists it', it' ∈ flush_current st' /\ same_marker it it'.
Proof.
  induction lines as [|l lines IH]; intros st st' Hl it Hit; simpl in Hl.
  - injection Hl as <-. exists it. split; [done|split; reflexivity].
  - destruct (step st l) as [st1|e] eqn:Hs; simpl in Hl; [|discriminate].
    destruct (step_keeps _ _ _ Hs it Hit) as (it1 & Hit1 & [Ha Hb]).
    destruct (IH _ _ Hl it1 Hit1) as (it2 & Hit2 & [Hc Hd]).
    exists it2. split; [done|]. split; congruence.
Qed.

Lemma step_opens st line st' :
  startswith (py "## Item ") line = true ->
  step st line = Ok st' ->
  exists it, it ∈ flush_current st' /\
    marker_id line = Ok (item_id it) /\ status it = marker_status line.
Proof.
  intros Hp Hs. unfold step in Hs. rewrite Hp in Hs.
  destruct (marker_id line) as [n|e]; simpl in Hs; [|discriminate].
  injection Hs as <-. eexists. split.
  { unfold flush_current. simpl. apply elem_of_app. right.
    apply list_elem_of_singleton. reflexivity. }
  split; reflexivity.
Qed.

Lemma loop_opens lines :
  forall st st' line, loop st lines = Ok st' ->
  line ∈ lines -> startswith (py "## Item ") line = true ->
  exists it, it ∈ flush_current st' /\
    marker_id line = Ok (item_id it) /\ status it = marker_status line.
Proof.
  induction lines as [|l lines IH]; intros st st' line Hl Hin Hp.
  - inversion Hin.
  - simpl in Hl. destruct (step st l) as [st1|e] eqn:Hs; simpl in Hl; [|discriminate].
    apply elem_of_cons in Hin as [->|Hin].
    + destruct (step_opens _ _ _ Hp Hs) as (it & Hit & Hid & Hst).
      destruct (loop_keeps _ _ _ Hl it Hit) as (it' & Hit' & [Ha Hb]).
      exists it'. split; [done|]. rewrite Ha, Hb. done.
    + eapply IH; eauto.
Qed.

Lemma marker_status_between (pre mid post : str) :
  91 ∉ pre -> 93 ∉ pre -> 93 ∉ mid ->
  marker_status (pre ++ [91] ++ mid ++ [93] ++ post) = strip mid.
Proof.
  intros H1 H2 H3. unfold marker_status. py_eval.
  change (pre ++ [91] ++ mid ++ [93] ++ post)
    with (pre ++ 91 :: (mid ++ [93] ++ post)).
  rewrite (find_one_here 91 pre) by done.
  replace (pre ++ 91 :: (mid ++ [93] ++ post))
    with ((pre ++ [91] ++ mid) ++ 93 :: post) by (rewrite <- !app_assoc; done).
  rewrite (find_one_here 93).
  2:{ rewrite !not_elem_of_app. repeat split; try done.
      intros Hx%list_elem_of_singleton. discriminate. }
  replace ((pre ++ [91] ++ mid) ++ 93 :: post)
    with ((pre ++ [91]) ++ mid ++ 93 :: post) by (rewrite <- !app_assoc; done).
  assert (Hl : S (length pre) = length (pre ++ [91%N] : str))
    by (rewrite length_app; simpl; lia).
  assert (Hm : length (pre ++ [91%N] ++ mid : str) = (length (pre ++ [91%N] : str) + length mid)%nat)
    by (rewrite !length_app; simpl; lia).
  rewrite Hl, Hm, slice_middle. reflexivity.
Qed.

Lemma marker_status_reversed (pre mid post : str) :
  91 ∉ pre -> 93 ∉ pre -> 91 ∉ mid ->
  marker_status (pre ++ [93] ++ mid ++ [91] ++ post) = [].
Proof.
  intros H1 H2 H3. unfold marker_status. py_eval.
  change (pre ++ [93] ++ mid ++ [91] ++ post)
    with (pre ++ 93 :: (mid ++ [91] ++ post)).
  rewrite (find_one_here 93 pre) by done.
  replace (pre ++ 93 :: (mid ++ [91] ++ post))
    with ((pre ++ [93] ++ mid) ++ 91 :: post) by (rewrite <- !app_assoc; done).
  rewrite (find_one_here 91).
  2:{ rewrite !not_elem_of_app. repeat split; try done.
      intros Hx%list_elem_of_singleton. discriminate. }
  rewrite slice_empty; [reflexivity|]. rewrite !length_app. simpl. lia.
Qed.

Lemma marker_status_default (line : str) :
  91 ∉ line \/ 93 ∉ line -> marker_status line = py "pending".
Proof.
  intros [H|H]; unfold marker_status; py_eval.
  - rewrite (find_one_none 91) by done. reflexivity.
  - rewrite (find_one_none 93) by done. destruct (find [91] line); reflexivity.
Qed.

(** C7, as the code has it. "## Item 007 [drafted]" parses to an item with
    id 7 and status "drafted", and "## Item 007" to one with status
    "pending". In every file that parses, each marker line opens an item
    that carries the integer of its third token and its status to the end.
    The status is the text between the first "[" and the first "]" with the
    surrounding whitespace removed; it is empty when that "]" comes before
    the "[", and "pending" when either bracket is missing. *)
Theorem marker_line_parsing :
  parse_queue_md (py "## Item 007 [drafted]") = Ok ([], [opened 7 (py "drafted")]) /\
  parse_queue_md (py "## Item 007") = Ok ([], [opened 7 (py "pending")]) /\
  (forall content h its line,
     parse_queue_md content = Ok (h, its) ->
     line ∈ splitlines content ->
     startswith (py "## Item ") line = true ->
     exists it, it ∈ its /\ marker_id line = Ok (item_id it) /\
                status it = marker_status line) /\
  (forall pre mid post : str,
     91 ∉ pre -> 93 ∉ pre -> 93 ∉ mid ->
     marker_status (pre ++ py "[" ++ mid ++ py "]" ++ post) = strip mid) /\
  (forall pre mid post : str,
     91 ∉ pre -> 93 ∉ pre -> 91 ∉ mid ->
     marker_status (pre ++ py "]" ++ mid ++ py "[" ++ post) = []) /\
  (forall line : str, 91 ∉ line \/ 93 ∉ line -> marker_status line = py "pending").
Proof.
  split; [vm_compute; reflexivity|].
  split; [vm_compute; reflexivity|].
  split.
  { intros content h its line Hp Hin Hpre. unfold parse_queue_md in Hp.
    destruct (loop init (splitlines content)) as [st|e] eqn:Hl; simpl in Hp; [|discriminate].
    injection Hp as <- <-. eapply loop_opens; eauto. }
  split; [intros; py_eval; by apply marker_status_between|].
  split; [intros; py_eval; by apply marker_status_reversed|].
  apply marker_status_default.
Qed.

(** C7, as the spec words it, fails: between the brackets of
    "## Item 007 [ drafted ]" stands " drafted ", with its blanks, and the
    parsed status is "drafted". *)
Lemma marker_status_is_stripped :
  let line := py "## Item 007 [ drafted ]" in
  find (py "[") line = Some 12%nat /\
  find (py "]") line = Some 22%nat /\
  slice line 13 22 = py " drafted " /\
  parse_queue_md line = Ok ([], [opened 7 (py "drafted")]) /\
  py "drafted" <> py " drafted ".
Proof. vm_compute. repeat split; discriminate. Qed.

End QueueMarker.

(** ** Categories and summaries *)

Module Summaries.

Import Str Batch.

Lemma categorize_first_key (text : str) :
  contains (py "安装") (lower text) = true -> categorize text = py "install-debug".
Proof.
  intros H. unfold categorize, CATEGORY_RULES. py_eval. py_eval_in H.
  cbn [first_category existsb].
  change (lower [23433; 35013]) with [23433%N; 35013%N].
  rewrite H. reflexivity.
Qed.

Lemma categorize_second_key (text : str) :
  contains (py "配置") (lower text) = true -> categorize text = py "install-debug".
Proof.
  intros H. unfold categorize, CATEGORY_RULES. py_eval. py_eval_in H.
  cbn [first_category existsb].
  change (lower [37197; 32622]) with [37197%N; 32622%N].
  rewrite H, orb_true_r. reflexivity.
Qed.

Lemma summarize_short (text : str) (limit : nat) :
  (length (strip (collapse_ws false text)) <= limit)%nat ->
  summarize text limit = strip (collapse_ws false text).
Proof.
  intros H. unfold summarize.
  destruct (Nat.leb_spec (length (strip (collapse_ws false text))) limit); [reflexivity|lia].
Qed.

(** C9, as the code has it. The scenario text is put in the category
    "install-debug", as is every text that contains one of the two keywords,
    and its summary is the text with each run of whitespace turned into one
    blank and the ends trimmed, without a cut: a text of at most [limit]
    characters after this normalisation is summarised as its normalised
    form, so a text that is already normalised is left as it is. *)
Theorem scenario_category_and_summary :
  categorize scenario_text = py "install-debug" /\
  (forall text : str,
     contains (py "安装") (lower text) = true \/
     contains (py "配置") (lower text) = true ->
     categorize text = py "install-debug") /\
  summarize scenario_text 120 = scenario_summary /\
  (forall (text : str) (limit : nat),
     (length (strip (collapse_ws false text)) <= limit)%nat ->
     summarize text limit = strip (collapse_ws false text)) /\
  (forall (text : str) (limit : nat),
     strip (collapse_ws false text) = text -> (length text <= limit)%nat ->
     summarize text limit = text).
Proof.
  split; [vm_compute; reflexivity|].
  split.
  { intros text [H|H]; [by apply categorize_first_key|by apply categorize_second_key]. }
  split; [vm_compute; reflexivity|].
  split; [apply summarize_short|].
  intros text limit Hn Hl. rewrite summarize_short; rewrite Hn; done.
Qed.

(** C9, as the spec words it, fails: the summary of the scenario text is not
    the text itself, although the text has fewer than 120 characters; its
    two line ends are gone. *)
Lemma scenario_summary_differs :
  (length scenario_text <= 120)%nat /\
  summarize scenario_text 120 = scenario_summary /\
  scenario_summary <> scenario_text.
Proof.
  split; [vm_compute; lia|].
  split; [vm_compute; reflexivity|].
  vm_compute. discriminate.
Qed.

End Summaries.

(** ** The knowledge base *)

Module KnowledgeBase.

Import Str Batch Learn.

Lemma append_kb_marked
    (fs : gmap str str) (kb_path : str) (data : capture)
    (points : list str) (learned_path existing : str) :
  fs !! kb_path = Some existing ->
  contains (marker_of (default [] (target_status_id data))) existing = true ->
  _append_kb fs kb_path data points learned_path = (false, fs).
Proof.
  intros Hf Hm. unfold _append_kb. rewrite Hf, Hm. reflexivity.
Qed.



End KnowledgeBase.

(** ** Finding the target post *)

Module Retry.

Import Str Reader.

Lemma find_target_absent (pg : page) (status_id : str) :
  nonempty status_id = true ->
  has_target status_id (mounted pg (position pg)) = false ->
  (mounted pg (position pg) = [] /\
   _find_target_article pg status_id = Raise no_article) \/
  _find_target_article pg status_id = Raise (target_not_found status_id).
Proof.
  intros Hs Ha. unfold _find_target_article, has_target in *.
  apply orb_false_iff in Ha as [Hp Hl].
  destruct (mounted pg (position pg)) as [|a arts] eqn:Hm; [left; done|right].
  rewrite Hs. simpl negb. cbv iota.
  destruct (List.find (by_permalink status_id) (a :: arts)) as [x|] eqn:Hf.
  { apply find_some in Hf as [Hin Hx].
    assert (existsb (by_permalink status_id) (a :: arts) = true)
      by (apply existsb_exists; eauto).
    congruence. }
  destruct (List.find (by_any_link status_id) (a :: arts)) as [x|] eqn:Hg.
  { apply find_some in Hg as [Hin Hx].
    assert (existsb (by_any_link status_id) (a :: arts) = true)
      by (apply existsb_exists; eauto).
    congruence. }
  reflexivity.
Qed.

Lemma find_target_present (pg : page) (status_id : str) :
  nonempty status_id = true ->
  has_target status_id (mounted pg (position pg)) = true ->
  exists art, _find_target_article pg status_id = Ok art /\
    art ∈ mounted pg (position pg) /\
    by_permalink status_id art || by_any_link status_id art = true.
Proof.
  intros Hs Ha. unfold _find_target_article, has_target in *.
  destruct (mounted pg (position pg)) as [|a arts] eqn:Hm; [discriminate|].
  rewrite Hs. simpl negb. cbv iota.
  destruct (List.find (by_permalink status_id) (a :: arts)) as [x|] eqn:Hf.
  { apply find_some in Hf as [Hin Hx]. exists x. split; [done|].
    split; [by apply list_elem_of_In|]. by rewrite Hx. }
  assert (Hp : existsb (by_permalink status_id) (a :: arts) = false).
  { apply not_true_is_false. intros (x & Hin & Hx)%existsb_exists.
    pose proof (find_none _ _ Hf x Hin). congruence. }
  rewrite Hp, orb_false_l in Ha.
  destruct (List.find (by_any_link status_id) (a :: arts)) as [x|] eqn:Hg.
  { apply find_some in Hg as [Hin Hx]. exists x. split; [done|].
    split; [by apply list_elem_of_In|]. rewrite Hx. apply orb_true_r. }
  apply existsb_exists in Ha as (x & Hin & Hx).
  pose proof (find_none _ _ Hg x Hin). congruence.
Qed.

(** The loop stops at the first position that shows the target, after one
    wheel turn per position passed. *)
Lemma retry_loop_found (status_id : str) (n : nat) :
  nonempty status_id = true ->
  forall (todo : nat) (pg : page) (last_err : option exn),
  (n < todo)%nat ->
  (forall k, (k < n)%nat ->
     has_target status_id (mounted pg (position pg + k)%nat) = false) ->
  has_target status_id (mounted pg (position pg + n)%nat) = true ->
  exists art pg',
    retry_loop todo pg status_id last_err = (Ok art, pg') /\
    wheels pg' = (wheels pg + n)%nat /\
    art ∈ mounted pg (position pg + n)%nat /\
    by_permalink status_id art || by_any_link status_id art = true.
Proof.
  intros Hs. induction n as [|n IH]; intros todo pg last_err Hlt Habs Hpres.
  - destruct todo as [|todo]; [lia|]. rewrite Nat.add_0_r in Hpres.
    destruct (find_target_present pg status_id Hs Hpres) as (art & Hf & Hin & Hm).
    exists art, pg. simpl. rewrite Hf, !Nat.add_0_r. done.
  - destruct todo as [|[|todo]]; [lia..|].
    assert (H0 : has_target status_id (mounted pg (position pg)) = false).
    { rewrite <- (Nat.add_0_r (position pg)). apply Habs. lia. }
    destruct (IH (S todo) (mouse_wheel pg)
                (Some (match _find_target_article pg status_id with
                       | Raise e => e | Ok _ => no_article end)))
      as (art & pg' & Hr & Hw & Hin & Hm).
    + lia.
    + intros k Hk. simpl. replace (S (position pg + k)) with (position pg + S k)%nat by lia.
      apply Habs. lia.
    + simpl. replace (S (position pg + n)) with (position pg + S n)%nat by lia. done.
    + exists art, pg'. simpl in Hw, Hin.
      replace (S (position pg + n)) with (position pg + S n)%nat in Hin by lia.
      split; [|split; [lia|done]].
      change (retry_loop (S (S todo)) pg status_id last_err)
        with (match _find_target_article pg status_id with
              | Ok a => (Ok a, pg)
              | Raise e => retry_loop (S todo) (mouse_wheel pg) status_id (Some e)
              end).
      destruct (find_target_absent pg status_id Hs H0) as [[_ He]|He];
        rewrite He in *; exact Hr.
Qed.

(** When no position within reach shows the target, every attempt fails,
    the wheel is turned between the attempts only, and the last failure is
    what the loop raises. *)
Lemma retry_loop_exhausted (status_id : str) :
  nonempty status_id = true ->
  forall (todo : nat) (pg : page) (last_err : option exn),
  (forall k, (k <= todo)%nat ->
     has_target status_id (mounted pg (position pg + k)%nat) = false) ->
  exists e pg',
    retry_loop (S todo) pg status_id last_err = (Raise e, pg') /\
    wheels pg' = (wheels pg + todo)%nat /\
    position pg' = (position pg + todo)%nat /\
    mounted pg' = mounted pg /\
    _find_target_article pg' status_id = Raise e.
Proof.
  intros Hs. induction todo as [|todo IH]; intros pg last_err Habs.
  - assert (H0 : has_target status_id (mounted pg (position pg)) = false).
    { rewrite <- (Nat.add_0_r (position pg)). apply Habs. lia. }
    destruct (find_target_absent pg status_id Hs H0) as [[_ He]|He];
      eexists _, pg; simpl; rewrite He; rewrite !Nat.add_0_r; done.
  - assert (H0 : has_target status_id (mounted pg (position pg)) = false).
    { rewrite <- (Nat.add_0_r (position pg)). apply Habs. lia. }
    change (retry_loop (S (S todo)) pg status_id last_err)
      with (match _find_target_article pg status_id with
            | Ok a => (Ok a, pg)
            | Raise e => retry_loop (S todo) (mouse_wheel pg) status_id (Some e)
            end).
    assert (Hstep : forall err, exists e pg',
              retry_loop (S todo) (mouse_wheel pg) status_id err = (Raise e, pg') /\
              wheels pg' = (wheels pg + S todo)%nat /\
              position pg' = (position pg + S todo)%nat /\
              mounted pg' = mounted pg /\
              _find_target_article pg' status_id = Raise e).
    { intros err. destruct (IH (mouse_wheel pg) err) as (e & pg' & Hr & Hw & Hp & Hm & Hf).
      - intros k Hk. simpl.
        replace (S (position pg + k)) with (position pg + S k)%nat by lia.
        apply Habs. lia.
      - exists e, pg'. simpl in Hw, Hp, Hm. repeat split; try done; lia. }
    destruct (find_target_absent pg status_id Hs H0) as [[_ He]|He];
      rewrite He; apply Hstep.
Qed.



End Retry.

(** ** One capture and its fallback *)

Module Fallback.

Import Str Analyze.

Section Facts.

Variable executable : str.
Variable path_exists : str -> bool.
Variable child : nat -> list str -> Z * str.

Lemma run_ok (cmd : list str) (started : list (list str)) :
  fst (child (length started) cmd) = 0%Z ->
  _run child cmd started = (Ok (snd (child (length started) cmd)), started ++ [cmd]).
Proof.
  intros H. unfold _run. destruct (child (length started) cmd) as [rc out].
  simpl in H. subst rc. reflexivity.
Qed.

Lemma run_fails (cmd : list str) (started : list (list str)) :
  fst (child (length started) cmd) <> 0%Z ->
  exists msg, _run child cmd started = (Raise (RuntimeError msg), started ++ [cmd]).
Proof.
  intros H. unfold _run. destruct (child (length started) cmd) as [rc out].
  simpl in H. destruct (Z.eqb_spec rc 0) as [->|_]; [done|]. simpl. eauto.
Qed.


End Facts.


End Fallback.

(** ** The batch run *)

Module BatchRun.

Import Str Batch.

Section Facts.

Variable load_capture : str -> result capture.
Variable fetch_and_learn : list str -> gmap str str -> Z * gmap str str.
Variables browser proxy : str.
Variable fetch : bool.

Let step := link_step load_capture fetch_and_learn browser proxy fetch.

(** Each link leaves exactly one trace, an item or an error, and what it
    does to the files and the items does not depend on the errors so far. *)
Lemma link_step_trace (fs : gmap str str) (its : list note_item) (link : str) :
  exists fs' its' new,
    (length its' + length new = S (length its))%nat /\
    forall E, step {| files := fs; m_items := its; m_errors := E |} link
              = {| files := fs'; m_items := its'; m_errors := E ++ new |}.
Proof.
  unfold step, link_step. simpl.
  destruct (capture_if_needed fetch_and_learn link browser proxy fetch fs)
    as [[cap|e] fs'].
  - destruct (fs' !! cap) as [content|].
    + destruct (load_capture content) as [data|e].
      * eexists fs', _, []. split; [|intros E; rewrite app_nil_r; reflexivity].
        rewrite length_app. simpl. lia.
      * eexists fs', its, [_]. split; [simpl; lia|reflexivity].
    + eexists fs', its, [_]. split; [simpl; lia|reflexivity].
  - eexists fs', its, [_]. split; [simpl; lia|reflexivity].
Qed.

Lemma run_trace (ls : list str) :
  forall (fs : gmap str str) (its : list note_item),
  exists fs' its' new,
    (length its' + length new = length its + length ls)%nat /\
    forall E, foldl step {| files := fs; m_items := its; m_errors := E |} ls
              = {| files := fs'; m_items := its'; m_errors := E ++ new |}.
Proof.
  induction ls as [|l ls IH]; intros fs its.
  - exists fs, its, []. split; [simpl; lia|]. intros E. by rewrite app_nil_r.
  - destruct (link_step_trace fs its l) as (fs1 & its1 & new1 & Hc1 & H1).
    destruct (IH fs1 its1) as (fs2 & its2 & new2 & Hc2 & H2).
    exists fs2, its2, (new1 ++ new2). split.
    + rewrite length_app. simpl. lia.
    + intros E. simpl. rewrite H1, H2, app_assoc. reflexivity.
Qed.

(** A link without a status id is reported and changes nothing else. *)
Lemma link_step_malformed (st : mstate) (bad : str) :
  extract_status_id bad = [] ->
  step st bad = {| files := files st; m_items := m_items st;
                   m_errors := m_errors st ++ [bad ++ py ": Invalid X link: " ++ bad] |}.
Proof.
  intros H. unfold step, link_step, capture_if_needed. rewrite H. reflexivity.
Qed.

(** A link whose capture is at hand adds one item and leaves the files and
    the errors as they are. *)
Lemma link_step_ready (st : mstate) (link : str) :
  ready_link load_capture (files st) link ->
  exists item,
    step st link = {| files := files st; m_items := m_items st ++ [item];
                      m_errors := m_errors st |}.
Proof.
  intros (Hsid & content & data & Hf & Hload).
  unfold step, link_step, capture_if_needed. rewrite Hsid. simpl negb. cbv iota.
  assert (Hex : bool_decide (is_Some (files st !! capture_path (extract_status_id link)))
                = true) by (apply bool_decide_eq_true; eauto).
  rewrite Hex. simpl orb. cbv iota beta. rewrite Hf, Hload. eauto.
Qed.

Lemma run_ready (ls : list str) :
  forall st : mstate,
  Forall (ready_link load_capture (files st)) ls ->
  length (m_items (foldl step st ls)) = (length (m_items st) + length ls)%nat.
Proof.
  induction ls as [|l ls IH]; intros st Hall; simpl; [lia|].
  apply Forall_cons in Hall as [Hl Hls].
  destruct (link_step_ready st l Hl) as [item Hs]. rewrite Hs.
  rewrite IH by (simpl; done). simpl. rewrite length_app. simpl. lia.
Qed.


End Facts.



End BatchRun.

(** ** Note chunking *)

Module Chunking.

Import Str Batch.

Lemma join_cons (sep p : str) (ps : list str) :
  ps <> [] -> join sep (p :: ps) = p ++ sep ++ join sep ps.
Proof. destruct ps; [done|reflexivity]. Qed.

Lemma join_app (sep : str) (a b : list str) :
  a <> [] -> b <> [] -> join sep (a ++ b) = join sep a ++ sep ++ join sep b.
Proof.
  induction a as [|p a IH]; intros Ha Hb; [done|].
  destruct a as [|q a].
  - simpl app. rewrite join_cons by done. reflexivity.
  - change ((p :: q :: a) ++ b) with (p :: ((q :: a) ++ b)).
    rewrite !join_cons by done. rewrite IH by done.
    rewrite <- !app_assoc. reflexivity.
Qed.

Lemma join_length (b : list str) :
  b <> [] -> (length (join NL b) + 1)%nat = weight b.
Proof.
  induction b as [|p b IH]; intros Hb; [done|].
  destruct b as [|q b].
  - simpl. lia.
  - rewrite join_cons by done. rewrite !length_app.
    change (weight (p :: q :: b)) with (length p + 1 + weight (q :: b))%nat.
    rewrite <- IH by done. simpl. lia.
Qed.

Lemma weight_snoc (b : list str) (line : str) :
  weight (b ++ [line]) = (weight b + (length line + 1))%nat.
Proof. induction b as [|p b IH]; simpl; [lia|]. rewrite IH. lia. Qed.

(** Joining the chunks gives the same text as joining all the lines. *)
Lemma join_concat (groups : list (list str)) :
  Forall (fun g => g <> []) groups ->
  join NL (map (join NL) groups) = join NL (concat groups).
Proof.
  induction groups as [|g gs IH]; intros Hne; [reflexivity|].
  apply Forall_cons in Hne as [Hg Hgs].
  destruct gs as [|g' gs].
  - simpl. by rewrite app_nil_r.
  - change (map (join NL) (g :: g' :: gs))
      with (join NL g :: map (join NL) (g' :: gs)).
    rewrite join_cons by done. rewrite IH by done.
    change (concat (g :: g' :: gs)) with (g ++ concat (g' :: gs)).
    rewrite join_app; [done..|].
    apply Forall_cons in Hgs as [Hg' _]. simpl. destruct g'; done.
Qed.

Lemma chunk_step_inv (max_chars : nat) (done : list str) (st : cstate) (line : str) :
  chunk_inv max_chars done st ->
  chunk_inv max_chars (done ++ [line]) (chunk_step max_chars st line).
Proof.
  intros (groups & Hc & Hd & Hne & Hsm & Hsz & Hb). unfold chunk_step.
  destruct ((max_chars <? size st + (length line + 1))%nat && has_lines (buf st)) eqn:Hcond.
  - apply andb_true_iff in Hcond as [Hover Hbuf].
    assert (Hbne : buf st <> []) by (destruct (buf st); done).
    exists (groups ++ [buf st]). simpl. repeat split.
    + rewrite map_app, Hc. reflexivity.
    + rewrite concat_app. simpl. rewrite app_nil_r, Hd. reflexivity.
    + apply Forall_app. split; [done|]. by apply Forall_singleton.
    + apply Forall_app. split; [done|]. apply Forall_singleton.
      destruct Hb as [Hb|Hb].
      * left. destruct (buf st) as [|? [|? ?]]; simpl in *; [done|lia|lia].
      * right. pose proof (join_length (buf st) Hbne). lia.
    + lia.
    + left. lia.
  - exists groups. simpl. repeat split; try done.
    + rewrite app_assoc, Hd. reflexivity.
    + rewrite weight_snoc, Hsz. reflexivity.
    + apply andb_false_iff in Hcond as [Hfit|Hempty].
      * right. apply Nat.ltb_ge in Hfit. lia.
      * left. destruct (buf st); [simpl; lia|done].
Qed.

Lemma chunk_loop_inv (max_chars : nat) (lines : list str) :
  forall (done : list str) (st : cstate),
  chunk_inv max_chars done st ->
  chunk_inv max_chars (done ++ lines) (foldl (chunk_step max_chars) st lines).
Proof.
  induction lines as [|l lines IH]; intros done st Hinv; simpl.
  - by rewrite app_nil_r.
  - replace (done ++ l :: lines) with ((done ++ [l]) ++ lines)
      by (rewrite <- app_assoc; reflexivity).
    apply IH, chunk_step_inv, Hinv.
Qed.

Lemma chunk_text_groups (text : str) (max_chars : nat) :
  exists groups : list (list str),
    chunk_text text max_chars = map (join NL) groups /\
    concat groups = splitlines text /\
    Forall (fun g => g <> []) groups /\
    Forall (fun g => length g = 1%nat \/ (length (join NL g) < max_chars)%nat) groups.
Proof.
  assert (H0 : chunk_inv max_chars [] chunk_init).
  { exists []. simpl. repeat split; try done; auto with lia. }
  destruct (chunk_loop_inv max_chars (splitlines text) [] chunk_init H0)
    as (groups & Hc & Hd & Hne & Hsm & Hsz & Hb).
  simpl in Hd. unfold chunk_text, chunk_finish.
  set (st := foldl (chunk_step max_chars) chunk_init (splitlines text)) in *.
  destruct (buf st) as [|l b] eqn:Hbuf.
  - exists groups. simpl. rewrite app_nil_r in Hd. done.
  - exists (groups ++ [l :: b]). simpl. repeat split.
    + rewrite map_app, Hc. reflexivity.
    + rewrite concat_app. simpl. rewrite app_nil_r. done.
    + apply Forall_app. split; [done|]. by apply Forall_singleton.
    + apply Forall_app. split; [done|]. apply Forall_singleton.
      destruct Hb as [Hb|Hb].
      * left. destruct b; simpl in *; [done|lia].
      * right. pose proof (join_length (l :: b)) as Hj. rewrite <- Hsz in Hj.
        specialize (Hj ltac:(done)). lia.
Qed.

(** C2, as the code has it. [chunk_text] cuts between lines only: its
    chunks are the joins of consecutive, non-empty groups of whole lines
    that together are the lines of the text, in order, so that joining the
    chunks by newlines gives what joining the lines gives: the text itself
    when its lines are separated by newlines and none ends it. A chunk of two
    or more lines is shorter than the cap; a chunk of one line is that line
    whatever its length. So no chunk exceeds the cap when no line does. *)
Theorem chunk_text_whole_lines (text : str) (max_chars : nat) :
  (exists groups : list (list str),
     chunk_text text max_chars = map (join NL) groups /\
     concat groups = splitlines text /\
     Forall (fun g => g <> []) groups /\
     Forall (fun g => length g = 1%nat \/ (length (join NL g) < max_chars)%nat) groups) /\
  join NL (chunk_text text max_chars) = join NL (splitlines text) /\
  (join NL (splitlines text) = text -> join NL (chunk_text text max_chars) = text) /\
  (Forall (fun line => (length line <= max_chars)%nat) (splitlines text) ->
   Forall (fun chunk => (length chunk <= max_chars)%nat) (chunk_text text max_chars)).
Proof.
  destruct (chunk_text_groups text max_chars) as (groups & Hc & Hd & Hne & Hsm).
  assert (Hjoin : join NL (chunk_text text max_chars) = join NL (splitlines text))
    by (rewrite Hc, join_concat by done; by rewrite Hd).
  split; [by exists groups|]. split; [exact Hjoin|]. split.
  - intros Ht. by rewrite Hjoin.
  - intros Hlines. rewrite Hc. apply Forall_map.
    rewrite <- Hd in Hlines. clear Hc Hd Hne.
    induction Hsm as [|g gs Hg Hgs IH]; [constructor|].
    simpl in Hlines. apply Forall_app in Hlines as [Hl1 Hl2].
    constructor; [|by apply IH].
    destruct Hg as [Hone|Hshort]; [|simpl; lia].
    destruct g as [|l [|? ?]]; simpl in *; try done.
    exact (Forall_inv Hl1).
Qed.

(** C2, as the spec words it, fails: a line of 1801 characters comes back
    as one chunk of 1801 characters under the cap of 1800. *)
Lemma chunk_text_long_line_exceeds_cap :
  chunk_text long_line 1800 = [long_line] /\ length long_line = 1801%nat.
Proof. vm_compute. split; reflexivity. Qed.

End Chunking.

(** ** The knowledge base, over repeated runs *)

Module KnowledgeBaseRuns.

Import Str StrFacts Batch Learn KnowledgeBase.

(** *** Counting markers *)

(** A prefix of [x ++ y] is a prefix of [x] or runs over the end of [x]. *)
Lemma startswith_app_split (m x y : str) :
  startswith m (x ++ y) = true ->
  startswith m x = true \/
  exists m2, m = x ++ m2 /\ m2 <> [] /\ startswith m2 y = true.
Proof.
  revert x. induction m as [|a m IH]; intros x H; [by left|].
  destruct x as [|b x].
  - right. exists (a :: m). done.
  - simpl in H. apply andb_true_iff in H as [Hab Hm].
    apply N.eqb_eq in Hab as ->.
    destruct (IH x Hm) as [Hl|(m2 & -> & Hne & Hs)].
    + left. simpl. by rewrite N.eqb_refl.
    + right. exists m2. done.
Qed.

Lemma startswith_head (a : char) (m s : str) :
  a ∉ s -> startswith (a :: m) s = false.
Proof.
  destruct s as [|b s]; [done|]. intros Hn. simpl.
  apply not_elem_of_cons in Hn as [Hab _].
  destruct (N.eqb_spec a b); [done|reflexivity].
Qed.

Lemma find_cons (m : str) (c : char) (s : str) :
  find m (c :: s) = if startswith m (c :: s) then Some O else S <$> find m s.
Proof. reflexivity. Qed.

Lemma contains_cons_false (m : str) (c : char) (s : str) :
  contains m (c :: s) = false ->
  startswith m (c :: s) = false /\ contains m s = false.
Proof.
  unfold contains. rewrite find_cons.
  destruct (startswith m (c :: s)); [done|].
  destruct (find m s); [done|]. done.
Qed.

Lemma contains_head_absent (a : char) (m s : str) :
  a ∉ s -> contains (a :: m) s = false.
Proof.
  induction s as [|b s IH]; intros Hn; [reflexivity|].
  unfold contains. rewrite find_cons, startswith_head by done.
  apply not_elem_of_cons in Hn as [_ Hn]. specialize (IH Hn).
  unfold contains in IH. destruct (find (a :: m) s); done.
Qed.

Lemma contains_app_r (m x y : str) :
  startswith m y = true -> contains m (x ++ y) = true.
Proof.
  intros Hy. induction x as [|c x IH].
  - unfold contains. destruct y as [|d y].
    + destruct m; [reflexivity|done].
    + simpl app. rewrite find_cons. by rewrite Hy.
  - unfold contains in *. simpl app. rewrite find_cons.
    destruct (startswith m (c :: x ++ y)); [done|].
    destruct (find m (x ++ y)); done.
Qed.

Lemma occurrences_head_absent (a : char) (m s : str) :
  a ∉ s -> occurrences (a :: m) s = O.
Proof.
  induction s as [|b s IH]; intros Hn; [reflexivity|].
  change (occurrences (a :: m) (b :: s))
    with ((if startswith (a :: m) (b :: s) then 1 else 0)
          + occurrences (a :: m) s)%nat.
  rewrite startswith_head by done.
  apply not_elem_of_cons in Hn as [_ Hn]. by rewrite IH.
Qed.

(** Appending a text that starts with the marker, and holds its first
    character nowhere else, to a text without the marker leaves exactly
    one marker. *)
Lemma occurrences_after_append (a : char) (m existing rest : str) :
  a ∉ m -> a ∉ rest ->
  contains (a :: m) existing = false ->
  occurrences (a :: m) (existing ++ (a :: m) ++ rest) = 1%nat.
Proof.
  intros Hm Hrest. induction existing as [|c e IH]; intros Hex.
  - change (occurrences (a :: m) ([] ++ (a :: m) ++ rest))
      with ((if startswith (a :: m) ((a :: m) ++ rest) then 1 else 0)
            + occurrences (a :: m) (m ++ rest))%nat.
    rewrite startswith_app_self, occurrences_head_absent; [done|].
    by apply not_elem_of_app.
  - apply contains_cons_false in Hex as [Hhere Hlater].
    change (occurrences (a :: m) ((c :: e) ++ (a :: m) ++ rest))
      with ((if startswith (a :: m) ((c :: e) ++ (a :: m) ++ rest) then 1 else 0)
            + occurrences (a :: m) (e ++ (a :: m) ++ rest))%nat.
    rewrite IH by done.
    destruct (startswith (a :: m) ((c :: e) ++ (a :: m) ++ rest)) eqn:Hs; [|done].
    exfalso. apply startswith_app_split in Hs as [Hs|(m2 & Heq & Hne & Hs2)].
    + congruence.
    + destruct m2 as [|b m2]; [done|].
      simpl in Hs2. apply andb_true_iff in Hs2 as [Hb _].
      apply N.eqb_eq in Hb as ->.
      injection Heq as -> ->. apply Hm.
      apply elem_of_app. right. by left.
Qed.

Lemma not_in_join (c : char) (sep : str) (ls : list str) :
  c ∉ sep -> Forall (fun l : str => c ∉ l) ls -> c ∉ join sep ls.
Proof.
  intros Hsep. induction 1 as [|l ls Hl Hls IH]; [by apply not_elem_of_nil|].
  destruct ls as [|l' ls]; [done|].
  change (join sep (l :: l' :: ls)) with (l ++ sep ++ join sep (l' :: ls)).
  rewrite !not_elem_of_app. done.
Qed.

Lemma not_in_literal_app (lit s : str) :
  bool_decide (60 ∉ lit) = true -> 60 ∉ s -> 60 ∉ lit ++ s.
Proof.
  intros Hl%bool_decide_eq_true Hs. by apply not_elem_of_app.
Qed.

(** The entry starts with the marker, and "<" stands nowhere else in it
    when it stands in none of the fields. *)
Lemma kb_entry_shape (data : capture) (points : list str) (learned_path : str) :
  plain_entry data points learned_path ->
  exists m rest,
    marker_of (default [] (target_status_id data)) = 60 :: m /\
    kb_entry data points learned_path = (60 :: m) ++ rest /\
    (60 ∉ m) /\ (60 ∉ rest).
Proof.
  intros (Hsid & Hurl & Hauthor & Hpath & Hpoints).
  set (sid := default [] (target_status_id data)) in *.
  set (tail := tl (kb_lines data points learned_path)).
  assert (Htail : tail =
            [ py "## " ++ sid;
              py "- source_url: " ++ default [] (url data);
              py "- author: " ++ default [] (main_author data);
              py "- learned_note: " ++ learned_path ]
            ++ (match points with
                | [] => []
                | _ => py "- top_points:" :: map (fun p => py "  - " ++ p) (take 5 points)
                end)
            ++ [[]]) by reflexivity.
  exists (py "!-- status_id:" ++ sid ++ py " -->"), (NL ++ join NL tail ++ NL).
  split; [reflexivity|]. split.
  { unfold kb_entry.
    change (kb_lines data points learned_path) with (marker_of sid :: tail).
    rewrite Chunking.join_cons by (rewrite Htail; done).
    rewrite <- !app_assoc. reflexivity. }
  split.
  { apply not_in_literal_app; [by vm_compute|].
    apply not_elem_of_app. split; [done|]. vm_compute.
    intros H. repeat (apply elem_of_cons in H as [H|H]; [discriminate|]).
    by apply not_elem_of_nil in H. }
  assert (Hnl : (60 : char) ∉ NL).
  { intros H. apply list_elem_of_singleton in H. discriminate. }
  apply not_elem_of_app. split; [done|].
  apply not_elem_of_app. split; [|done].
  apply not_in_join; [done|]. rewrite Htail.
  apply Forall_app. split.
  - repeat apply Forall_cons_2; try apply Forall_nil_2;
      apply not_in_literal_app; by vm_compute || done.
  - apply Forall_app. split; [|apply Forall_singleton; by apply not_elem_of_nil].
    destruct points as [|p ps]; [constructor|].
    apply Forall_cons_2.
    + vm_compute. intros H.
      repeat (apply elem_of_cons in H as [H|H]; [discriminate|]).
      by apply not_elem_of_nil in H.
    + apply Forall_map. eapply Forall_impl; [exact Hpoints|].
      intros p' Hp'. cbv beta in *. apply not_in_literal_app; by vm_compute || done.
Qed.

Lemma write_text_lookup (fs : gmap str str) (path s : str) :
  write_text fs path s !! path = Some s.
Proof. apply lookup_insert_eq. Qed.

Lemma append_text_lookup (fs : gmap str str) (path s : str) :
  append_text fs path s !! path = Some (default [] (fs !! path) ++ s).
Proof. apply lookup_insert_eq. Qed.

(** The first call of a run on a knowledge base without the marker. *)
Lemma append_kb_first
    (fs : gmap str str) (kb_path : str) (data : capture)
    (points : list str) (learned_path : str) :
  plain_entry data points learned_path ->
  (forall existing, fs !! kb_path = Some existing ->
     contains (marker_of (default [] (target_status_id data))) existing = false) ->
  exists fs' content,
    _append_kb fs kb_path data points learned_path = (true, fs') /\
    fs' !! kb_path = Some content /\
    contains (marker_of (default [] (target_status_id data))) content = true /\
    occurrences (marker_of (default [] (target_status_id data))) content = 1%nat.
Proof.
  intros Hplain Hfresh.
  destruct (kb_entry_shape data points learned_path Hplain)
    as (m & rest & Hmk & Hentry & Hm & Hrest).
  unfold _append_kb. rewrite Hmk in *.
  destruct (fs !! kb_path) as [existing|] eqn:Hf.
  - rewrite (Hfresh existing eq_refl).
    eexists _, (existing ++ kb_entry data points learned_path).
    split; [reflexivity|]. rewrite append_text_lookup, Hf.
    split; [reflexivity|]. rewrite Hentry. split.
    + apply contains_app_r, startswith_app_self.
    + apply occurrences_after_append; try done; by apply Hfresh.
  - set (header := py "# X Lessons KB" ++ NL ++ NL).
    eexists _, (header ++ kb_entry data points learned_path).
    split; [reflexivity|]. rewrite append_text_lookup, write_text_lookup.
    split; [reflexivity|]. rewrite Hentry. split.
    + apply contains_app_r, startswith_app_self.
    + apply occurrences_after_append; done.
Qed.

(** Every later call with the same status id finds the marker. *)
Lemma append_all_marked
    (kb_path sid : str) (calls : list (capture * list str * str)) :
  forall (fs : gmap str str) (content : str),
  fs !! kb_path = Some content ->
  contains (marker_of sid) content = true ->
  Forall (fun c => default [] (target_status_id c.1.1) = sid) calls ->
  append_all fs kb_path calls = (replicate (length calls) false, fs).
Proof.
  induction calls as [|[[data points] lp] calls IH]; intros fs content Hf Hm Hall;
    [reflexivity|].
  apply Forall_cons in Hall as [Hsid Hall]. simpl in Hsid. simpl.
  rewrite (append_kb_marked fs kb_path data points lp content Hf) by (by rewrite Hsid).
  rewrite (IH fs content Hf Hm Hall). reflexivity.
Qed.




End KnowledgeBaseRuns.

(** ** The round trip of the queue file *)

Module RoundTrip.

Import Str StrFacts PyInt PyIntFacts Queue.

Lemma plain_field_spec (s : str) :
  plain_field s = true -> one_line s = true /\ strip s = s.
Proof.
  unfold plain_field. intros [H1 H2]%andb_true_iff. by apply eqb_eq in H2.
Qed.

Lemma split_ws_item_prefix (rest : str) :
  split_ws (py "## Item " ++ rest) = py "##" :: py "Item" :: split_ws_from [] rest.
Proof. reflexivity. Qed.

Lemma marker_id_rendered (it : QueueItem) :
  marker_id (marker_line it) = Ok (item_id it).
Proof.
  unfold marker_id, marker_line. rewrite split_ws_item_prefix.
  change (py " [" ++ status it ++ py "]") with (32 :: (91 :: status it ++ py "]")).
  rewrite (split_ws_token [] (format_03d (item_id it))).
  - change ((py "##" :: py "Item" :: ([] ++ format_03d (item_id it)) :: ?r) !! 2%nat)
      with (Some (format_03d (item_id it))).
    cbv iota beta. by rewrite int_format_03d.
  - apply sign_or_digit_no_space, format_03d_chars.
  - apply format_03d_not_empty.
Qed.

Lemma marker_line_starts (it : QueueItem) :
  startswith (py "## Item ") (marker_line it) = true.
Proof. apply startswith_app_self. Qed.

Lemma not_elem_of_literal (c : char) (lit : str) :
  forallb (fun d => negb (d =? c)) lit = true -> c ∉ lit.
Proof.
  intros H Hin%list_elem_of_In.
  pose proof (proj1 (forallb_forall _ _) H c Hin) as Hc.
  cbv beta in Hc. by rewrite N.eqb_refl in Hc.
Qed.

Lemma marker_status_rendered (it : QueueItem) :
  plain_status (status it) = true -> marker_status (marker_line it) = status it.
Proof.
  unfold plain_status. intros [Hf Hb]%andb_true_iff.
  apply plain_field_spec in Hf as [_ Hstrip].
  assert (H93 : 93 ∉ status it).
  { intros Hin%list_elem_of_In. apply negb_true_iff in Hb.
    assert (existsb (N.eqb 93) (status it) = true); [|congruence].
    apply existsb_exists. exists 93. by rewrite N.eqb_refl. }
  destruct (sign_or_digit_no_bracket _ (format_03d_chars (item_id it))) as [F91 F93].
  replace (marker_line it)
    with ((py "## Item " ++ format_03d (item_id it) ++ [32]) ++ [91] ++ status it ++ [93] ++ []).
  2:{ unfold marker_line. rewrite <- !app_assoc. reflexivity. }
  rewrite QueueMarker.marker_status_between; [done|..|done].
  - rewrite !not_elem_of_app. split; [|split; [done|]];
      apply not_elem_of_literal; by vm_compute.
  - rewrite !not_elem_of_app. split; [|split; [done|]];
      apply not_elem_of_literal; by vm_compute.
Qed.

Lemma step_marker (st : pstate) (it : QueueItem) :
  plain_status (status it) = true ->
  step st (marker_line it)
  = Ok {| header_lines := header_lines st; items := flush_current st;
          current := Some (opened (item_id it) (status it)); in_text := false |}.
Proof.
  intros H. unfold step.
  rewrite marker_line_starts, marker_id_rendered, marker_status_rendered by done.
  reflexivity.
Qed.

Lemma step_text_line (st : pstate) (cur : QueueItem) :
  current st = Some cur ->
  step st (py "text:")
  = Ok {| header_lines := header_lines st; items := items st;
          current := Some (set_text cur []); in_text := true |}.
Proof. intros H. unfold step. rewrite H. reflexivity. Qed.

Lemma step_body_line (st : pstate) (cur : QueueItem) (line : str) :
  current st = Some cur -> in_text st = true -> body_line line = true ->
  step st line
  = Ok {| header_lines := header_lines st; items := items st;
          current := Some (set_text cur (add_line (text cur) line));
          in_text := true |}.
Proof.
  intros Hc Hi [Hm Ht]%andb_true_iff.
  apply negb_true_iff in Hm, Ht. unfold step. rewrite Hm, Hc, Ht, Hi. reflexivity.
Qed.

Lemma step_header_line (st : pstate) (line : str) :
  current st = None -> startswith (py "## Item ") line = false ->
  step st line
  = Ok {| header_lines := header_lines st ++ [line]; items := items st;
          current := None; in_text := in_text st |}.
Proof. intros Hc Hm. unfold step. rewrite Hm, Hc. reflexivity. Qed.

Lemma step_field_line (st : pstate) (cur : QueueItem) (key v : str) :
  current st = Some cur -> in_text st = false ->
  key = py "type" \/ key = py "lang" \/ key = py "source" \/ key = py "note" ->
  plain_field v = true ->
  step st (key ++ py ": " ++ v)
  = Ok {| header_lines := header_lines st; items := items st;
          current := Some (set_field cur key v); in_text := false |}.
Proof.
  intros Hc Hi Hk [_ Hs]%plain_field_spec.
  assert (Hm : startswith (py "## Item ") (key ++ py ": " ++ v) = false)
    by (destruct Hk as [-> | [-> | [-> | ->]]]; reflexivity).
  assert (Ht : startswith (py "text:") (key ++ py ": " ++ v) = false)
    by (destruct Hk as [-> | [-> | [-> | ->]]]; reflexivity).
  assert (Hsplit : split_once 58 (key ++ py ": " ++ v) = Some (key, 32 :: v))
    by (destruct Hk as [-> | [-> | [-> | ->]]]; reflexivity).
  assert (Hkey : strip key = key)
    by (destruct Hk as [-> | [-> | [-> | ->]]]; vm_compute; reflexivity).
  unfold step. rewrite Hm, Hc, Ht, Hi, Hsplit, Hkey, strip_blank_first, Hs.
  reflexivity.
Qed.

Lemma loop_app (a b : list str) :
  forall st, loop st (a ++ b) = (st' ← loop st a; loop st' b).
Proof.
  induction a as [|l a IH]; intros st; [reflexivity|].
  simpl. destruct (step st l) as [st1|e]; simpl; [apply IH|reflexivity].
Qed.

Lemma loop_header (h : list str) :
  forall st, current st = None -> forallb header_line h = true ->
  loop st h = Ok {| header_lines := header_lines st ++ h; items := items st;
                    current := None; in_text := in_text st |}.
Proof.
  induction h as [|l h IH]; intros st Hc Hh.
  - simpl. rewrite app_nil_r. destruct st; simpl in *; by subst.
  - simpl in Hh. apply andb_true_iff in Hh as [[_ Hl]%andb_true_iff Hh].
    apply negb_true_iff in Hl. simpl. rewrite step_header_line by done. simpl.
    rewrite IH by done. simpl. by rewrite <- app_assoc.
Qed.

Lemma loop_body (lines : list str) :
  forall (st : pstate) (cur : QueueItem),
  current st = Some cur -> in_text st = true ->
  forallb body_line lines = true ->
  loop st lines
  = Ok {| header_lines := header_lines st; items := items st;
          current := Some (set_text cur (foldl add_line (text cur) lines));
          in_text := true |}.
Proof.
  induction lines as [|l lines IH]; intros st cur Hc Hi Hb.
  - simpl. destruct st, cur; simpl in *; by subst.
  - simpl in Hb. apply andb_true_iff in Hb as [Hl Hb].
    simpl. rewrite (step_body_line st cur l) by done. simpl.
    rewrite (IH _ (set_text cur (add_line (text cur) l))) by done. reflexivity.
Qed.

(** The marker, the four fields and "text:": whatever the state before, the
    item is open afterwards with its fields set and an empty body. *)
Lemma loop_block_head (st : pstate) (it : QueueItem) :
  plain_item it = true ->
  loop st [ marker_line it; py "type: " ++ type it; py "lang: " ++ lang it;
            py "source: " ++ source it; py "note: " ++ note it; py "text:" ]
  = Ok {| header_lines := header_lines st; items := flush_current st;
          current := Some (set_text it []); in_text := true |}.
Proof.
  unfold plain_item. rewrite !andb_true_iff.
  intros (((((Hst & Hty) & Hla) & Hso) & Hno) & _).
  cbn [loop]. rewrite step_marker by done. cbn [mbind result_bind].
  change (py "type: " ++ type it) with (py "type" ++ py ": " ++ type it).
  erewrite step_field_line; [|reflexivity|reflexivity|by left|done].
  cbn [mbind result_bind].
  change (py "lang: " ++ lang it) with (py "lang" ++ py ": " ++ lang it).
  erewrite step_field_line; [|reflexivity|reflexivity|by right; left|done].
  cbn [mbind result_bind].
  change (py "source: " ++ source it) with (py "source" ++ py ": " ++ source it).
  erewrite step_field_line; [|reflexivity|reflexivity|by right; right; left|done].
  cbn [mbind result_bind].
  change (py "note: " ++ note it) with (py "note" ++ py ": " ++ note it).
  erewrite step_field_line; [|reflexivity|reflexivity|by right; right; right|done].
  cbn [mbind result_bind].
  erewrite step_text_line; [|reflexivity].
  cbn [mbind result_bind header_lines items]. f_equal.
Qed.

Lemma foldl_add_line (lines : list str) :
  forall t : str, t <> [] -> foldl add_line t lines = join NL (t :: lines).
Proof.
  induction lines as [|l lines IH]; intros t Ht; [reflexivity|].
  simpl foldl. unfold add_line at 2. destruct t as [|c t]; [done|]. simpl nonempty.
  cbv iota. rewrite IH by done.
  destruct lines as [|l' lines]; [reflexivity|].
  change (join NL (((c :: t) ++ NL ++ l) :: l' :: lines))
    with (((c :: t) ++ NL ++ l) ++ NL ++ join NL (l' :: lines)).
  change (join NL ((c :: t) :: l :: l' :: lines))
    with ((c :: t) ++ NL ++ l ++ NL ++ join NL (l' :: lines)).
  by rewrite <- !app_assoc.
Qed.

Lemma plain_text_spec (t : str) :
  plain_text t = true ->
  join NL (splitlines t) = t /\ forallb body_line (splitlines t) = true /\
  (t = [] \/ exists x ls, x <> [] /\ splitlines t = x :: ls).
Proof.
  unfold plain_text. rewrite !andb_true_iff. intros [[Hj Hb] Hh].
  apply eqb_eq in Hj. split; [done|]. split; [done|].
  destruct (splitlines t) as [|x ls] eqn:Hs.
  - left. by rewrite <- Hj.
  - right. exists x, ls. split; [|done]. by destruct x.
Qed.

(** The body that the loop collects from the body lines of an item, alone
    and with the blank line that separates it from a next item. *)
Lemma body_collected (it : QueueItem) (followed : bool) :
  plain_text (text it) = true ->
  forallb body_line (body_lines it ++ (if followed then [[]] else [])) = true /\
  foldl add_line [] (body_lines it ++ (if followed then [[]] else []))
  = text (closing followed it).
Proof.
  intros (Hj & Hb & Hh)%plain_text_spec. unfold body_lines, closing.
  destruct (text it) as [|c t] eqn:Ht.
  - simpl. rewrite andb_false_r. rewrite Ht. by destruct followed.
  - simpl nonempty. rewrite andb_true_r. split.
    + rewrite forallb_app, Hb. by destruct followed.
    + destruct Hh as [?|(x & ls & Hx & Hs)]; [done|].
      rewrite foldl_app, Hs. simpl foldl at 2.
      change (add_line [] x) with x. rewrite (foldl_add_line ls x) by done.
      rewrite <- Hs, Hj.
      destruct followed; simpl; [|by rewrite Ht].
      reflexivity.
Qed.

Lemma loop_unit (st : pstate) (it : QueueItem) (followed : bool) :
  plain_item it = true ->
  loop st (block it ++ (if followed then [[]] else []))
  = Ok {| header_lines := header_lines st; items := flush_current st;
          current := Some (closing followed it); in_text := true |}.
Proof.
  intros Hp. unfold block. rewrite <- app_assoc, loop_app, loop_block_head by done.
  cbn [mbind result_bind].
  assert (Ht : plain_text (text it) = true).
  { unfold plain_item in Hp. by apply andb_true_iff in Hp as [_ Hp]. }
  destruct (body_collected it followed Ht) as [Hb Hf].
  erewrite loop_body; [|reflexivity|reflexivity|exact Hb].
  cbn [header_lines items text set_text]. rewrite Hf.
  f_equal. f_equal. f_equal.
  unfold closing. destruct (followed && nonempty (text it)); destruct it; reflexivity.
Qed.

Lemma concat_render_items (its : list QueueItem) :
  its <> [] -> concat (map render_item its) = [] :: units its.
Proof.
  induction its as [|it rest IH]; intros Hne; [done|].
  destruct rest as [|it' rest].
  - simpl. by rewrite !app_nil_r.
  - change (concat (map render_item (it :: it' :: rest)))
      with (([] :: block it) ++ concat (map render_item (it' :: rest))).
    rewrite IH by done. reflexivity.
Qed.

Lemma loop_units (its : list QueueItem) :
  forall st, forallb plain_item its = true ->
  exists st',
    loop st (units its) = Ok st' /\
    header_lines st' = header_lines st /\
    flush_current st' = flush_current st ++ absorbed its.
Proof.
  induction its as [|it rest IH]; intros st Hall.
  - exists st. simpl. by rewrite app_nil_r.
  - simpl in Hall. apply andb_true_iff in Hall as [Hit Hrest].
    set (followed := match rest with [] => false | _ => true end).
    change (units (it :: rest))
      with (block it ++ (match rest with [] => [] | _ => [[]] end) ++ units rest).
    assert (Hsep : (match rest with [] => [] | _ => [[]] end)
                   = (if followed then [[]] else []) :> list str)
      by (by destruct rest).
    rewrite Hsep, app_assoc, loop_app, loop_unit by done.
    cbn [mbind result_bind].
    destruct (IH {| header_lines := header_lines st; items := flush_current st;
                    current := Some (closing followed it); in_text := true |} Hrest)
      as (st' & Hl & Hh & Hf).
    exists st'. split; [done|]. split; [done|].
    rewrite Hf. unfold flush_current at 1. simpl. by rewrite <- app_assoc.
Qed.

Lemma one_line_app (a b : str) :
  one_line a = true -> one_line b = true -> one_line (a ++ b) = true.
Proof. intros Ha Hb. unfold one_line in *. by rewrite forallb_app, Ha, Hb. Qed.

Lemma render_item_one_line (it : QueueItem) :
  plain_item it = true -> forallb one_line (render_item it) = true.
Proof.
  unfold plain_item, plain_status. rewrite !andb_true_iff.
  intros ((((([Hst _] & Hty) & Hla) & Hso) & Hno) & _).
  apply plain_field_spec in Hst as [Hst _], Hty as [Hty _], Hla as [Hla _],
    Hso as [Hso _], Hno as [Hno _].
  assert (Hm : one_line (marker_line it) = true).
  { unfold marker_line. repeat apply one_line_app; try done.
    apply sign_or_digit_one_line, format_03d_chars. }
  assert (H1 : one_line (py "type: " ++ type it) = true) by (by apply one_line_app).
  assert (H2 : one_line (py "lang: " ++ lang it) = true) by (by apply one_line_app).
  assert (H3 : one_line (py "source: " ++ source it) = true) by (by apply one_line_app).
  assert (H4 : one_line (py "note: " ++ note it) = true) by (by apply one_line_app).
  assert (Hb : forallb one_line (body_lines it) = true).
  { unfold body_lines. destruct (nonempty (text it)); [|done].
    apply splitlines_one_line. }
  unfold render_item, block. cbn [forallb app].
  rewrite Hm, H1, H2, H3, H4, Hb. reflexivity.
Qed.

Lemma render_lines_one_line (h : list str) (its : list QueueItem) :
  forallb header_line h = true -> forallb plain_item its = true ->
  forallb one_line (h ++ concat (map render_item its)) = true.
Proof.
  intros Hh Hits. rewrite forallb_app. apply andb_true_iff. split.
  - clear Hits. induction h as [|l h IH]; [done|]. simpl in *.
    apply andb_true_iff in Hh as [[Hl _]%andb_true_iff Hh]. by rewrite Hl, IH.
  - clear Hh. induction its as [|it its IH]; [done|]. simpl in Hits.
    apply andb_true_iff in Hits as [Hit Hits].
    change (concat (map render_item (it :: its)))
      with (render_item it ++ concat (map render_item its)).
    by rewrite forallb_app, render_item_one_line, IH.
Qed.

(** What parsing a rendered queue returns, to the letter: the header with
    the blank line that precedes the first item, and the items with the
    blank line before each next marker taken into a non-empty body. *)
Lemma parse_render_exact (h : list str) (its : list QueueItem) :
  plain_header h = true -> forallb plain_item its = true ->
  parse_queue_md (render_queue_md h its)
  = Ok (h ++ (match its with [] => [] | _ => [[]] end), absorbed its).
Proof.
  intros Hh Hits. unfold plain_header in Hh.
  destruct h as [|l0 h0] eqn:Heq; [done|]. rewrite <- Heq in *.
  assert (Hne : h <> []) by (by subst).
  unfold parse_queue_md, render_queue_md, render_lines.
  replace (match h with [] => [py "# X Queue"] | _ => h end) with h by (by subst).
  rewrite app_assoc, splitlines_join.
  2:{ destruct h; done. }
  2:{ by apply render_lines_one_line. }
  rewrite loop_app, loop_header by done. cbn [mbind result_bind].
  destruct its as [|it rest].
  - simpl. by rewrite app_nil_r.
  - rewrite concat_render_items by done.
    change (loop ?st ([] :: ?r)) with (st' ← step st []; loop st' r).
    rewrite step_header_line by done. cbn [mbind result_bind].
    destruct (loop_units (it :: rest)
                {| header_lines := (header_lines init ++ h) ++ [[]];
                   items := items init; current := None; in_text := in_text init |}
                Hits) as (st' & Hl & Hhd & Hf).
    cbn [header_lines items current in_text init] in *.
    rewrite Hl. cbn [mbind result_bind]. rewrite Hhd, Hf. reflexivity.
Qed.

Lemma absorbed_same_fields (its : list QueueItem) :
  Forall2 same_fields its (absorbed its).
Proof.
  induction its as [|it rest IH]; [constructor|].
  simpl. constructor; [|done]. unfold closing, same_fields.
  destruct (_ && _); simpl; repeat split; try done.
  by apply prefix_app_r.
Qed.

Lemma absorbed_last (its : list QueueItem) : last (absorbed its) = last its.
Proof.
  induction its as [|it rest IH]; [done|].
  destruct rest as [|it' rest]; [reflexivity|].
  change (absorbed (it :: it' :: rest)) with (closing true it :: absorbed (it' :: rest)).
  rewrite !last_cons_cons. exact IH.
Qed.




End RoundTrip.

(** ** What a parse returns *)

Module ParseFacts.

Import Str StrFacts Queue QueueView.

Lemma step_well_formed (st : pstate) (line : str) :
  ~ malformed line -> exists st', step st line = Ok st'.
Proof.
  intros Hn. unfold step.
  destruct (startswith (py "## Item ") line) eqn:Hm.
  - unfold marker_id.
    destruct (split_ws line !! 2%nat) as [tok|] eqn:Htok.
    + destruct (PyInt.int tok) as [n|] eqn:Hint; simpl; [eauto|].
      exfalso. apply Hn. split; [done|]. by rewrite Htok.
    + exfalso. apply Hn. split; [done|]. by rewrite Htok.
  - destruct (current st) as [cur|]; [|eauto].
    destruct (startswith (py "text:") line); [eauto|].
    destruct (in_text st); [eauto|].
    destruct (split_once 58 line) as [[k v]|]; eauto.
Qed.

Lemma loop_well_formed (lines : list str) :
  forall st, ~ Exists malformed lines -> exists st', loop st lines = Ok st'.
Proof.
  induction lines as [|l lines IH]; intros st Hn; [simpl; eauto|].
  destruct (step_well_formed st l) as [st1 Hs].
  { intros Hl. apply Hn. by constructor. }
  simpl. rewrite Hs. simpl. apply IH. intros Hl. apply Hn. by constructor.
Qed.

Lemma parse_well_formed (content : str) :
  ~ Exists malformed (splitlines content) ->
  exists h its, parse_queue_md content = Ok (h, its).
Proof.
  unfold parse_queue_md. intros Hn. destruct (loop_well_formed _ init Hn) as [st Hs].
  rewrite Hs. simpl. eauto.
Qed.


Lemma step_says (st st' : pstate) (line : str) :
  step st line = Ok st' ->
  map item_says (flush_current st')
  = map item_says (flush_current st)
    ++ (if is_marker line then [marker_says line] else []).
Proof.
  unfold step, is_marker. intros Hs.
  destruct (startswith (py "## Item ") line).
  { unfold marker_says. destruct (marker_id line) as [n|e]; simpl in Hs; [|discriminate].
    injection Hs as <-. unfold flush_current at 1. simpl. by rewrite map_app. }
  rewrite app_nil_r. unfold flush_current in *.
  destruct (current st) as [cur|] eqn:Hc.
  2:{ by injection Hs as <-. }
  assert (Hgen : forall cur', same_marker cur cur' ->
            map item_says (items st ++ [cur']) = map item_says (items st ++ [cur])).
  { intros cur' [Hi Hst]. rewrite !map_app. simpl. unfold item_says. by rewrite Hi, Hst. }
  destruct (startswith (py "text:") line).
  { injection Hs as <-. simpl. apply Hgen. by split. }
  destruct (in_text st).
  { injection Hs as <-. simpl. apply Hgen. by split. }
  destruct (split_once 58 line) as [[k v]|].
  { injection Hs as <-. simpl. apply Hgen, QueueMarker.set_field_same_marker. }
  injection Hs as <-. by rewrite Hc.
Qed.

Lemma loop_says (lines : list str) :
  forall st st', loop st lines = Ok st' ->
  map item_says (flush_current st')
  = map item_says (flush_current st) ++ map marker_says (marker_lines lines).
Proof.
  induction lines as [|l lines IH]; intros st st' Hl; simpl in Hl.
  - injection Hl as <-. simpl. by rewrite app_nil_r.
  - destruct (step st l) as [st1|e] eqn:Hs; simpl in Hl; [|discriminate].
    rewrite (IH _ _ Hl), (step_says _ _ _ Hs), <- app_assoc. f_equal.
    unfold marker_lines. simpl. by destruct (is_marker l).
Qed.

Lemma parse_says (content : str) (h : list str) (its : list QueueItem) :
  parse_queue_md content = Ok (h, its) ->
  map item_says its = map marker_says (marker_lines (splitlines content)).
Proof.
  unfold parse_queue_md. intros Hp.
  destruct (loop init (splitlines content)) as [st|e] eqn:Hl; simpl in Hp; [|discriminate].
  injection Hp as <- <-. pose proof (loop_says _ _ _ Hl) as Hs. simpl in Hs. done.
Qed.

(** A parse that succeeds returns one item per marker line, in the order of
    the file, each with the integer and the status of its marker line;
    nothing between the markers adds, drops or reorders an item. *)
Theorem parse_items_follow_markers (content : str) (h : list str) (its : list QueueItem) :
  parse_queue_md content = Ok (h, its) ->
  map item_says its = map marker_says (marker_lines (splitlines content)) /\
  length its = length (marker_lines (splitlines content)).
Proof.
  intros Hp. pose proof (parse_says _ _ _ Hp) as Hs.
  split; [done|]. apply (f_equal length) in Hs. by rewrite !length_map in Hs.
Qed.

Lemma parse_items_follow_markers_witness :
  exists h its,
    parse_queue_md (py "# head" ++ NL ++ py "## Item 002 [posted]" ++ NL
                    ++ py "text:" ++ NL ++ py "b" ++ NL ++ py "## Item 010") = Ok (h, its) /\
    map item_says its = [(Ok 2%Z, py "posted"); (Ok 10%Z, py "pending")].
Proof.
  eexists _, _. split; [vm_compute; reflexivity|].
  match goal with |- map item_says ?its = _ =>
    pose proof (parse_items_follow_markers
      (py "# head" ++ NL ++ py "## Item 002 [posted]" ++ NL
       ++ py "text:" ++ NL ++ py "b" ++ NL ++ py "## Item 010")
      [py "# head"] its) as H
  end.
  destruct H as [H _]; [vm_compute; reflexivity|].
  rewrite H. vm_compute. reflexivity.
Defined.

Lemma step_keeps_open (st st' : pstate) (line : str) :
  step st line = Ok st' -> current st <> None ->
  current st' <> None /\ header_lines st' = header_lines st.
Proof.
  unfold step. intros Hs Hc.
  destruct (startswith (py "## Item ") line).
  { destruct (marker_id line); simpl in Hs; [|discriminate]. by injection Hs as <-. }
  destruct (current st) as [cur|] eqn:Hcur; [|done].
  destruct (startswith (py "text:") line); [by injection Hs as <-|].
  destruct (in_text st); [by injection Hs as <-|].
  destruct (split_once 58 line) as [[k v]|]; injection Hs as <-; [done|].
  by rewrite Hcur.
Qed.

Lemma loop_keeps_header (lines : list str) :
  forall st st', loop st lines = Ok st' -> current st <> None ->
  header_lines st' = header_lines st.
Proof.
  induction lines as [|l lines IH]; intros st st' Hl Hc; simpl in Hl.
  - by injection Hl as <-.
  - destruct (step st l) as [st1|e] eqn:Hs; simpl in Hl; [|discriminate].
    destruct (step_keeps_open _ _ _ Hs Hc) as [Hc1 Hh]. rewrite <- Hh. by apply IH.
Qed.

Lemma loop_header_prefix (lines : list str) :
  forall st st', loop st lines = Ok st' -> current st = None ->
  header_lines st' = header_lines st ++ before_first_marker lines.
Proof.
  induction lines as [|l lines IH]; intros st st' Hl Hc; simpl in Hl.
  - injection Hl as <-. simpl. by rewrite app_nil_r.
  - destruct (step st l) as [st1|e] eqn:Hs; simpl in Hl; [|discriminate].
    simpl. unfold is_marker. unfold step in Hs.
    destruct (startswith (py "## Item ") l).
    + destruct (marker_id l); simpl in Hs; [|discriminate]. injection Hs as <-.
      rewrite app_nil_r. by apply (loop_keeps_header _ _ _ Hl).
    + rewrite Hc in Hs. injection Hs as <-.
      rewrite (IH _ _ Hl) by done. simpl. by rewrite <- app_assoc.
Qed.

(** The header that a parse returns is the lines before the first marker
    line, as they are; a line after a marker never reaches the header. *)
Theorem parse_header_is_preamble (content : str) (h : list str) (its : list QueueItem) :
  parse_queue_md content = Ok (h, its) ->
  h = before_first_marker (splitlines content).
Proof.
  unfold parse_queue_md. intros Hp.
  destruct (loop init (splitlines content)) as [st|e] eqn:Hl; simpl in Hp; [|discriminate].
  injection Hp as <- <-. by rewrite (loop_header_prefix _ _ _ Hl).
Qed.

Lemma parse_header_is_preamble_witness :
  parse_queue_md (py "# head" ++ NL ++ NL ++ py "## Item 002 [posted]" ++ NL
                  ++ py "stray") = Ok ([py "# head"; []], [opened 2 (py "posted")]) /\
  [py "# head"; []] = before_first_marker
    (splitlines (py "# head" ++ NL ++ NL ++ py "## Item 002 [posted]" ++ NL ++ py "stray")).
Proof.
  split; [vm_compute; reflexivity|].
  apply (parse_header_is_preamble _ _ [opened 2 (py "posted")]).
  vm_compute. reflexivity.
Defined.

Lemma render_item_markers (it : QueueItem) :
  findable_item it = true ->
  marker_lines (render_item it) = [marker_line it] /\
  forallb one_line (render_item it) = true.
Proof.
  unfold findable_item. rewrite !andb_true_iff.
  intros (((((Hst & Hty) & Hla) & Hso) & Hno) & Hbody).
  assert (Hb : marker_lines (body_lines it) = [] /\
               forallb one_line (body_lines it) = true).
  { unfold body_lines. destruct (nonempty (text it)); [|done]. split.
    - unfold marker_lines. induction (splitlines (text it)) as [|l ls IH]; [done|].
      simpl in *. apply andb_true_iff in Hbody as [Hl Hls].
      apply negb_true_iff in Hl. rewrite Hl. by apply IH.
    - apply splitlines_one_line. }
  destruct Hb as [Hb1 Hb2]. split.
  - unfold render_item, block, marker_lines in *.
    change ([] :: [?m; ?a; ?b; ?c; ?d; ?e] ++ ?r) with ([[]; m; a; b; c; d; e] ++ r).
    rewrite List.filter_app, Hb1, app_nil_r. cbn [List.filter].
    assert (H0 : is_marker [] = false) by reflexivity.
    assert (H1 : is_marker (marker_line it) = true) by apply RoundTrip.marker_line_starts.
    assert (H2 : is_marker (py "type: " ++ type it) = false) by reflexivity.
    assert (H3 : is_marker (py "lang: " ++ lang it) = false) by reflexivity.
    assert (H4 : is_marker (py "source: " ++ source it) = false) by reflexivity.
    assert (H5 : is_marker (py "note: " ++ note it) = false) by reflexivity.
    assert (H6 : is_marker (py "text:") = false) by reflexivity.
    rewrite H0, H1, H2, H3, H4, H5, H6. reflexivity.
  - assert (Hm : one_line (marker_line it) = true).
    { unfold marker_line. repeat apply RoundTrip.one_line_app; try done.
      apply PyIntFacts.sign_or_digit_one_line, PyIntFacts.format_03d_chars. }
    unfold render_item, block. cbn [forallb app].
    rewrite Hm, Hb2, !RoundTrip.one_line_app by done. reflexivity.
Qed.

Lemma render_items_markers (its : list QueueItem) :
  forallb findable_item its = true ->
  marker_lines (concat (map render_item its)) = map marker_line its /\
  forallb one_line (concat (map render_item its)) = true.
Proof.
  induction its as [|it its IH]; intros Hall; [done|].
  simpl in Hall. apply andb_true_iff in Hall as [Hit Hits].
  destruct (render_item_markers it Hit) as [H1 H2].
  destruct (IH Hits) as [H3 H4].
  change (concat (map render_item (it :: its)))
    with (render_item it ++ concat (map render_item its)).
  unfold marker_lines in *. rewrite List.filter_app, forallb_app, H1, H2, H3, H4. done.
Qed.

Lemma header_no_markers (h : list str) :
  forallb header_line h = true ->
  marker_lines h = [] /\ forallb one_line h = true.
Proof.
  induction h as [|l h IH]; intros Hh; [done|].
  simpl in Hh. apply andb_true_iff in Hh as [[Hl Hm]%andb_true_iff Hh].
  destruct (IH Hh) as [H1 H2]. apply negb_true_iff in Hm.
  unfold marker_lines in *. simpl. unfold is_marker at 1. rewrite Hm, Hl. done.
Qed.

Lemma parse_render_says (h : list str) (its : list QueueItem) :
  forallb header_line h = true -> forallb findable_item its = true ->
  exists h' its',
    parse_queue_md (render_queue_md h its) = Ok (h', its') /\
    map item_says its' = map marker_says (map marker_line its).
Proof.
  intros Hh Hits.
  set (hd := match h with [] => [py "# X Queue"] | _ => h end).
  assert (Hhd : forallb header_line hd = true) by (subst hd; by destruct h).
  destruct (header_no_markers hd Hhd) as [Hm1 Ho1].
  destruct (render_items_markers its Hits) as [Hm2 Ho2].
  assert (Hlines : splitlines (render_queue_md h its) = hd ++ concat (map render_item its)).
  { unfold render_queue_md, render_lines. fold hd. rewrite app_assoc.
    apply splitlines_join.
    - subst hd. by destruct h.
    - by rewrite forallb_app, Ho1, Ho2. }
  assert (Hmarkers : marker_lines (splitlines (render_queue_md h its)) = map marker_line its).
  { rewrite Hlines. unfold marker_lines in *. by rewrite List.filter_app, Hm1, Hm2. }
  destruct (parse_well_formed (render_queue_md h its)) as (h' & its' & Hp).
  { intros Hbad. apply Exists_exists in Hbad as (l & Hin & Hst & Hl).
    assert (Hlm : In l (marker_lines (splitlines (render_queue_md h its)))).
    { unfold marker_lines. apply filter_In. split; [by apply list_elem_of_In|done]. }
    rewrite Hmarkers in Hlm. apply in_map_iff in Hlm as (it & <- & _).
    pose proof (RoundTrip.marker_id_rendered it) as Hid. unfold marker_id in Hid.
    destruct (split_ws (marker_line it) !! 2%nat) as [tok|]; [|done].
    rewrite Hl in Hid. discriminate. }
  exists h', its'. split; [done|].
  pose proof (parse_says _ _ _ Hp) as Hs. by rewrite Hmarkers in Hs.
Qed.



(** *** Lines that the parser passes over *)

Lemma step_track (st st' : pstate) (line : str) :
  step st line = Ok st' -> fields_open st' = track (fields_open st) line.
Proof.
  unfold step, track, is_marker, fields_open.
  destruct (startswith (py "## Item ") line).
  { destruct (marker_id line); simpl; [|done]. by intros [= <-]. }
  destruct (current st) as [cur|] eqn:Hc.
  - destruct (startswith (py "text:") line); [by intros [= <-]|].
    destruct (in_text st) eqn:Ht; [by intros [= <-]|].
    destruct (split_once 58 line) as [[k v]|]; intros [= <-]; simpl; by rewrite ?Hc, ?Ht.
  - intros [= <-]. cbn [current]. by destruct (startswith (py "text:") line).
Qed.

Lemma loop_track (lines : list str) :
  forall st st', loop st lines = Ok st' ->
  fields_open st' = foldl track (fields_open st) lines.
Proof.
  induction lines as [|l lines IH]; intros st st' H; [by injection H as <-|].
  simpl in H. destruct (step st l) as [st1|e] eqn:Hs; simpl in H; [|done].
  simpl. rewrite <- (step_track _ _ _ Hs). by apply IH.
Qed.

Lemma set_field_unknown (it : QueueItem) (key value : str) :
  key ∉ known_keys -> set_field it key value = it.
Proof.
  intros Hn. unfold set_field, known_keys in *.
  repeat match goal with
  | |- context [if eqb ?a ?b then _ else _] =>
    let H := fresh in destruct (eqb a b) eqn:H;
    [apply eqb_eq in H; subst; exfalso; apply Hn; set_solver|]
  end. done.
Qed.

Lemma step_unknown (st : pstate) (line : str) :
  fields_open st = true -> unknown_line line = true -> step st line = Ok st.
Proof.
  unfold fields_open, unknown_line, is_marker, step.
  intros Ho [[Hm Ht]%andb_true_iff Hk]%andb_true_iff.
  apply negb_true_iff in Hm, Ht. rewrite Hm.
  destruct st as [h its [cur|] it]; simpl in *; [|done].
  apply negb_true_iff in Ho. subst it. rewrite Ht.
  destruct (split_once 58 line) as [[k v]|]; [|done].
  apply negb_true_iff, bool_decide_eq_false in Hk.
  by rewrite set_field_unknown.
Qed.

(** Between the marker of an item and its "text:" line, a line that is
    neither a marker nor a line of one of the keys type, lang, source and
    note is passed over: the parse of the file is the parse of the file
    without that line, be it a header with items or the same error. *)
Theorem parse_ignores_unknown_lines
    (content content' : str) (pre post : list str) (line : str) :
  splitlines content = pre ++ line :: post ->
  splitlines content' = pre ++ post ->
  in_fields pre = true -> unknown_line line = true ->
  parse_queue_md content = parse_queue_md content'.
Proof.
  intros Hc Hc' Hpre Hline. unfold parse_queue_md. rewrite Hc, Hc'.
  rewrite !RoundTrip.loop_app.
  destruct (loop init pre) as [st|e] eqn:Hl; [|done].
  change (Ok st ≫= ?k) with (k st). cbv beta.
  change (loop st (line :: post)) with (st' ← step st line; loop st' post).
  rewrite step_unknown; [done| |done].
  rewrite (loop_track _ _ _ Hl). exact Hpre.
Qed.

Lemma parse_ignores_unknown_lines_witness :
  parse_queue_md (py "## Item 001 [pending]" ++ NL ++ py "type: a" ++ NL
                  ++ py "colour: red" ++ NL ++ py "text:" ++ NL ++ py "body")
  = parse_queue_md (py "## Item 001 [pending]" ++ NL ++ py "type: a" ++ NL
                    ++ py "text:" ++ NL ++ py "body").
Proof.
  apply (parse_ignores_unknown_lines _ _
           [py "## Item 001 [pending]"; py "type: a"] [py "text:"; py "body"]
           (py "colour: red")); vm_compute; reflexivity.
Defined.

End ParseFacts.

(** ** The publisher *)

Module DraftsFacts.

Import Str Queue Drafts.

Lemma py_take_nonneg {A : Type} (k : Z) (l : list A) :
  (0 <= k)%Z -> py_take k l = take (Z.to_nat k) l.
Proof. intros H. unfold py_take. destruct (Z.leb_spec 0 k); [done|lia]. Qed.

(** A text cut for a post fits the limit, for every limit of at least one:
    a text within the limit is left as it is, a longer one keeps its first
    [limit - 1] characters and ends with an ellipsis. With a limit of zero a
    text that is not empty is not shortened at all. *)
Theorem trim_text_fits (text : str) (limit : Z) :
  (1 <= limit)%Z ->
  (Z.of_nat (length (trim_text text limit)) <= limit)%Z /\
  ((Z.of_nat (length text) <= limit)%Z -> trim_text text limit = text) /\
  ((limit < Z.of_nat (length text))%Z ->
   trim_text text limit = take (Z.to_nat (limit - 1)) text ++ [8230] /\
   Z.of_nat (length (trim_text text limit)) = limit) /\
  (text <> [] -> length (trim_text text 0) = length text).
Proof.
  intros Hl. unfold trim_text.
  assert (Hlong : (limit < Z.of_nat (length text))%Z ->
            py_take (limit - 1) text ++ [8230] = take (Z.to_nat (limit - 1)) text ++ [8230] /\
            Z.of_nat (length (py_take (limit - 1) text ++ [8230])) = limit).
  { intros Hlt. rewrite py_take_nonneg by lia. split; [done|].
    rewrite length_app, length_take. simpl. lia. }
  split; [|split; [|split]].
  - destruct (Z.leb_spec (Z.of_nat (length text)) limit) as [Hle|Hlt]; [lia|].
    destruct (Hlong Hlt) as [_ ->]. lia.
  - intros Hle. destruct (Z.leb_spec (Z.of_nat (length text)) limit); [done|lia].
  - intros Hlt. destruct (Z.leb_spec (Z.of_nat (length text)) limit); [lia|].
    by apply Hlong.
  - intros Hne. destruct text as [|c text]; [done|].
    destruct (Z.leb_spec (Z.of_nat (length (c :: text))) 0) as [Hle|_].
    { simpl in Hle. lia. }
    unfold py_take. change (0 <=? 0 - 1)%Z with false. cbv iota.
    rewrite length_app, length_take. change (Z.to_nat (- (0 - 1))) with 1%nat.
    simpl. lia.
Qed.

Lemma trim_text_fits_witness :
  trim_text (replicate 300 97%N) 280 = replicate 279 97%N ++ [8230%N] /\
  (Z.of_nat (length (trim_text (replicate 300 97%N) 280)) <= 280)%Z.
Proof.
  destruct (trim_text_fits (replicate 300 97%N) 280) as (Hb & _ & Hcut & _); [lia|].
  split; [|exact Hb]. destruct Hcut as [-> _]; [vm_compute; reflexivity|].
  vm_compute. reflexivity.
Defined.

Section Facts.

Variable draft : nat -> str -> bool.

Lemma drafted_twice (it : QueueItem) : drafted (drafted it) = drafted it.
Proof. reflexivity. Qed.

(** After the loop every item is the one it was or its drafted form, and
    only positions that were to be processed can hold a drafted form. *)
Lemma process_marks (to_process : list nat) :
  forall (k : nat) (items0 items : list QueueItem),
  length items = length items0 ->
  (forall i, items !! i = items0 !! i \/ items !! i = drafted <$> items0 !! i) ->
  let items' := process draft k to_process items in
  length items' = length items0 /\
  forall i, items' !! i = items !! i \/
            (i ∈ to_process /\ items' !! i = drafted <$> items0 !! i).
Proof.
  induction to_process as [|j rest IH]; intros k items0 items Hlen Hinv; simpl.
  - split; [done|]. intros i. by left.
  - destruct (draft k _).
    + destruct (IH (S k) items0 (alter (fun it => set_status it (py "drafted")) j items))
        as [Hl Hi].
      * by rewrite length_alter.
      * intros i. destruct (decide (j = i)) as [->|Hne].
        -- right. rewrite list_lookup_alter_eq.
           destruct (Hinv i) as [->| ->]; [done|].
           by destruct (items0 !! i).
        -- rewrite list_lookup_alter_ne by done. apply Hinv.
      * split; [done|]. intros i. destruct (Hi i) as [Hsame|[Hin Hd]].
        -- destruct (decide (j = i)) as [->|Hne].
           ++ right. split; [by left|]. rewrite Hsame, list_lookup_alter_eq.
              destruct (Hinv i) as [->| ->]; [done|]. by destruct (items0 !! i).
           ++ left. by rewrite Hsame, list_lookup_alter_ne.
        -- right. split; [by right|done].
    + destruct (IH (S k) items0 items Hlen Hinv) as [Hl Hi].
      split; [done|]. intros i. destruct (Hi i) as [?|[Hin Hd]]; [by left|].
      right. split; [by right|done].
Qed.

Lemma pending_spec (items : list QueueItem) (i : nat) :
  i ∈ pending items <-> exists it, items !! i = Some it /\ is_pending it = true.
Proof.
  unfold pending. rewrite list_elem_of_In, filter_In, <- list_elem_of_In, elem_of_seq.
  split.
  - intros [_ H]. destruct (items !! i) as [it|]; [eauto|done].
  - intros (it & Hit & Hp). rewrite Hit. split; [|done].
    apply lookup_lt_Some in Hit. lia.
Qed.

Lemma py_take_elem {A : Type} (k : Z) (l : list A) (x : A) :
  x ∈ py_take k l -> x ∈ l.
Proof.
  unfold py_take. destruct (0 <=? k)%Z;
    intros (i & Hi & _)%elem_of_take; by eapply list_elem_of_lookup_2.
Qed.

(** The publisher changes nothing but the status of pending items: the
    queue keeps its length and order, an item that is not pending, or has a
    blank text, is left as it is, and a pending one is left as it is or gets
    the status "drafted", with every other field untouched. With a limit
    that is not negative, at most that many items change. *)
Theorem process_touches_pending_only (items : list QueueItem) (limit : Z) :
  let items' := process draft 0 (py_take limit (pending items)) items in
  length items' = length items /\
  map item_id items' = map item_id items /\
  map text items' = map text items /\
  (forall i it, items !! i = Some it ->
     items' !! i = Some it \/
     (is_pending it = true /\ items' !! i = Some (set_status it (py "drafted")))) /\
  ((0 <= limit)%Z ->
   exists changed : list nat,
     (Z.of_nat (length changed) <= limit)%Z /\
     forall i, i ∉ changed -> items' !! i = items !! i).
Proof.
  intros items'.
  destruct (process_marks (py_take limit (pending items)) 0 items items eq_refl
              (fun i => or_introl eq_refl)) as [Hlen Hi].
  fold items' in Hlen, Hi.
  assert (Hfield : forall (A : Type) (f : QueueItem -> A),
            (forall it, f (drafted it) = f it) -> map f items' = map f items).
  { intros A f Hf. apply list_eq. intros i.
    change (map f items') with (f <$> items'). change (map f items) with (f <$> items).
    rewrite !list_lookup_fmap.
    destruct (Hi i) as [->|[_ ->]]; [done|]. destruct (items !! i); simpl; [|done].
    by rewrite Hf. }
  split; [done|]. split; [by apply Hfield|]. split; [by apply Hfield|]. split.
  - intros i it Hit. destruct (Hi i) as [Hs|[Hin Hd]].
    + left. by rewrite Hs.
    + right. apply py_take_elem, pending_spec in Hin as (it' & Hit' & Hp).
      rewrite Hit in Hit'. injection Hit' as <-. split; [done|]. by rewrite Hd, Hit.
  - intros Hl. exists (py_take limit (pending items)). split.
    + rewrite py_take_nonneg, length_take by done. lia.
    + intros i Hni. destruct (Hi i) as [?|[Hin _]]; done.
Qed.

End Facts.

End DraftsFacts.

(** ** Links, status ids and grouping in the batch tool *)

Module BatchFacts.

Import Str StrFacts Batch Grouped.

Lemma startswith_drop (p s : str) :
  startswith p s = true -> s = p ++ drop (length p) s.
Proof.
  revert s. induction p as [|a p IH]; intros s H; [done|].
  destruct s as [|b s]; [done|]. simpl in H.
  apply andb_true_iff in H as [Hab Hp]. apply N.eqb_eq in Hab as ->.
  simpl. f_equal. by apply IH.
Qed.

Lemma startswith_shorter (p q s : str) :
  startswith (p ++ q) s = true -> startswith p s = true.
Proof.
  revert s. induction p as [|a p IH]; intros s H; [done|].
  destruct s as [|b s]; [done|]. simpl in *.
  apply andb_true_iff in H as [-> Hp]. simpl. by apply IH.
Qed.

Lemma take_digits_all (s : str) : forallb isdigit (take_digits s) = true.
Proof.
  induction s as [|c s IH]; [done|]. simpl.
  destruct (isdigit c) eqn:Hc; [|done]. simpl. by rewrite Hc.
Qed.

Lemma take_digits_split (s : str) :
  exists rest, s = take_digits s ++ rest /\
    match rest with c :: _ => isdigit c = false | [] => True end.
Proof.
  induction s as [|c s (rest & Hs & Hr)]; [by exists []|]. simpl.
  destruct (isdigit c) eqn:Hc.
  - exists rest. split; [|done]. simpl. by rewrite <- Hs.
  - by exists (c :: s).
Qed.

Lemma take_digits_app (digits rest : str) :
  forallb isdigit digits = true ->
  match rest with c :: _ => isdigit c = false | [] => True end ->
  take_digits (digits ++ rest) = digits.
Proof.
  intros Hd Hr. induction digits as [|c digits IH].
  - destruct rest as [|c rest]; [done|]. simpl. by rewrite Hr.
  - simpl in Hd. apply andb_true_iff in Hd as [Hc Hd]. simpl. rewrite Hc.
    by rewrite IH.
Qed.


Lemma contains_cons_none (m : str) (c : char) (s : str) :
  contains m (c :: s) = false -> contains m s = false.
Proof. intros H. by destruct (KnowledgeBaseRuns.contains_cons_false m c s H). Qed.

Lemma no_early_status (pre tail : str) :
  pre <> [] ->
  startswith (py "/status") pre = false ->
  startswith (py "/status/") (pre ++ py "/status/" ++ tail) = false.
Proof.
  intros Hne Hp. destruct (startswith (py "/status/") (pre ++ py "/status/" ++ tail)) eqn:Hs;
    [|done].
  exfalso.
  destruct (KnowledgeBaseRuns.startswith_app_split _ _ _ Hs) as [H1|(m2 & Heq & Hm2 & Hs2)].
  - change (py "/status/") with (py "/status" ++ py "/") in H1.
    apply startswith_shorter in H1. by rewrite H1 in Hp.
  - py_eval_in Heq. py_eval_in Hp. py_eval_in Hs2.
    destruct pre as [|c0 pre]; [done|].
    do 7 (injection Heq as <- Heq;
          destruct pre as [|? pre];
          [simpl in Heq; subst m2; simpl in Hs2, Hp; done|]).
    injection Heq as <- Heq. symmetry in Heq.
    apply app_eq_nil in Heq as [_ ->]. done.
Qed.



(** *** Links of a links file *)

Lemma lstrip_head (s : str) :
  match lstrip s with c :: _ => isspace c = false | [] => True end.
Proof.
  induction s as [|c s IH]; [done|]. simpl.
  destruct (isspace c) eqn:Hc; [exact IH|exact Hc].
Qed.

Lemma rstrip_cons (c : char) (s : str) :
  rstrip (c :: s) = match rstrip s with
                    | [] => if isspace c then [] else [c]
                    | r => c :: r
                    end.
Proof. reflexivity. Qed.

Lemma rstrip_last (s : str) :
  rstrip s = [] \/ exists d, last (rstrip s) = Some d /\ isspace d = false.
Proof.
  induction s as [|c s IH]; [by left|]. rewrite rstrip_cons.
  destruct (rstrip s) as [|r0 r] eqn:Hr.
  - destruct (isspace c) eqn:Hc; [by left|]. right. by exists c.
  - right. destruct IH as [?|(d & Hl & Hd)]; [done|]. exists d. split; [|done].
    by rewrite last_cons, Hl.
Qed.

Lemma rstrip_head (c : char) (s : str) :
  isspace c = false -> exists r, rstrip (c :: s) = c :: r.
Proof.
  intros Hc. rewrite rstrip_cons, Hc. destruct (rstrip s); eauto.
Qed.

Lemma lstrip_one_line (s : str) : Queue.one_line s = true -> Queue.one_line (lstrip s) = true.
Proof.
  induction s as [|c s IH]; [done|]. intros H. simpl.
  destruct (isspace c); [|done]. simpl in H. apply andb_true_iff in H as [_ H]. by apply IH.
Qed.

Lemma rstrip_one_line (s : str) : Queue.one_line s = true -> Queue.one_line (rstrip s) = true.
Proof.
  induction s as [|c s IH]; [done|]. intros H. simpl in H.
  apply andb_true_iff in H as [Hc H]. rewrite rstrip_cons.
  specialize (IH H). destruct (rstrip s) as [|r0 r].
  - destruct (isspace c); [done|]. simpl. by rewrite Hc.
  - change (Queue.one_line (c :: r0 :: r)) with (negb (is_linebreak c) && Queue.one_line (r0 :: r)).
    by rewrite Hc, IH.
Qed.

(** What a stripped line that is not empty looks like. *)
Lemma strip_ends (s : str) :
  strip s = [] \/
  exists c d, head (strip s) = Some c /\ last (strip s) = Some d /\
              isspace c = false /\ isspace d = false.
Proof.
  unfold strip. pose proof (lstrip_head s) as Hh.
  destruct (lstrip s) as [|c u]; [by left|]. right.
  destruct (rstrip_head c u Hh) as [r Hr].
  destruct (rstrip_last (c :: u)) as [He|(d & Hl & Hd)]; [by rewrite Hr in He|].
  exists c, d. rewrite Hr in *. done.
Qed.

(** The links of a links file are its lines without the white space around
    them, in their order, except the empty ones and those whose first
    character is "#": each link is one line that starts and ends with a
    character that is not white space, and no other line is left out. *)
Theorem load_links_trimmed (content : str) :
  Forall (fun link =>
            exists c d, head link = Some c /\ last link = Some d /\
                        isspace c = false /\ isspace d = false /\ c <> 35 /\
                        Queue.one_line link = true)
         (load_links content) /\
  (forall raw, raw ∈ splitlines content ->
     strip raw <> [] -> head (strip raw) <> Some 35 ->
     strip raw ∈ load_links content) /\
  (length (load_links content) <= length (splitlines content))%nat.
Proof.
  unfold load_links. split; [|split].
  - apply Forall_forall. intros link [[Hne Hhash] Hin]%list_elem_of_filter.
    apply list_elem_of_fmap in Hin as (raw & -> & Hraw).
    destruct (strip_ends raw) as [He|(c & d & Hc & Hd & Hcs & Hds)].
    { by rewrite He in Hne. }
    exists c, d. repeat split; try done.
    + intros ->. destruct (strip raw) as [|c s]; [done|].
      injection Hc as ->. done.
    + unfold strip. apply rstrip_one_line, lstrip_one_line.
      pose proof (splitlines_one_line content) as Hall.
      rewrite forallb_forall in Hall. apply Hall. by apply list_elem_of_In.
  - intros raw Hraw Hne Hhash. apply list_elem_of_filter. split.
    + split; [by destruct (strip raw)|].
      destruct (strip raw) as [|c s]; [done|]. py_eval.
      change (startswith [35] (c :: s)) with ((35 =? c) && true).
      destruct (N.eqb_spec 35 c) as [<-|]; done.
    + apply list_elem_of_fmap. eauto.
  - etrans; [apply length_filter|]. by rewrite length_map.
Qed.

(** *** Categories and groups *)

Lemma first_category_known (rules : list (str * list str)) (low : str) :
  first_category rules low ∈ map fst rules ++ [py "uncategorized"].
Proof.
  induction rules as [|[cat keys] rules IH].
  - apply list_elem_of_singleton. reflexivity.
  - change (first_category ((cat, keys) :: rules) low)
      with (if existsb (fun k => contains (lower k) low) keys then cat
            else first_category rules low).
    destruct (existsb _ keys).
    + by left.
    + right. exact IH.
Qed.

Lemma categorize_known (text : str) : categorize text ∈ categories.
Proof. apply first_category_known. Qed.

Lemma categories_NoDup : NoDup categories.
Proof.
  assert (H : bool_decide (NoDup categories) = true) by (vm_compute; reflexivity).
  by apply bool_decide_eq_true in H.
Qed.

Lemma dict_append_known (cats : list str) (f : str -> list note_item)
    (key : str) (it : note_item) :
  NoDup cats -> key ∈ cats ->
  dict_append key it (map (fun c => (c, f c)) cats)
  = Ok (map (fun c => (c, if eqb key c then f c ++ [it] else f c)) cats).
Proof.
  induction cats as [|k cats IH]; intros Hnd Hin; [by apply elem_of_nil in Hin|].
  apply NoDup_cons in Hnd as [Hk Hnd].
  change (dict_append key it (map (fun c => (c, f c)) (k :: cats)))
    with (if eqb k key then Ok ((k, f k ++ [it]) :: map (fun c => (c, f c)) cats)
          else rest' ← dict_append key it (map (fun c => (c, f c)) cats);
               Ok ((k, f k) :: rest')).
  unfold eqb at 1. case_bool_decide as Hkk.
  - subst k. simpl. rewrite eqb_refl. do 2 f_equal.
    apply map_ext_in. intros c Hc%list_elem_of_In.
    unfold eqb. case_bool_decide; [by subst|done].
  - apply elem_of_cons in Hin as [Heq | Hin]; [by subst|].
    rewrite IH by done. simpl.
    assert (Hf : eqb key k = false) by (unfold eqb; case_bool_decide; [by subst|done]).
    by rewrite Hf.
Qed.

Lemma dict_append_unknown (grouped : list (str * list note_item))
    (key : str) (it : note_item) :
  key ∉ map fst grouped -> dict_append key it grouped = Raise (key_error key).
Proof.
  induction grouped as [|[k posts] grouped IH]; intros Hn; [done|].
  simpl in Hn. apply not_elem_of_cons in Hn as [Hk Hn]. simpl.
  unfold eqb. case_bool_decide; [by subst|]. by rewrite IH.
Qed.

Lemma of_category_snoc (cat : str) (done : list note_item) (it : note_item) :
  of_category cat (done ++ [it])
  = if eqb (ni_category it) cat then of_category cat done ++ [it] else of_category cat done.
Proof.
  unfold of_category. rewrite List.filter_app. simpl.
  destruct (eqb (ni_category it) cat); [done|]. by rewrite app_nil_r.
Qed.

Lemma group_loop_known (items : list note_item) :
  forall done : list note_item,
  Forall (fun it => ni_category it ∈ categories) items ->
  group_loop (map (fun c => (c, of_category c done)) categories) items
  = Ok (map (fun c => (c, of_category c (done ++ items))) categories).
Proof.
  induction items as [|it items IH]; intros done Hall.
  - by rewrite app_nil_r.
  - apply Forall_cons in Hall as [Hit Hall].
    change (group_loop ?g (it :: items))
      with (g' ← dict_append (ni_category it) it g; group_loop g' items).
    rewrite (dict_append_known categories (fun c => of_category c done))
      by (done || apply categories_NoDup).
    change (Ok ?a ≫= ?k) with (k a). cbv beta.
    rewrite (map_ext _ (fun c => (c, of_category c (done ++ [it])))).
    + rewrite IH by done. by rewrite <- app_assoc.
    + intros c. by rewrite of_category_snoc.
Qed.

Lemma group_loop_unknown (pre : list note_item) :
  forall (grouped : list (str * list note_item)) (it : note_item) (post : list note_item),
  Forall (fun p => ni_category p ∈ map fst grouped) pre ->
  ni_category it ∉ map fst grouped ->
  group_loop grouped (pre ++ it :: post) = Raise (key_error (ni_category it)).
Proof.
  induction pre as [|p pre IH]; intros grouped it post Hall Hn.
  - simpl. by rewrite dict_append_unknown.
  - apply Forall_cons in Hall as [Hp Hall]. simpl.
    destruct (dict_append (ni_category p) p grouped) as [g'|e] eqn:Hd.
    + simpl. assert (Hk : map fst g' = map fst grouped).
      { clear -Hd. revert g' Hd. induction grouped as [|[k posts] grouped IHg]; intros g' Hd;
          [done|]. simpl in Hd. destruct (eqb k (ni_category p)).
        - by injection Hd as <-.
        - destruct (dict_append (ni_category p) p grouped) as [r|] eqn:Hr; [|done].
          simpl in Hd. injection Hd as <-. simpl. f_equal. by apply IHg. }
      apply IH; by rewrite Hk.
    + exfalso. clear -Hd Hp. induction grouped as [|[k posts] grouped IHg].
      * by apply elem_of_nil in Hp.
      * simpl in Hd, Hp. unfold eqb in Hd. case_bool_decide as Hk; [done|].
        apply elem_of_cons in Hp as [Hp|Hp]; [done|].
        destruct (dict_append (ni_category p) p grouped); [done|]. by apply IHg.
Qed.

Section Facts.

Variable load_capture : str -> result capture.
Variable fetch_and_learn : list str -> gmap str str -> Z * gmap str str.
Variables browser proxy : str.
Variable fetch : bool.

Lemma link_step_known (st : mstate) (link : str) :
  Forall (fun it => ni_category it ∈ categories) (m_items st) ->
  Forall (fun it => ni_category it ∈ categories)
         (m_items (link_step load_capture fetch_and_learn browser proxy fetch st link)).
Proof.
  intros H. unfold link_step.
  destruct (capture_if_needed fetch_and_learn link browser proxy fetch (files st))
    as [[cap|e] fs']; [|done].
  destruct (fs' !! cap) as [content|]; [|done].
  destruct (load_capture content) as [data|e]; [|done].
  cbn [m_items]. apply Forall_app. split; [done|].
  apply Forall_singleton. cbn [ni_category]. apply categorize_known.
Qed.

Lemma run_links_known (ls : list str) (st : mstate) :
  Forall (fun it => ni_category it ∈ categories) (m_items st) ->
  Forall (fun it => ni_category it ∈ categories)
         (m_items (foldl (link_step load_capture fetch_and_learn browser proxy fetch) st ls)).
Proof.
  revert st. induction ls as [|l ls IH]; intros st H; [done|].
  simpl. by apply IH, link_step_known.
Qed.

(** Every link of the links file is accounted for exactly once in the
    summary: the processed links and the entries of [errors] add up to the
    number of links, whatever the captures, the fetch script and the files
    do. *)
Theorem main_accounts_for_every_link (content : str) (fs : gmap str str) :
  let r := main load_capture fetch_and_learn content browser proxy fetch fs in
  (processed r + length (errors r) = links r)%nat /\
  links r = length (load_links content).
Proof.
  intros r. split; [|done]. unfold r, main, run_links. cbn [processed errors links].
  destruct (BatchRun.run_trace load_capture fetch_and_learn browser proxy fetch
              (load_links content) fs []) as (fs' & its' & new & Hc & Hrun).
  rewrite (Hrun []). simpl in *. lia.
Qed.

(** Grouping never fails on the notes of a run, since every category that
    [categorize] gives is a key of the groups; each group then holds the
    notes of its category in the order of the links, so every note is in
    exactly one group. A note with any other category stops the grouping
    with a key error. *)
Theorem build_grouped_partitions (content : str) (fs : gmap str str) :
  let items := m_items (run_links load_capture fetch_and_learn browser proxy fetch fs
                          (load_links content)) in
  build_grouped items = Ok (map (fun c => (c, of_category c items)) categories) /\
  (forall text, categorize text ∈ categories) /\
  (forall (pre : list note_item) (it : note_item) (post : list note_item),
     Forall (fun p => ni_category p ∈ categories) pre ->
     ni_category it ∉ categories ->
     exists e, build_grouped (pre ++ it :: post) = Raise e).
Proof.
  intros items. split; [|split].
  - apply (group_loop_known items []). apply run_links_known. done.
  - apply categorize_known.
  - intros pre it post Hpre Hit. unfold build_grouped.
    assert (Hk : map fst (map (fun k : str => (k, @nil note_item)) categories) = categories).
    { rewrite map_map. apply map_id. }
    eexists. apply group_loop_unknown; by rewrite Hk.
Qed.

End Facts.

End BatchFacts.

(** ** Cleaned texts, summaries and sentences *)

Module CleanFacts.

Import Str StrFacts Batch Clean Sentences.

Lemma collapse_ws_collapsed (s : str) (a : bool) : collapsed a (collapse_ws a s) = true.
Proof.
  revert a. induction s as [|c s IH]; intros a; [done|]. simpl.
  destruct (isspace c) eqn:Hc.
  - destruct a; [apply IH|]. simpl. apply IH.
  - simpl. rewrite Hc. apply IH.
Qed.

Lemma collapsed_weaken (s : str) : collapsed true s = true -> collapsed false s = true.
Proof.
  destruct s as [|c s]; [done|]. simpl. destruct (isspace c); [|done].
  rewrite andb_false_r. done.
Qed.

Lemma collapsed_lstrip (s : str) : collapsed false s = true -> collapsed true (lstrip s) = true.
Proof.
  destruct s as [|c s]; [done|]. simpl. destruct (isspace c) eqn:Hc.
  - intros [[_ _]%andb_true_iff Hs]%andb_true_iff.
    destruct s as [|d s]; [done|]. simpl in *.
    destruct (isspace d) eqn:Hd; [by rewrite andb_false_r in Hs|].
    simpl. by rewrite Hd.
  - intros H. simpl. by rewrite Hc.
Qed.

Lemma rstrip_tidy (s : str) (a : bool) :
  collapsed a s = true -> rstrip s = [] \/ tidy_from a (rstrip s) = true.
Proof.
  revert a. induction s as [|c s IH]; intros a H; [by left|].
  rewrite BatchFacts.rstrip_cons. simpl in H. destruct (isspace c) eqn:Hc.
  - apply andb_true_iff in H as [[Hc32 Ha]%andb_true_iff Hs].
    destruct (IH true Hs) as [-> | Ht]; [by left|].
    destruct (rstrip s) as [|r0 r] eqn:Hr; [by left|]. right.
    change (tidy_from a (c :: r0 :: r))
      with (if isspace c then (c =? 32) && negb a && tidy_from true (r0 :: r)
            else tidy_from false (r0 :: r)).
    by rewrite Hc, Hc32, Ha, Ht.
  - right. destruct (IH false H) as [-> | Ht].
    + simpl. by rewrite Hc.
    + destruct (rstrip s) as [|r0 r] eqn:Hr; [simpl; by rewrite Hc|].
      change (tidy_from a (c :: r0 :: r))
        with (if isspace c then (c =? 32) && negb a && tidy_from true (r0 :: r)
              else tidy_from false (r0 :: r)).
      by rewrite Hc.
Qed.

Lemma clean_tidy (text : str) : tidy (_clean text) = true.
Proof.
  unfold _clean, strip.
  pose proof (collapsed_lstrip _ (collapse_ws_collapsed text false)) as H.
  destruct (rstrip_tidy _ _ H) as [-> | Ht]; [done|].
  unfold tidy. by destruct (rstrip _).
Qed.

Lemma tidy_collapse_ws (s : str) (a b : bool) :
  tidy_from a s = true -> (b = true -> a = true) -> collapse_ws b s = s.
Proof.
  revert a b. induction s as [|c s IH]; intros a b H Hab; [done|]. simpl in *.
  destruct (isspace c) eqn:Hc.
  - apply andb_true_iff in H as [[Hc32 Ha]%andb_true_iff Hs].
    apply N.eqb_eq in Hc32 as ->. destruct a; [done|].
    destruct b; [by discriminate Hab|]. f_equal. by apply (IH true true).
  - f_equal. by apply (IH false false).
Qed.

Lemma tidy_rstrip (s : str) (a : bool) : tidy_from a s = true -> rstrip s = s.
Proof.
  revert a. induction s as [|c s IH]; intros a H; [done|].
  rewrite BatchFacts.rstrip_cons. simpl in H. destruct (isspace c) eqn:Hc.
  - apply andb_true_iff in H as [_ Hs]. rewrite (IH true Hs).
    by destruct s.
  - rewrite (IH false H). by destruct s.
Qed.

Lemma tidy_clean (s : str) : tidy s = true -> _clean s = s.
Proof.
  destruct s as [|c s]; [done|]. intros H. unfold tidy in H. unfold _clean.
  rewrite (tidy_collapse_ws _ true false H) by done.
  unfold strip. assert (Hl : lstrip (c :: s) = c :: s).
  { simpl in *. destruct (isspace c); [|done]. by rewrite andb_false_r in H. }
  rewrite Hl. by apply (tidy_rstrip _ true).
Qed.

Lemma visible_collapse_ws (s : str) (a : bool) : visible (collapse_ws a s) = visible s.
Proof.
  revert a. induction s as [|c s IH]; intros a; [done|]. unfold visible in *. simpl.
  destruct (isspace c) eqn:Hc; simpl.
  - destruct a; [apply IH|]. simpl. apply IH.
  - rewrite Hc. simpl. f_equal. apply IH.
Qed.

Lemma visible_lstrip (s : str) : visible (lstrip s) = visible s.
Proof.
  induction s as [|c s IH]; [done|]. unfold visible in *. simpl.
  destruct (isspace c) eqn:Hc; simpl; [exact IH|]. by rewrite Hc.
Qed.

Lemma visible_rstrip (s : str) : visible (rstrip s) = visible s.
Proof.
  induction s as [|c s IH]; [done|]. rewrite BatchFacts.rstrip_cons.
  unfold visible in *. cbn [List.filter]. rewrite <- IH.
  destruct (rstrip s) as [|r0 r]; destruct (isspace c) eqn:Hc; simpl; by rewrite ?Hc.
Qed.

Lemma tidy_spaces (s : str) (a : bool) (c : char) :
  tidy_from a s = true -> c ∈ s -> isspace c = true -> c = 32.
Proof.
  revert a. induction s as [|d s IH]; intros a H Hin Hc; [by apply elem_of_nil in Hin|].
  simpl in H. apply elem_of_cons in Hin as [Heq | Hin].
  - subst d. rewrite Hc in H. apply andb_true_iff in H as [[H32 _]%andb_true_iff _].
    by apply N.eqb_eq in H32.
  - destruct (isspace d); [apply andb_true_iff in H as [_ H]|]; by eapply IH.
Qed.

Lemma linebreak_isspace (c : char) : is_linebreak c = true -> isspace c = true.
Proof.
  unfold is_linebreak, isspace.
  rewrite !orb_true_iff, !andb_true_iff, !N.leb_le, !N.eqb_eq. lia.
Qed.

Lemma tidy_one_line (s : str) : tidy s = true -> Queue.one_line s = true.
Proof.
  intros H. unfold Queue.one_line. apply forallb_forall. intros c Hc%list_elem_of_In.
  destruct (is_linebreak c) eqn:Hl; [|done].
  destruct s as [|d s]; [by apply elem_of_nil in Hc|]. unfold tidy in H.
  rewrite (tidy_spaces _ _ c H Hc (linebreak_isspace c Hl)) in Hl. done.
Qed.

Lemma clean_visible (text : str) : visible (_clean text) = visible text.
Proof.
  unfold _clean, strip. by rewrite visible_rstrip, visible_lstrip, visible_collapse_ws.
Qed.

(** Cleaning a text keeps its characters that are not white space, in
    their order, and leaves every white space as one blank between two of
    them. The cleaned texts are exactly the texts that cleaning leaves as
    they are, so cleaning twice is cleaning once; and a cleaned text is one
    line. *)
Theorem clean_normal_form (text : str) :
  tidy (_clean text) = true /\
  visible (_clean text) = visible text /\
  (_clean text = text <-> tidy text = true) /\
  _clean (_clean text) = _clean text /\
  Queue.one_line (_clean text) = true /\
  (length (_clean text) <= length text)%nat.
Proof.
  split; [apply clean_tidy|]. split.
  { apply clean_visible. }
  split; [|split; [|split]].
  - split; [intros <-; apply clean_tidy|apply tidy_clean].
  - apply tidy_clean, clean_tidy.
  - apply tidy_one_line, clean_tidy.
  - unfold _clean, strip.
    assert (Hr : forall s : str, (length (rstrip s) <= length s)%nat).
    { induction s as [|c s IH]; [done|]. rewrite BatchFacts.rstrip_cons.
      destruct (rstrip s); [destruct (isspace c)|]; simpl in *; lia. }
    assert (Hl : forall s : str, (length (lstrip s) <= length s)%nat).
    { induction s as [|c s IH]; [done|]. simpl. destruct (isspace c); simpl; lia. }
    assert (Hc : forall (s : str) a, (length (collapse_ws a s) <= length s)%nat).
    { induction s as [|c s IH]; intros a; [done|]. simpl.
      pose proof (IH true). pose proof (IH false).
      destruct (isspace c); [destruct a|]; simpl; lia. }
    etrans; [apply Hr|]. etrans; [apply Hl|]. apply Hc.
Qed.

(** *** Summaries *)

Lemma one_line_take (k : nat) (s : str) :
  Queue.one_line s = true -> Queue.one_line (take k s) = true.
Proof.
  unfold Queue.one_line. rewrite !forallb_forall. intros H c Hc%list_elem_of_In.
  apply H, list_elem_of_In. apply elem_of_take in Hc as (i & Hi & _).
  by eapply list_elem_of_lookup_2.
Qed.

Lemma one_line_snoc (s : str) (c : char) :
  Queue.one_line s = true -> is_linebreak c = false -> Queue.one_line (s ++ [c]) = true.
Proof.
  unfold Queue.one_line. intros Hs Hc. rewrite forallb_app, Hs. simpl. by rewrite Hc.
Qed.

(** A summary fits its limit, for every limit of at least one, and is one
    line without line breaks: the cleaned text when that is short enough,
    and else its first [limit - 1] characters with an ellipsis. *)
Theorem summarize_fits (text : str) (limit : nat) :
  (1 <= limit)%nat ->
  (length (summarize text limit) <= limit)%nat /\
  Queue.one_line (summarize text limit) = true /\
  ((length (_clean text) <= limit)%nat -> summarize text limit = _clean text) /\
  ((limit < length (_clean text))%nat ->
   summarize text limit = take (limit - 1) (_clean text) ++ [8230] /\
   length (summarize text limit) = limit).
Proof.
  intros Hl. unfold summarize. fold (_clean text).
  pose proof (tidy_one_line _ (clean_tidy text)) as Hone.
  destruct limit as [|k]; [lia|].
  replace (S k - 1)%nat with k by lia.
  destruct (Nat.leb_spec (length (_clean text)) (S k)) as [Hle|Hlt].
  - split; [done|]. split; [done|]. split; [done|]. lia.
  - assert (Hlen : length (take k (_clean text) ++ [8230]) = S k).
    { rewrite length_app, length_take. simpl. lia. }
    split; [lia|]. split; [|split; [lia|done]].
    apply one_line_snoc; [by apply one_line_take|done].
Qed.

Lemma summarize_fits_witness :
  (length (summarize (replicate 200 97%N ++ [10%N; 10%N] ++ replicate 10 98%N) 120) <= 120)%nat /\
  summarize (replicate 200 97%N ++ [10%N; 10%N] ++ replicate 10 98%N) 120
  = replicate 119 97%N ++ [8230%N].
Proof.
  destruct (summarize_fits (replicate 200 97%N ++ [10%N; 10%N] ++ replicate 10 98%N) 120)
    as (Hfit & _ & _ & Hcut); [lia|].
  split; [exact Hfit|]. vm_compute. reflexivity.
Defined.

(** *** Sentences *)

Lemma re_split_pieces (s : str) :
  forall (b : bool) (cur : str),
  Forall plain_char cur -> Forall (fun c => c <> 13) s ->
  Forall (Forall plain_char) (re_split b cur s).
Proof.
  induction s as [|c s IH]; intros b cur Hcur Hs.
  - by apply Forall_singleton.
  - apply Forall_cons in Hs as [Hc Hs]. simpl. destruct (is_sep c) eqn:Hsep.
    + destruct b; [by apply IH|]. apply Forall_cons. split; [done|]. by apply IH.
    + apply IH; [|done]. apply Forall_app. split; [done|]. by apply Forall_singleton.
Qed.

Lemma re_split_none (s : str) (cur : str) :
  Forall (fun c => is_sep c = false) s -> re_split false cur s = [cur ++ s].
Proof.
  revert cur. induction s as [|c s IH]; intros cur Hs; [by rewrite app_nil_r|].
  apply Forall_cons in Hs as [Hc Hs]. simpl. rewrite Hc, IH by done.
  by rewrite <- app_assoc.
Qed.

Lemma cr_to_lf_no_cr (text : str) : Forall (fun c => c <> 13) (cr_to_lf text).
Proof.
  unfold cr_to_lf. apply Forall_forall. intros c (d & -> & _)%list_elem_of_fmap.
  destruct (N.eqb_spec d 13); [done|done].
Qed.

Lemma cr_to_lf_plain (text : str) :
  Forall (fun c => c <> 13) text -> cr_to_lf text = text.
Proof.
  induction 1 as [|c s Hc _ IH]; [done|]. unfold cr_to_lf in *. simpl.
  rewrite IH. by destruct (N.eqb_spec c 13).
Qed.

Lemma clean_chars (chunk : str) (c : char) :
  c ∈ _clean chunk -> c ∈ chunk \/ c = 32.
Proof.
  intros Hc. destruct (isspace c) eqn:Hs.
  - right. pose proof (clean_tidy chunk) as Ht. unfold tidy in Ht.
    destruct (_clean chunk) as [|d r] eqn:He; [by apply elem_of_nil in Hc|].
    by eapply tidy_spaces.
  - left. assert (Hv : c ∈ visible (_clean chunk)).
    { unfold visible. apply list_elem_of_In, filter_In. split; [by apply list_elem_of_In|].
      by rewrite Hs. }
    rewrite clean_visible in Hv.
    unfold visible in Hv. apply list_elem_of_In, filter_In in Hv as [Hv _].
    by apply list_elem_of_In.
Qed.

Lemma keep_sentences_shape (chunks : list str) :
  Forall (Forall plain_char) chunks ->
  Forall (fun s => (8 <= length s)%nat /\ tidy s = true /\ Forall plain_char s)
         (keep_sentences chunks).
Proof.
  induction 1 as [|chunk chunks Hc _ IH]; [done|]. simpl.
  destruct (nonempty (_clean chunk)); [|exact IH]. simpl.
  destruct (Nat.ltb_spec (length (_clean chunk)) 8) as [Hlt|Hge]; [exact IH|].
  apply Forall_cons. split; [|exact IH]. split; [done|]. split; [apply clean_tidy|].
  apply Forall_forall. intros c [Hin | ->]%clean_chars.
  - rewrite Forall_forall in Hc. by apply Hc.
  - split; [by vm_compute|done].
Qed.

(** Every sentence taken from a text has at least 8 characters, is
    cleaned, and holds none of the separators and no carriage return. A
    text without separators gives one sentence, its cleaned form, or none
    when that has fewer than 8 characters. *)
Theorem sentences_shape (text : str) :
  Forall (fun s => (8 <= length s)%nat /\ tidy s = true /\
                   Forall (fun c => is_sep c = false /\ c <> 13) s)
         (_sentences text) /\
  (Forall (fun c => is_sep c = false /\ c <> 13) text ->
   _sentences text = if (8 <=? length (_clean text))%nat then [_clean text] else []).
Proof.
  split.
  - apply keep_sentences_shape, re_split_pieces; [done|apply cr_to_lf_no_cr].
  - intros Hp. unfold _sentences.
    rewrite cr_to_lf_plain by (eapply Forall_impl; [exact Hp|by intros c [_ ?]]).
    rewrite re_split_none by (eapply Forall_impl; [exact Hp|by intros c [? _]]).
    rewrite app_nil_l. unfold keep_sentences.
    destruct (Nat.leb_spec 8 (length (_clean text)));
      destruct (Nat.ltb_spec (length (_clean text)) 8); try lia.
    + destruct (_clean text); [simpl in *; lia|done].
    + by destruct (nonempty _).
Qed.

End CleanFacts.

(** ** What a call on the knowledge base leaves behind *)

Module KnowledgeBaseFrame.

Import Str StrFacts Batch Learn.

Lemma kb_entry_starts (data : capture) (points : list str) (learned_path : str) :
  startswith (marker_of (default [] (target_status_id data)))
             (kb_entry data points learned_path) = true.
Proof.
  unfold kb_entry, kb_lines.
  set (sid := default [] (target_status_id data)).
  change ([marker_of sid; ?a; ?b; ?c; ?d] ++ ?x ++ ?y)
    with (marker_of sid :: ([a; b; c; d] ++ x ++ y)).
  rewrite Chunking.join_cons by done. rewrite <- app_assoc.
  apply startswith_app_self.
Qed.


End KnowledgeBaseFrame.

(** ** Which article is the target *)

Module TargetFacts.

Import Str StrFacts Reader.

Lemma find_first {A : Type} (f : A -> bool) (pre : list A) (x : A) (post : list A) :
  Forall (fun a => f a = false) pre -> f x = true ->
  List.find f (pre ++ x :: post) = Some x.
Proof.
  induction 1 as [|a pre Ha _ IH]; intros Hx; simpl.
  - by rewrite Hx.
  - rewrite Ha. by apply IH.
Qed.

Lemma find_nowhere {A : Type} (f : A -> bool) (l : list A) :
  Forall (fun a => f a = false) l -> List.find f l = None.
Proof. induction 1 as [|a l Ha _ IH]; simpl; [done|]. by rewrite Ha. Qed.

Lemma existsb_nowhere {A : Type} (f : A -> bool) (l : list A) :
  existsb f l = false -> Forall (fun a => f a = false) l.
Proof.
  induction l as [|a l IH]; [done|]. simpl. intros [Ha Hl]%orb_false_iff.
  apply Forall_cons. split; [done|]. by apply IH.
Qed.

(** Among the articles on the page, the target is the first one whose own
    permalink carries the status id, even when an earlier article quotes
    a link to that post; only when no permalink matches is it the first
    article that holds any link with the id. Without a status id it is the
    first article. An empty page and a page without the target are told
    apart by the error. *)
Theorem find_target_prefers_permalink (pg : page) (status_id : str) :
  let arts := mounted pg (position pg) in
  (forall pre art post,
     nonempty status_id = true -> arts = pre ++ art :: post ->
     by_permalink status_id art = true ->
     Forall (fun a => by_permalink status_id a = false) pre ->
     _find_target_article pg status_id = Ok art) /\
  (forall pre art post,
     nonempty status_id = true -> arts = pre ++ art :: post ->
     Forall (fun a => by_permalink status_id a = false) arts ->
     by_any_link status_id art = true ->
     Forall (fun a => by_any_link status_id a = false) pre ->
     _find_target_article pg status_id = Ok art) /\
  (forall first rest,
     nonempty status_id = false -> arts = first :: rest ->
     _find_target_article pg status_id = Ok first) /\
  (arts = [] -> _find_target_article pg status_id = Raise no_article) /\
  (nonempty status_id = true -> arts <> [] -> has_target status_id arts = false ->
   _find_target_article pg status_id = Raise (target_not_found status_id)).
Proof.
  intros arts. unfold _find_target_article. fold arts.
  split; [|split; [|split; [|split]]].
  - intros pre art post Hs Ha Hart Hpre. rewrite Hs, Ha.
    rewrite find_first by done. by destruct pre.
  - intros pre art post Hs Ha Hnone Hart Hpre. rewrite Hs.
    rewrite (find_nowhere _ arts Hnone). rewrite Ha.
    rewrite find_first by done. by destruct pre.
  - intros first rest Hs ->. by rewrite Hs.
  - by intros ->.
  - intros Hs Hne Hnone. apply orb_false_iff in Hnone as [Hp Hl].
    rewrite Hs, (find_nowhere _ arts (existsb_nowhere _ _ Hp)),
      (find_nowhere _ arts (existsb_nowhere _ _ Hl)).
    by destruct arts.
Qed.

Lemma status_links_from_spec (hrefs : list str) :
  forall seen : list (str * str),
  NoDup (status_links_from seen hrefs) /\
  forall sid href,
    (sid, href) ∈ status_links_from seen hrefs <->
    href ∈ hrefs /\ sid = Batch.extract_status_id href /\ sid <> [] /\
    (sid, href) ∉ seen.
Proof.
  induction hrefs as [|h hrefs IH]; intros seen.
  - split; [constructor|]. intros sid href. split.
    + by intros ?%elem_of_nil.
    + by intros [?%elem_of_nil _].
  - simpl. destruct (Batch.extract_status_id h) as [|d ds] eqn:Hid.
    + simpl. destruct (IH seen) as [Hnd Hin]. split; [done|].
      intros sid href. rewrite Hin. split.
      * intros (? & ? & ? & ?). split; [by right|done].
      * intros ([-> | ?]%elem_of_cons & Hs & Hne & ?); [congruence|done].
    + simpl negb. cbv iota. case_bool_decide as Hseen.
      * destruct (IH seen) as [Hnd Hin]. split; [done|].
        intros sid href. rewrite Hin. split.
        -- intros (? & ? & ? & ?). split; [by right|done].
        -- intros ([-> | ?]%elem_of_cons & Hs & Hne & Hns); [|done].
           rewrite Hid in Hs. by subst sid.
      * destruct (IH ((d :: ds, h) :: seen)) as [Hnd Hin]. split.
        -- apply NoDup_cons. split; [|done]. rewrite Hin.
           intros (_ & _ & _ & Hn). apply Hn. by left.
        -- intros sid href. rewrite elem_of_cons, Hin. split.
           ++ intros [[= -> ->] | (? & ? & ? & Hn)].
              ** split; [by left|]. by rewrite Hid.
              ** split; [by right|]. split; [done|]. split; [done|].
                 intros ?. apply Hn. by right.
           ++ intros (Hh & Hs & Hne & Hns).
              destruct (decide ((sid, href) = (d :: ds, h))) as [?|Hdiff]; [by left|].
              right. apply elem_of_cons in Hh as [-> | Hh].
              { rewrite Hid in Hs. by subst sid. }
              split; [done|]. split; [done|]. split; [done|].
              by intros [?|?]%elem_of_cons.
Qed.

(** The status links of an article are its links that carry a status id,
    each paired with that id and listed once, however often the article
    repeats it; a link without an id is left out. *)
Theorem article_status_links_distinct (art : article) :
  NoDup (_article_status_links art) /\
  (forall sid href,
     (sid, href) ∈ _article_status_links art <->
     href ∈ status_hrefs art /\ sid = Batch.extract_status_id href /\ sid <> []) /\
  (length (_article_status_links art) <= length (status_hrefs art))%nat.
Proof.
  unfold _article_status_links.
  destruct (status_links_from_spec (status_hrefs art) []) as [Hnd Hin].
  split; [done|]. split.
  - intros sid href. rewrite Hin. split; [by intros (? & ? & ? & _)|].
    intros (? & ? & ?). split; [done|]. split; [done|]. split; [done|].
    by intros ?%elem_of_nil.
  - clear Hnd Hin. generalize (@nil (str * str)).
    induction (status_hrefs art) as [|h hrefs IH];
      intros seen; [done|]. simpl.
    destruct (negb _); [specialize (IH seen); lia|].
    case_bool_decide; [specialize (IH seen); lia|].
    simpl. specialize (IH ((Batch.extract_status_id h, h) :: seen)). lia.
Qed.

(** *** Scrolling *)

Lemma retry_loop_step (status_id : str) (todo : nat) (pg : page) (last_err : option exn) :
  retry_loop (S todo) pg status_id last_err
  = match _find_target_article pg status_id with
    | Ok art => (Ok art, pg)
    | Raise e =>
      match todo with
      | O => (Raise e, pg)
      | S _ => retry_loop todo (mouse_wheel pg) status_id (Some e)
      end
    end.
Proof. reflexivity. Qed.

Lemma find_target_mounted (pg : page) (status_id : str) (art : article) :
  _find_target_article pg status_id = Ok art -> art ∈ mounted pg (position pg).
Proof.
  unfold _find_target_article. intros Hf.
  destruct (mounted pg (position pg)) as [|first rest] eqn:Hm; [done|].
  destruct (negb (nonempty status_id)).
  { injection Hf as <-. by left. }
  destruct (List.find (by_permalink status_id) (first :: rest)) as [x|] eqn:H1.
  { injection Hf as <-. apply find_some in H1 as [H1 _]. by apply list_elem_of_In. }
  destruct (List.find (by_any_link status_id) (first :: rest)) as [x|] eqn:H2; [|done].
  injection Hf as <-. apply find_some in H2 as [H2 _]. by apply list_elem_of_In.
Qed.

Lemma retry_loop_bounded (status_id : str) (todo : nat) :
  forall (pg : page) (last_err : option exn),
  let out := retry_loop todo pg status_id last_err in
  (exists k, (k <= todo - 1)%nat /\ wheels out.2 = (wheels pg + k)%nat /\
             position out.2 = (position pg + k)%nat) /\
  mounted out.2 = mounted pg /\
  (forall art, out.1 = Ok art ->
     _find_target_article out.2 status_id = Ok art /\
     art ∈ mounted pg (position out.2)).
Proof.
  induction todo as [|todo IH]; intros pg last_err; cbv zeta.
  - simpl. split; [exists O; lia|]. split; [done|]. by intros art H.
  - rewrite retry_loop_step.
    destruct (_find_target_article pg status_id) as [art|e] eqn:Hf.
    + simpl. split; [exists O; lia|]. split; [done|].
      intros a [= <-]. split; [done|]. by eapply find_target_mounted.
    + destruct todo as [|todo'].
      * simpl. split; [exists O; lia|]. split; [done|]. by intros art H.
      * specialize (IH (mouse_wheel pg) (Some e)). cbv zeta in IH.
        set (out := retry_loop (S todo') (mouse_wheel pg) status_id (Some e)) in *.
        destruct IH as ((k & Hk & Hw & Hp) & Hm & Hart).
        change (wheels (mouse_wheel pg)) with (S (wheels pg)) in *.
        change (position (mouse_wheel pg)) with (S (position pg)) in *.
        change (mounted (mouse_wheel pg)) with (mounted pg) in *.
        split; [exists (S k); lia|]. split; [done|]. exact Hart.
Qed.

(** Whatever the page shows, looking for the target turns the wheel at
    most seven times, once per position left behind from the top of the
    page, and an article that is returned is one of those mounted at the
    position where the search stops, found there by [_find_target_article]. *)
Theorem find_target_scrolls_at_most_seven (pg : page) (status_id : str) :
  let out := _find_target_article_with_retries pg status_id in
  (wheels pg <= wheels out.2 <= wheels pg + 7)%nat /\
  position out.2 = (wheels out.2 - wheels pg)%nat /\
  mounted out.2 = mounted pg /\
  (forall art, out.1 = Ok art ->
     _find_target_article out.2 status_id = Ok art /\
     art ∈ mounted pg (position out.2)).
Proof.
  intros out. unfold out, _find_target_article_with_retries, attempts.
  destruct (retry_loop_bounded status_id 8 (press_home pg) None)
    as ((k & Hk & Hw & Hp) & Hm & Hart).
  set (res := retry_loop 8 (press_home pg) status_id None) in *.
  change (wheels (press_home pg)) with (wheels pg) in Hw.
  change (position (press_home pg)) with O in Hp.
  change (mounted (press_home pg)) with (mounted pg) in Hm, Hart.
  split; [lia|]. split; [lia|]. split; [done|]. exact Hart.
Qed.

End TargetFacts.

(** ** The articles collected from a page *)

Module FeedFacts.

Import Str StrFacts Feed.

Section Facts.

Variable node : Type.
Variable _extract_article : node -> post.

Lemma ids_of_cons (d : post) (items : list post) :
  ids_of (d :: items)
  = if nonempty (p_status_id d) then p_status_id d :: ids_of items else ids_of items.
Proof. reflexivity. Qed.

Lemma collect_loop_spec (nodes : list node) :
  forall seen : list str,
  let items := collect_loop node _extract_article seen nodes in
  NoDup (ids_of items) /\
  (forall sid, sid ∈ ids_of items -> sid ∉ seen) /\
  Forall (fun d => p_status_id d <> [] \/ p_text d <> []) items /\
  items `sublist_of` map _extract_article nodes /\
  (forall n, n ∈ nodes -> p_status_id (_extract_article n) <> [] ->
     p_status_id (_extract_article n) ∈ seen \/ p_status_id (_extract_article n) ∈ ids_of items) /\
  (forall n, n ∈ nodes -> p_status_id (_extract_article n) = [] -> p_text (_extract_article n) <> [] ->
     _extract_article n ∈ items).
Proof.
  induction nodes as [|n nodes IH]; intros seen; cbv zeta.
  - simpl. split; [constructor|]. split; [by intros ? ?%elem_of_nil|].
    split; [done|]. split; [done|]. split; by intros ? ?%elem_of_nil.
  - simpl. destruct (p_status_id (_extract_article n)) as [|c sid] eqn:Hid.
    + simpl nonempty. cbv iota.
      destruct (p_text (_extract_article n)) as [|t txt] eqn:Htxt; simpl negb; cbv iota.
      * destruct (IH seen) as (Hnd & Hfresh & Hall & Hsub & Hids & Hkeep).
        split; [done|]. split; [done|]. split; [done|].
        split; [by apply sublist_cons|]. split.
        -- intros m [-> | Hm]%elem_of_cons Hne; [congruence|by apply Hids].
        -- intros m [-> | Hm]%elem_of_cons He Ht; [congruence|by apply Hkeep].
      * destruct (IH seen) as (Hnd & Hfresh & Hall & Hsub & Hids & Hkeep).
        rewrite ids_of_cons, Hid. simpl nonempty. cbv iota.
        split; [done|]. split; [done|]. split.
        { apply Forall_cons. split; [|done]. right. by rewrite Htxt. }
        split; [by apply sublist_skip|]. split.
        -- intros m [-> | Hm]%elem_of_cons Hne; [congruence|by apply Hids].
        -- intros m [-> | Hm]%elem_of_cons He Ht; [by left|]. right. by apply Hkeep.
    + simpl nonempty. cbv iota. case_bool_decide as Hseen.
      * destruct (IH seen) as (Hnd & Hfresh & Hall & Hsub & Hids & Hkeep).
        split; [done|]. split; [done|]. split; [done|].
        split; [by apply sublist_cons|]. split.
        -- intros m [-> | Hm]%elem_of_cons Hne; [left; by rewrite Hid|by apply Hids].
        -- intros m [-> | Hm]%elem_of_cons He Ht; [congruence|by apply Hkeep].
      * destruct (IH ((c :: sid) :: seen)) as (Hnd & Hfresh & Hall & Hsub & Hids & Hkeep).
        rewrite ids_of_cons, Hid. simpl nonempty. cbv iota.
        split.
        { apply NoDup_cons. split; [|done]. intros Hin. apply (Hfresh _ Hin). by left. }
        split.
        { intros s [-> | Hs]%elem_of_cons; [done|].
          intros Hin. apply (Hfresh _ Hs). by right. }
        split.
        { apply Forall_cons. split; [|done]. left. by rewrite Hid. }
        split; [by apply sublist_skip|]. split.
        -- intros m [-> | Hm]%elem_of_cons Hne.
           ++ right. rewrite Hid. by left.
           ++ destruct (Hids m Hm Hne) as [[Heq | Hs]%elem_of_cons | Hi].
              ** right. rewrite Heq. by left.
              ** by left.
              ** right. by right.
        -- intros m [-> | Hm]%elem_of_cons He Ht; [congruence|]. right. by apply Hkeep.
Qed.

(** The articles collected from a page come from its first [max_articles]
    nodes, in their order. No status id is collected twice, and every id
    found among those nodes is collected once; a node without an id is
    kept exactly when it has text. *)
Theorem collect_articles_dedup (articles : list node) (max_articles : Z) :
  let items := _collect_articles node _extract_article articles max_articles in
  let visited := take (Z.to_nat max_articles) articles in
  NoDup (ids_of items) /\
  Forall (fun d => p_status_id d <> [] \/ p_text d <> []) items /\
  items `sublist_of` map _extract_article visited /\
  (Z.of_nat (length items) <= Z.max 0 max_articles)%Z /\
  (forall n, n ∈ visited -> p_status_id (_extract_article n) <> [] ->
     p_status_id (_extract_article n) ∈ ids_of items) /\
  (forall n, n ∈ visited -> p_status_id (_extract_article n) = [] -> p_text (_extract_article n) <> [] ->
     _extract_article n ∈ items).
Proof.
  intros items visited.
  assert (Hv : take (Z.to_nat (Z.min (Z.of_nat (length articles)) max_articles)) articles
               = visited).
  { unfold visited. destruct (Z.le_ge_cases (Z.of_nat (length articles)) max_articles).
    - rewrite Z.min_l by done. rewrite Nat2Z.id.
      rewrite !take_ge by lia. done.
    - by rewrite Z.min_r. }
  unfold items, _collect_articles. rewrite Hv.
  destruct (collect_loop_spec visited []) as (Hnd & _ & Hall & Hsub & Hids & Hkeep).
  split; [done|]. split; [done|]. split; [done|]. split.
  - apply sublist_length in Hsub. rewrite length_map in Hsub.
    assert (Hlen : (length visited <= Z.to_nat max_articles)%nat)
      by (unfold visited; rewrite length_take; lia).
    lia.
  - split; [|done]. intros n Hn Hne.
    destruct (Hids n Hn Hne) as [?%elem_of_nil|?]; done.
Qed.

End Facts.

End FeedFacts.

(** ** Author handles *)

Module HandleFacts.

Import Str StrFacts Handle.

Lemma take_word_length (n : nat) (s : str) : (length (take_word n s) <= n)%nat.
Proof.
  revert s. induction n as [|n IH]; intros [|c s]; simpl; try lia.
  destruct (is_word c); simpl; [specialize (IH s)|]; lia.
Qed.

Lemma take_word_word (n : nat) (s : str) : forallb is_word (take_word n s) = true.
Proof.
  revert s. induction n as [|n IH]; intros [|c s]; simpl; try done.
  destruct (is_word c) eqn:Hc; [|done]. simpl. by rewrite Hc, IH.
Qed.

Lemma take_word_none (n : nat) (c : char) (s : str) :
  is_word c = true -> take_word (S n) (c :: s) <> [].
Proof. intros Hc. simpl. by rewrite Hc. Qed.

Lemma take_word_app (n : nat) (name rest : str) :
  (length name <= n)%nat -> forallb is_word name = true ->
  length name = n \/ match rest with c :: _ => is_word c = false | [] => True end ->
  take_word n (name ++ rest) = name.
Proof.
  revert n. induction name as [|c name IH]; intros n Hlen Hw Hend.
  - destruct n as [|n]; [by destruct rest|]. destruct rest as [|c rest]; [done|].
    simpl. destruct Hend as [?|Hc]; [done|]. by rewrite Hc.
  - destruct n as [|n]; [simpl in Hlen; lia|]. simpl in *.
    apply andb_true_iff in Hw as [Hc Hw]. rewrite Hc. f_equal.
    apply IH; [lia|done|]. destruct Hend as [?|?]; [left; lia|by right].
Qed.

Lemma lower_word (c : char) :
  is_word c = true ->
  is_word (lower_char c) = true /\ lower_char (lower_char c) = lower_char c /\
  negb ((65 <=? lower_char c) && (lower_char c <=? 90)) = true.
Proof.
  unfold is_word, lower_char, isdigit. intros H.
  destruct ((65 <=? c) && (c <=? 90)) eqn:Hu.
  - apply andb_true_iff in Hu as [H1%N.leb_le H2%N.leb_le].
    assert (Hl : (97 <=? c + 32) && (c + 32 <=? 122) = true)
      by (apply andb_true_iff; split; apply N.leb_le; lia).
    assert (Hn : (65 <=? c + 32) && (c + 32 <=? 90) = false).
    { apply andb_false_iff. right. apply N.leb_gt. lia. }
    rewrite Hl, Hn. simpl. done.
  - rewrite Hu. by rewrite H.
Qed.

Lemma extract_handle_cons (c : char) (rest : str) :
  _extract_handle (c :: rest)
  = if c =? 64 then
      match take_word 15 rest with
      | [] => _extract_handle rest
      | w => lower w
      end
    else _extract_handle rest.
Proof. reflexivity. Qed.

(** A handle has at most 15 characters, each a lower-case letter, a digit
    or "_", and is empty exactly when no "@" of the text is followed by a
    letter, digit or "_". After the first "@", a name of up to 15 such
    characters is read up to its end and returned in lower case. *)
Theorem extract_handle_shape (user_text : str) :
  let h := _extract_handle user_text in
  (length h <= 15)%nat /\
  Forall (fun c => is_word c = true /\ lower_char c = c) h /\
  (h = [] <->
   forall (pre : str) (c : char) (rest : str),
     is_word c = true -> user_text <> pre ++ 64 :: c :: rest) /\
  (forall pre name rest : str,
     user_text = pre ++ 64 :: name ++ rest ->
     64 ∉ pre -> name <> [] -> (length name <= 15)%nat ->
     forallb is_word name = true ->
     length name = 15%nat \/ match rest with c :: _ => is_word c = false | [] => True end ->
     h = lower name).
Proof.
  cbv zeta.
  assert (Hlow : forall w : str, forallb is_word w = true ->
            Forall (fun c => is_word c = true /\ lower_char c = c) (lower w)).
  { intros w Hw. unfold lower. apply Forall_forall.
    intros c (d & -> & Hd%list_elem_of_In)%list_elem_of_fmap.
    rewrite forallb_forall in Hw. specialize (Hw d Hd).
    destruct (lower_word d Hw) as (H1 & H2 & _). done. }
  split; [|split; [|split]].
  - induction user_text as [|c rest IH]; [simpl; lia|]. rewrite extract_handle_cons.
    destruct (c =? 64); [|done].
    pose proof (take_word_length 15 rest) as Hl.
    destruct (take_word 15 rest) as [|w0 w] eqn:Hw; [done|].
    unfold lower. by rewrite length_map.
  - induction user_text as [|c rest IH]; [done|]. rewrite extract_handle_cons.
    destruct (c =? 64); [|done].
    pose proof (take_word_word 15 rest) as Hw.
    destruct (take_word 15 rest) as [|w0 w]; [done|]. by apply Hlow.
  - induction user_text as [|c rest [IH1 IH2]].
    + split; [|done]. intros _ pre d rest' _ H. by destruct pre.
    + rewrite extract_handle_cons. destruct (N.eqb_spec c 64) as [-> | Hc].
      * destruct (take_word 15 rest) as [|w0 w] eqn:Hw.
        -- split.
           ++ intros He pre d rest' Hd Hu. destruct pre as [|p pre].
              ** injection Hu as ->. by apply (take_word_none 14 d rest').
              ** injection Hu as <- Hu. by apply (IH1 He pre d rest').
           ++ intros Hno. apply IH2. intros pre d rest' Hd ->.
              by apply (Hno (64 :: pre) d rest').
        -- split; [done|]. intros Hno. exfalso.
           destruct rest as [|d rest']; [done|].
           destruct (is_word d) eqn:Hd.
           ++ by apply (Hno [] d rest').
           ++ change (take_word 15 (d :: rest'))
                with (if is_word d then d :: take_word 14 rest' else []) in Hw.
              by rewrite Hd in Hw.
      * split.
        -- intros He pre d rest' Hd Hu. destruct pre as [|p pre].
           ++ injection Hu as ->. done.
           ++ injection Hu as -> Hu. by apply (IH1 He pre d rest').
        -- intros Hno. apply IH2. intros pre d rest' Hd ->.
           by apply (Hno (c :: pre) d rest').
  - intros pre name rest -> Hpre Hne Hlen Hw Hend.
    induction pre as [|p pre IH].
    + rewrite app_nil_l, extract_handle_cons. rewrite N.eqb_refl.
      rewrite take_word_app by done. by destruct name.
    + apply not_elem_of_cons in Hpre as [Hp Hpre].
      rewrite <- app_comm_cons, extract_handle_cons.
      destruct (N.eqb_spec p 64) as [-> | _]; [done|]. by apply IH.
Qed.

End HandleFacts.

(** ** The command of the second capture run *)

Module RetryCommand.

Import Str StrFacts Analyze.

Lemma format_d_not_flag (n : Z) : PyInt.format_d n <> py "--headless".
Proof.
  unfold PyInt.format_d. py_eval.
  pose proof (PyIntFacts.uint_chars_digits (N.to_uint (Z.abs_N n))) as Hd.
  destruct (n <? 0)%Z; intros H.
  - injection H as H. rewrite H in Hd. simpl in Hd. done.
  - rewrite H in Hd. simpl in Hd. done.
Qed.

Lemma filter_all {A : Type} (P : A -> Prop) `{forall x, Decision (P x)} (l : list A) :
  Forall P l -> filter P l = l.
Proof.
  induction 1 as [|x l Hx _ IH]; [done|]. rewrite filter_cons_True by done. by rewrite IH.
Qed.

Section Facts.

Variable executable : str.
Variable path_exists : str -> bool.
Variable child : nat -> list str -> Z * str.

Lemma retry_cmd_headed (status url browser proxy cookie_file : str) (timeout_ms : Z) :
  executable <> py "--headless" -> url <> py "--headless" ->
  browser <> py "--headless" -> strip proxy <> py "--headless" ->
  strip cookie_file <> py "--headless" ->
  filter (fun c => c <> py "--headless")
         (capture_cmd executable path_exists status url browser proxy cookie_file
                      timeout_ms true)
  = capture_cmd executable path_exists status url browser proxy cookie_file timeout_ms false.
Proof.
  intros He Hu Hb Hp Hc. unfold capture_cmd.
  rewrite !filter_app.
  rewrite (filter_cons_False _ (py "--headless") []) by (intros Hn; by apply Hn).
  rewrite filter_nil, !app_nil_l. f_equal; [|f_equal].
  - apply filter_all.
    repeat (apply Forall_cons; split); try done; apply format_d_not_flag.
  - apply filter_all. destruct (nonempty (strip proxy)); [|done].
    repeat (apply Forall_cons; split); done.
  - apply filter_all.
    destruct (nonempty (strip cookie_file) && path_exists (strip cookie_file)); [|done].
    repeat (apply Forall_cons; split); done.
Qed.


End Facts.


End RetryCommand.

(** ** The items of a generated queue *)

Module GenerateFacts.

Import Str StrFacts Queue Generate.

Lemma truncate_bound (text : str) :
  text <> [] -> truncate text 280 <> [] /\ (length (truncate text 280) <= 280)%nat.
Proof.
  intros Hne. unfold truncate.
  destruct (Z.leb_spec (Z.of_nat (length text)) 280) as [Hle|Hlt].
  - split; [done|lia].
  - rewrite DraftsFacts.py_take_nonneg by lia. split.
    + intros [_ ?]%app_eq_nil. done.
    + rewrite length_app, length_take. cbn [length]. lia.
Qed.

Lemma fallback_text_bound (item : SeedItem) (lang : str) :
  fallback_text item lang <> [] /\ (length (fallback_text item lang) <= 280)%nat.
Proof.
  unfold fallback_text. cbv zeta.
  repeat match goal with
  | |- context [if eqb ?a ?b then _ else _] => destruct (eqb a b)
  end; apply truncate_bound; py_eval; done.
Qed.

Section Facts.

Variable render_with_llm : str -> SeedItem -> str.

Lemma build_item_fields (idx : nat) (seed : SeedItem) :
  let it := build_item render_with_llm idx seed in
  item_id it = (Z.of_nat idx + 1)%Z /\ status it = py "pending" /\
  type it = seed_section seed /\ source it = seed_url seed /\ note it = seed_note seed /\
  lang it = (if (S idx mod 6 =? 0)%nat then py "en" else py "zh") /\
  text it <> [] /\
  (render_with_llm (seed_section seed) seed = [] -> (length (text it) <= 280)%nat).
Proof.
  cbv zeta. unfold build_item. cbn [item_id status type source note lang text].
  split; [done|]. split; [done|]. split; [done|]. split; [done|]. split; [done|].
  assert (Hlang : (if ((Z.of_nat idx + 1) mod 6 =? 0)%Z then py "en" else py "zh")
                  = (if (S idx mod 6 =? 0)%nat then py "en" else py "zh")).
  { destruct (Z.eqb_spec ((Z.of_nat idx + 1) mod 6) 0) as [Hz|Hz];
      destruct (Nat.eqb_spec (S idx mod 6) 0) as [Hn|Hn]; try done; exfalso.
    - apply Hn. apply Nat2Z.inj. rewrite Nat2Z.inj_mod.
      replace (Z.of_nat (S idx)) with (Z.of_nat idx + 1)%Z by lia. exact Hz.
    - apply Hz. apply (f_equal Z.of_nat) in Hn. rewrite Nat2Z.inj_mod in Hn.
      replace (Z.of_nat (S idx)) with (Z.of_nat idx + 1)%Z in Hn by lia. exact Hn. }
  split; [exact Hlang|].
  set (lg := if ((Z.of_nat idx + 1) mod 6 =? 0)%Z then py "en" else py "zh").
  set (llm := if eqb (seed_section seed) (py "ai_hotspot") then
                render_with_llm (py "ai_hotspot") seed
              else if eqb (seed_section seed) (py "openclaw") then
                render_with_llm (py "openclaw") seed
              else if eqb (seed_section seed) (py "github_trending") then
                render_with_llm (py "github_trending") seed
              else []).
  destruct (fallback_text_bound seed lg) as [Hne Hlen].
  assert (Hllm : render_with_llm (seed_section seed) seed = [] -> llm = []).
  { intros He. unfold llm.
    repeat match goal with
    | |- context [if eqb ?a ?b then _ else _] =>
      let H := fresh in destruct (eqb a b) eqn:H; [apply eqb_eq in H; by rewrite <- H|]
    end. done. }
  split.
  - destruct llm as [|c l]; [exact Hne|done].
  - intros He. rewrite (Hllm He). exact Hlen.
Qed.

(** The generated items are numbered 1, 2, 3, ... in the order of the
    seeds, so no id occurs twice; all are pending, every sixth is English
    and the others Chinese, none has an empty text, and type, source and
    note are those of the seed. A text that does not come from the language
    model has at most 280 characters. With a limit that is not negative
    there are at most that many items. *)
Theorem build_items_numbered (sections : gmap str (list SeedItem)) (limit : Z) :
  let seeds := Drafts.py_take limit (merged sections) in
  let items := build_items render_with_llm sections limit in
  length items = length seeds /\
  map item_id items = map (fun i => Z.of_nat i + 1)%Z (seq 0 (length items)) /\
  NoDup (map item_id items) /\
  (forall i it seed, items !! i = Some it -> seeds !! i = Some seed ->
     status it = py "pending" /\ text it <> [] /\
     lang it = (if (S i mod 6 =? 0)%nat then py "en" else py "zh") /\
     type it = seed_section seed /\ source it = seed_url seed /\ note it = seed_note seed /\
     (render_with_llm (seed_section seed) seed = [] -> (length (text it) <= 280)%nat)) /\
  ((0 <= limit)%Z -> (Z.of_nat (length items) <= limit)%Z).
Proof.
  intros seeds items.
  assert (Hitems : items = imap (build_item render_with_llm) seeds).
  { unfold items, build_items, seeds. destruct (merged sections) as [|s0 ss] eqn:Hm; [|done].
    unfold Drafts.py_take. destruct (0 <=? limit)%Z; by rewrite take_nil. }
  assert (Hlen : length items = length seeds) by (rewrite Hitems; apply length_imap).
  assert (Hids : map item_id items = map (fun i => Z.of_nat i + 1)%Z (seq 0 (length items))).
  { apply list_eq. intros i.
    change (map item_id items) with (item_id <$> items).
    change (map ?f (seq 0 ?n)) with (f <$> seq 0 n).
    rewrite !list_lookup_fmap, Hitems, list_lookup_imap, length_imap.
    destruct (seeds !! i) as [seed|] eqn:Hs.
    - rewrite lookup_seq_lt by (by eapply lookup_lt_Some). done.
    - rewrite lookup_seq_ge by (by apply lookup_ge_None). done. }
  split; [done|]. split; [done|]. split; [|split].
  - rewrite Hids. apply NoDup_fmap_2; [|apply NoDup_seq]. intros a b H. lia.
  - intros i it seed Hit Hseed. rewrite Hitems, list_lookup_imap, Hseed in Hit.
    injection Hit as <-.
    destruct (build_item_fields i seed) as (_ & H1 & H2 & H3 & H4 & H5 & H6 & H7). done.
  - intros Hl. rewrite Hlen. unfold seeds.
    rewrite DraftsFacts.py_take_nonneg, length_take by done. lia.
Qed.

End Facts.

End GenerateFacts.

(** ** Chunks are filled before a new one starts *)

Module ChunkFacts.

Import Str Batch ChunkOrder.

Lemma greedy_snoc (max_chars : nat) (gs : list (list str)) (g : list str) (line : str) :
  greedy max_chars (gs ++ [g]) ->
  (max_chars < weight g + (length line + 1))%nat ->
  greedy max_chars ((gs ++ [g]) ++ [[line]]).
Proof.
  intros Hg Hw. induction gs as [|a gs IH].
  - simpl. done.
  - simpl in *. destruct Hg as [Ha Hg]. split; [|by apply IH].
    destruct gs as [|b gs]; simpl in *; done.
Qed.

Lemma greedy_grow (max_chars : nat) (gs : list (list str)) (b : list str) (line : str) :
  b <> [] -> greedy max_chars (gs ++ [b]) -> greedy max_chars (gs ++ [b ++ [line]]).
Proof.
  intros Hb Hg. induction gs as [|a gs IH].
  - simpl. done.
  - simpl in *. destruct Hg as [Ha Hg]. split; [|by apply IH].
    destruct gs as [|c gs]; simpl in *; [|done].
    destruct b; [done|]. done.
Qed.

Lemma greedy_step (max_chars : nat) (done : list str) (st : cstate) (line : str) :
  greedy_inv max_chars done st ->
  greedy_inv max_chars (done ++ [line]) (chunk_step max_chars st line).
Proof.
  intros (groups & Hc & Hd & Hne & Hsz & Hnil & Hg). unfold chunk_step, open_group in *.
  destruct ((max_chars <? size st + (length line + 1))%nat && has_lines (buf st)) eqn:Hcond.
  - apply andb_true_iff in Hcond as [Hover%Nat.ltb_lt Hbuf].
    assert (Hbne : buf st <> []) by (destruct (buf st); done).
    rewrite Hbuf in Hg.
    exists (groups ++ [buf st]). cbn [chunks buf size has_lines].
    split; [by rewrite map_app, Hc|]. split.
    { rewrite concat_app. simpl. by rewrite app_nil_r, Hd. }
    split; [apply Forall_app; split; [done|by apply Forall_singleton]|].
    split; [simpl; lia|]. split; [done|].
    apply greedy_snoc; [done|]. lia.
  - exists groups. cbn [chunks buf size].
    split; [done|]. split; [by rewrite app_assoc, Hd|]. split; [done|].
    split; [by rewrite Chunking.weight_snoc, Hsz|].
    split; [by destruct (buf st)|].
    assert (Hhas : has_lines (buf st ++ [line]) = true) by (by destruct (buf st)).
    unfold open_group. cbn [buf]. rewrite Hhas. destruct (buf st) as [|l b] eqn:Hb.
    + rewrite (Hnil eq_refl). simpl. done.
    + simpl has_lines in Hg. cbv iota in Hg. by apply greedy_grow.
Qed.

Lemma greedy_loop (max_chars : nat) (lines : list str) :
  forall (done : list str) (st : cstate),
  greedy_inv max_chars done st ->
  greedy_inv max_chars (done ++ lines) (foldl (chunk_step max_chars) st lines).
Proof.
  induction lines as [|l lines IH]; intros done st Hinv; simpl.
  - by rewrite app_nil_r.
  - replace (done ++ l :: lines) with ((done ++ [l]) ++ lines)
      by (rewrite <- app_assoc; reflexivity).
    apply IH, greedy_step, Hinv.
Qed.

Lemma greedy_lookup (max_chars : nat) (groups : list (list str)) :
  greedy max_chars groups -> Forall (fun g => g <> []) groups ->
  forall (i : nat) (g h : list str),
  groups !! i = Some g -> groups !! S i = Some h ->
  exists l, head h = Some l /\ (max_chars < weight g + (length l + 1))%nat.
Proof.
  induction groups as [|a gs IH]; intros Hg Hne i g h Hi Hh; [done|].
  apply Forall_cons in Hne as [_ Hne]. simpl in Hg. destruct Hg as [Ha Hg].
  destruct i as [|i].
  - simpl in Hi, Hh. injection Hi as ->. destruct gs as [|b gs]; [done|].
    simpl in Hh. injection Hh as ->. apply Forall_cons in Hne as [Hb _].
    destruct h as [|l h]; [done|]. exists l. done.
  - by apply (IH Hg Hne i).
Qed.

Lemma weight_app (a b : list str) : weight (a ++ b) = (weight a + weight b)%nat.
Proof. induction a as [|p a IH]; simpl; [done|]. rewrite IH. lia. Qed.

(** A new chunk starts only with a line that did not fit into the chunk
    before it: that chunk, a line break, the line and one more character
    would exceed the cap. So a text that is shorter than the cap, with its
    lines joined by line breaks, stays in one chunk. *)
Theorem chunk_text_fills_chunks (text : str) (max_chars : nat) :
  (exists groups : list (list str),
     chunk_text text max_chars = map (join NL) groups /\
     concat groups = splitlines text /\
     Forall (fun g => g <> []) groups /\
     forall (i : nat) (g h : list str),
       groups !! i = Some g -> groups !! S i = Some h ->
       exists l, head h = Some l /\
         (max_chars < length (join NL g) + 1 + (length l + 1))%nat) /\
  (splitlines text <> [] ->
   (length (join NL (splitlines text)) < max_chars)%nat ->
   chunk_text text max_chars = [join NL (splitlines text)]) /\
  (splitlines text = [] -> chunk_text text max_chars = []).
Proof.
  assert (H0 : greedy_inv max_chars [] chunk_init).
  { exists []. simpl. done. }
  destruct (greedy_loop max_chars (splitlines text) [] chunk_init H0)
    as (groups & Hc & Hd & Hne & Hsz & Hnil & Hg).
  simpl in Hd.
  set (st := foldl (chunk_step max_chars) chunk_init (splitlines text)) in *.
  set (all := groups ++ open_group st).
  assert (Hall : chunk_text text max_chars = map (join NL) all /\
                 concat all = splitlines text /\ Forall (fun g => g <> []) all).
  { unfold chunk_text, chunk_finish, all, open_group. fold st.
    destruct (has_lines (buf st)) eqn:Hb.
    - split; [by rewrite map_app, Hc|]. split.
      + rewrite concat_app. simpl. by rewrite app_nil_r.
      + apply Forall_app. split; [done|]. apply Forall_singleton. by destruct (buf st).
    - rewrite !app_nil_r. split; [done|]. split; [|done].
      destruct (buf st); [by rewrite app_nil_r in Hd|done]. }
  destruct Hall as (Ht & Hcat & Hallne).
  assert (Hpairs : forall (i : nat) (g h : list str),
            all !! i = Some g -> all !! S i = Some h ->
            exists l, head h = Some l /\
              (max_chars < length (join NL g) + 1 + (length l + 1))%nat).
  { intros i g h Hi Hh.
    destruct (greedy_lookup max_chars all Hg Hallne i g h Hi Hh) as (l & Hl & Hw).
    exists l. split; [done|].
    assert (Hgne : g <> []).
    { rewrite Forall_forall in Hallne. apply Hallne. by eapply list_elem_of_lookup_2. }
    rewrite (Chunking.join_length g Hgne). exact Hw. }
  split; [by exists all|]. split.
  - intros Hlines Hfit. rewrite Ht. destruct all as [|g [|h rest]] eqn:Ha.
    + simpl in Hcat. congruence.
    + simpl in Hcat. rewrite app_nil_r in Hcat. by rewrite Hcat.
    + exfalso. destruct (Hpairs O g h eq_refl eq_refl) as (l & Hl & Hw).
      apply Forall_cons in Hallne as [Hgne [Hhne _]%Forall_cons].
      pose proof (Chunking.join_length (splitlines text) Hlines) as Hj.
      rewrite <- Hcat in Hj at 2. simpl concat in Hj. rewrite !weight_app in Hj.
      pose proof (Chunking.join_length g Hgne) as Hjg.
      destruct h as [|l' h]; [done|]. simpl in Hl. injection Hl as ->.
      simpl weight in Hj. lia.
  - intros Hlines. rewrite Ht. destruct all as [|g rest]; [done|].
    apply Forall_cons in Hallne as [Hgne _]. simpl in Hcat. rewrite Hlines in Hcat.
    by apply app_eq_nil in Hcat as [-> _].
Qed.

End ChunkFacts.

(** ** Reading back what the publisher wrote *)

Module PublishFacts.

Import Str StrFacts Queue QueueView Drafts.

(** *** Stripped texts *)

Lemma rstrip_fixed (s : str) (d : char) :
  last s = Some d -> isspace d = false -> rstrip s = s.
Proof.
  induction s as [|c s IH]; intros Hl Hd; [done|].
  rewrite BatchFacts.rstrip_cons. destruct s as [|c' s].
  - simpl in *. injection Hl as ->. by rewrite Hd.
  - rewrite last_cons_cons in Hl. by rewrite (IH Hl Hd).
Qed.

Lemma strip_strip (s : str) : strip (strip s) = strip s.
Proof.
  destruct (BatchFacts.strip_ends s) as [-> | (c & d & Hc & Hd & Hcs & Hds)]; [done|].
  destruct (strip s) as [|c' r] eqn:Hr; [done|]. simpl in Hc. injection Hc as ->.
  unfold strip at 1. simpl lstrip. rewrite Hcs. by apply (rstrip_fixed _ d).
Qed.

Lemma strip_one_line (s : str) : one_line s = true -> one_line (strip s) = true.
Proof. intros H. by apply BatchFacts.rstrip_one_line, BatchFacts.lstrip_one_line. Qed.

Lemma lstrip_subset (s : str) (c : char) : c ∈ lstrip s -> c ∈ s.
Proof.
  induction s as [|d s IH]; [done|]. simpl. destruct (isspace d); [|done].
  intros H. right. by apply IH.
Qed.

Lemma rstrip_subset (s : str) (c : char) : c ∈ rstrip s -> c ∈ s.
Proof.
  induction s as [|d s IH]; [done|]. rewrite BatchFacts.rstrip_cons.
  destruct (rstrip s) as [|r0 r].
  - destruct (isspace d); [by intros ?%elem_of_nil|].
    intros ->%list_elem_of_singleton. by left.
  - intros [-> | H]%elem_of_cons; [by left|]. right. by apply IH.
Qed.

Lemma strip_subset (s : str) (c : char) : c ∈ strip s -> c ∈ s.
Proof. intros H. by apply lstrip_subset, rstrip_subset. Qed.

Lemma one_line_subset (s t : str) :
  (forall c, c ∈ s -> c ∈ t) -> one_line t = true -> one_line s = true.
Proof.
  unfold one_line. rewrite !forallb_forall. intros Hsub Ht c Hc%list_elem_of_In.
  apply Ht, list_elem_of_In, Hsub, Hc.
Qed.

Lemma split_once_parts (sep : char) (s k v : str) :
  split_once sep s = Some (k, v) -> s = k ++ sep :: v.
Proof.
  revert k. induction s as [|c s IH]; intros k H; [done|]. simpl in H.
  destruct (N.eqb_spec c sep) as [-> | _].
  - by injection H as <- <-.
  - destruct (split_once sep s) as [[k' v']|]; [|done]. injection H as <- <-.
    simpl. f_equal. by apply IH.
Qed.

Lemma find_one_first (c : char) (s : str) (j : nat) :
  find [c] s = Some j -> c ∉ take j s.
Proof.
  revert j. induction s as [|d s IH]; intros j H.
  - by rewrite take_nil; intros ?%elem_of_nil.
  - rewrite KnowledgeBaseRuns.find_cons in H. simpl startswith in H.
    rewrite andb_true_r in H. destruct (N.eqb_spec c d) as [-> | Hcd].
    + injection H as <-. by intros ?%elem_of_nil.
    + destruct (find [c] s) as [j'|] eqn:Hf; [|done]. injection H as <-.
      simpl. intros [? | Hin]%elem_of_cons; [done|]. by apply (IH j').
Qed.

Lemma slice_subset (s : str) (a b : nat) (c : char) :
  c ∈ slice s a b -> c ∈ take b s.
Proof.
  unfold slice. intros (i & Hi & Hlt)%elem_of_take.
  rewrite lookup_drop in Hi. apply elem_of_take. exists (a + i)%nat. split; [done|lia].
Qed.

Lemma marker_status_plain (line : str) :
  one_line line = true -> plain_status (marker_status line) = true.
Proof.
  intros Hone. unfold marker_status.
  destruct (find (py "[") line) as [i|]; [|by vm_compute].
  destruct (find (py "]") line) as [j|] eqn:Hj; [|by vm_compute].
  unfold plain_status, plain_field. rewrite strip_strip, eqb_refl, andb_true_r.
  apply andb_true_iff. split.
  - apply strip_one_line. eapply one_line_subset; [|exact Hone].
    intros c Hc%slice_subset. apply elem_of_take in Hc as (k & Hk & _).
    by eapply list_elem_of_lookup_2.
  - apply negb_true_iff, not_true_is_false. intros (x & Hin & Hx)%existsb_exists.
    apply N.eqb_eq in Hx as <-. apply list_elem_of_In, strip_subset, slice_subset in Hin.
    by apply (find_one_first 93 line j).
Qed.

(** *** Lines of a body *)

Lemma splitlines_single (l : str) :
  one_line l = true -> splitlines l = if nonempty l then [l] else [].
Proof.
  induction l as [|c l IH]; intros H; [done|]. simpl in H.
  apply andb_true_iff in H as [Hc Hl]. apply negb_true_iff in Hc.
  rewrite splitlines_char by done. rewrite (IH Hl). by destruct l.
Qed.

Lemma splitlines_join_members (ls : list str) (l : str) :
  forallb one_line ls = true -> l ∈ splitlines (join NL ls) -> l ∈ ls.
Proof.
  induction ls as [|a ls IH]; intros Hall Hin; [done|].
  simpl in Hall. apply andb_true_iff in Hall as [Ha Hls].
  destruct ls as [|b ls].
  - simpl in Hin. rewrite splitlines_single in Hin by done.
    destruct (nonempty a); [|by apply elem_of_nil in Hin].
    apply list_elem_of_singleton in Hin as ->. by left.
  - rewrite Chunking.join_cons in Hin by done. rewrite splitlines_line in Hin by done.
    apply elem_of_cons in Hin as [-> | Hin]; [by left|]. right. by apply IH.
Qed.

Lemma body_ok_lines (ls : list str) :
  forallb body_line_ok ls = true ->
  forallb (fun l => negb (is_marker l)) (splitlines (join NL ls)) = true.
Proof.
  intros Hall. apply forallb_forall. intros l Hl%list_elem_of_In.
  assert (Hone : forallb one_line ls = true).
  { apply forallb_forall. intros x Hx. rewrite forallb_forall in Hall.
    specialize (Hall x Hx). unfold body_line_ok in Hall.
    by apply andb_true_iff in Hall as [? _]. }
  apply splitlines_join_members in Hl; [|done].
  rewrite forallb_forall in Hall. specialize (Hall l (proj1 (list_elem_of_In _ _) Hl)).
  unfold body_line_ok in Hall. by apply andb_true_iff in Hall as [_ ?].
Qed.

(** *** What the parser keeps true *)

Lemma set_field_fields (it : QueueItem) (key value : str) :
  one_line value = true ->
  one_line (type it) = true -> one_line (lang it) = true ->
  one_line (source it) = true -> one_line (note it) = true ->
  let it' := set_field it key value in
  status it' = status it /\ text it' = text it /\
  one_line (type it') = true /\ one_line (lang it') = true /\
  one_line (source it') = true /\ one_line (note it') = true.
Proof.
  intros Hv H1 H2 H3 H4. cbv zeta. unfold set_field.
  repeat match goal with
  | |- context [if eqb ?a ?b then _ else _] => destruct (eqb a b)
  end; done.
Qed.

Lemma step_inv (st st' : pstate) (line : str) :
  one_line line = true -> parse_inv st -> step st line = Ok st' -> parse_inv st'.
Proof.
  intros Hone (Hits & Hhd & Hcur). unfold step.
  destruct (startswith (py "## Item ") line) eqn:Hm.
  - destruct (marker_id line) as [n|e]; simpl; [|done]. intros [= <-].
    unfold parse_inv. cbn [items header_lines current status type lang source note text].
    split; [|split; [done|]].
    + unfold flush_current. destruct (current st) as [cur|]; [|done].
      destruct Hcur as (H0 & H1 & H2 & H3 & H4 & ls & Hls & Hok).
      rewrite forallb_app, Hits. simpl. rewrite andb_true_r.
      unfold parsed_item, findable_item. rewrite H0, H1, H2, H3, H4.
      assert (Hst : one_line (status cur) = true).
      { unfold plain_status, plain_field in H0.
        by apply andb_true_iff in H0 as [[? _]%andb_true_iff _]. }
      rewrite Hst, Hls. simpl. by apply body_ok_lines.
    + split; [by apply marker_status_plain|]. repeat (split; [done|]). by exists [].
  - destruct (current st) as [cur|] eqn:Hc.
    + destruct Hcur as (H0 & H1 & H2 & H3 & H4 & ls & Hls & Hok).
      destruct (startswith (py "text:") line).
      { intros [= <-]. unfold parse_inv. cbn. repeat (split; [done|]). by exists []. }
      destruct (in_text st).
      { intros [= <-]. unfold parse_inv. cbn. repeat (split; [done|]).
        assert (Hl : body_line_ok line = true).
        { unfold body_line_ok, is_marker. by rewrite Hone, Hm. }
        unfold add_line. destruct (nonempty (text cur)) eqn:Hne.
        - exists (ls ++ [line]). split.
          + rewrite Chunking.join_app; [by rewrite Hls| |done].
            intros ->. by rewrite Hls in Hne.
          + by rewrite forallb_app, Hok; simpl; rewrite Hl.
        - exists [line]. split; [done|]. simpl. by rewrite Hl. }
      destruct (split_once 58 line) as [[k v]|] eqn:Hsp.
      * intros [= <-]. unfold parse_inv. cbn [items header_lines current].
        split; [done|]. split; [done|].
        assert (Hv : one_line (strip v) = true).
        { apply strip_one_line. eapply one_line_subset; [|exact Hone].
          intros c Hcv. rewrite (split_once_parts _ _ _ _ Hsp).
          apply elem_of_app. right. by right. }
        destruct (set_field_fields cur (strip k) (strip v) Hv H1 H2 H3 H4)
          as (E0 & Et & F1 & F2 & F3 & F4).
        rewrite E0, Et. repeat (split; [done|]). by exists ls.
      * intros [= <-]. unfold parse_inv. rewrite Hc. repeat (split; [done|]). by exists ls.
    + intros [= <-]. unfold parse_inv. cbn. split; [done|]. split; [|done].
      rewrite forallb_app, Hhd. simpl. unfold body_line_ok, is_marker.
      by rewrite Hone, Hm.
Qed.

Lemma loop_inv (lines : list str) :
  forall st st',
  forallb one_line lines = true -> parse_inv st -> loop st lines = Ok st' -> parse_inv st'.
Proof.
  induction lines as [|l lines IH]; intros st st' Hall Hinv Hl.
  - by injection Hl as <-.
  - simpl in Hall. apply andb_true_iff in Hall as [Hone Hall]. simpl in Hl.
    destruct (step st l) as [st1|e] eqn:Hs; simpl in Hl; [|done].
    apply (IH st1 st' Hall); [|done]. by apply (step_inv st st1 l).
Qed.

(** The items of a parse are as [parsed_item] says, and its header holds
    single lines without a marker. *)
Lemma parse_parsed_items (content : str) (h : list str) (its : list QueueItem) :
  parse_queue_md content = Ok (h, its) ->
  forallb header_line h = true /\ forallb parsed_item its = true.
Proof.
  unfold parse_queue_md. intros Hp.
  destruct (loop init (splitlines content)) as [st|e] eqn:Hl; simpl in Hp; [|done].
  injection Hp as <- <-.
  assert (H0 : parse_inv init) by (unfold parse_inv; done).
  destruct (loop_inv _ _ _ (splitlines_one_line content) H0 Hl) as (Hits & Hhd & Hcur).
  split; [exact Hhd|].
  unfold flush_current. destruct (current st) as [cur|]; [|done].
  destruct Hcur as (H0' & H1 & H2 & H3 & H4 & ls & Hls & Hok).
  rewrite forallb_app, Hits. simpl. rewrite andb_true_r.
  unfold parsed_item, findable_item. rewrite H0', H1, H2, H3, H4.
  assert (Hst : one_line (status cur) = true).
  { unfold plain_status, plain_field in H0'.
    by apply andb_true_iff in H0' as [[? _]%andb_true_iff _]. }
  rewrite Hst, Hls. simpl. by apply body_ok_lines.
Qed.

(** *** The queue after the publisher *)

Lemma drafted_parsed (it : QueueItem) :
  parsed_item it = true -> parsed_item (drafted it) = true.
Proof.
  unfold parsed_item, findable_item, drafted, set_status.
  cbn [status type lang source note text].
  rewrite !andb_true_iff. intros (_ & ((((_ & H1) & H2) & H3) & H4) & H5).
  assert (Hd : plain_status (py "drafted") = true) by (vm_compute; reflexivity).
  assert (Ho : one_line (py "drafted") = true) by (vm_compute; reflexivity).
  rewrite Hd, Ho. done.
Qed.

Lemma says_rendered (it : QueueItem) :
  parsed_item it = true -> marker_says (marker_line it) = item_says it.
Proof.
  unfold parsed_item. intros [Hs _]%andb_true_iff. unfold marker_says, item_says.
  by rewrite RoundTrip.marker_id_rendered, RoundTrip.marker_status_rendered.
Qed.

Section Facts.

Variable draft : nat -> str -> bool.

Lemma process_parsed (its : list QueueItem) (to_process : list nat) :
  forallb parsed_item its = true ->
  let its' := process draft 0 to_process its in
  forallb parsed_item its' = true /\ map item_id its' = map item_id its.
Proof.
  intros Hall its'.
  destruct (DraftsFacts.process_marks draft to_process 0 its its eq_refl
              (fun i => or_introl eq_refl)) as [Hlen Hi].
  fold its' in Hlen, Hi. split.
  - apply forallb_forall. intros it Hit%list_elem_of_In.
    apply list_elem_of_lookup in Hit as [i Hit].
    rewrite forallb_forall in Hall.
    destruct (Hi i) as [Hs | [_ Hd]].
    + apply Hall, list_elem_of_In. rewrite Hs in Hit. by eapply list_elem_of_lookup_2.
    + rewrite Hd in Hit. destruct (its !! i) as [it0|] eqn:H0; [|done].
      injection Hit as <-. apply drafted_parsed, Hall, list_elem_of_In.
      by eapply list_elem_of_lookup_2.
  - apply list_eq. intros i.
    change (map item_id its') with (item_id <$> its').
    change (map item_id its) with (item_id <$> its).
    rewrite !list_lookup_fmap. destruct (Hi i) as [-> | [_ ->]]; [done|].
    by destruct (its !! i).
Qed.

(** A queue that the publisher has written back can be read again: the
    parse of the new file succeeds and returns the items with the ids they
    had, in their order, and with the statuses the publisher left them,
    "drafted" for the items it drafted. Without [--mark] no file is
    written. *)
Theorem publish_then_reparse
    (fs : gmap str str) (queue content : str) (limit : Z)
    (h : list str) (its : list QueueItem) :
  fs !! queue = Some content ->
  parse_queue_md content = Ok (h, its) ->
  py_take limit (pending its) <> [] ->
  let its' := process draft 0 (py_take limit (pending its)) its in
  main draft fs queue limit true = Ok (<[queue := render_queue_md h its']> fs) /\
  main draft fs queue limit false = Ok fs /\
  exists h2 its2,
    parse_queue_md (render_queue_md h its') = Ok (h2, its2) /\
    map item_id its2 = map item_id its /\
    map status its2 = map status its'.
Proof.
  intros Hf Hp Hne its'.
  assert (Hmain : forall mark, main draft fs queue limit mark
            = Ok (if mark then <[queue := render_queue_md h its']> fs else fs)).
  { intros mark. unfold main. rewrite Hf, Hp.
    change (Ok (h, its) ≫= ?k) with (k (h, its)). cbv beta. cbn [fst snd].
    fold its'. destruct (py_take limit (pending its)); [done|]. by destruct mark. }
  split; [apply (Hmain true)|]. split; [apply (Hmain false)|].
  destruct (parse_parsed_items _ _ _ Hp) as [Hh Hits].
  destruct (process_parsed its (py_take limit (pending its)) Hits) as [Hits' Hids].
  fold its' in Hits', Hids.
  assert (Hfind : forallb findable_item its' = true).
  { rewrite forallb_forall in Hits'. apply forallb_forall. intros it Hit.
    specialize (Hits' it Hit). unfold parsed_item in Hits'.
    by apply andb_true_iff in Hits' as [_ ?]. }
  destruct (ParseFacts.parse_render_says h its' Hh Hfind) as (h2 & its2 & Hp2 & Hs).
  exists h2, its2. split; [done|].
  assert (Hsays : map item_says its2 = map item_says its').
  { rewrite Hs, map_map. apply map_ext_in. intros it Hit.
    rewrite forallb_forall in Hits'. by apply says_rendered, Hits'. }
  split.
  - rewrite <- Hids.
    apply (f_equal (map (fun p : result Z * str =>
                           match p.1 with Ok z => z | Raise _ => 0%Z end))) in Hsays.
    by rewrite !map_map in Hsays.
  - apply (f_equal (map snd)) in Hsays. by rewrite !map_map in Hsays.
Qed.

End Facts.

Lemma publish_then_reparse_witness :
  let content := py "# X Queue" ++ NL ++ NL ++ py "## Item 001 [pending]" ++ NL
                 ++ py "type: ai_hotspot" ++ NL ++ py "text:" ++ NL ++ py "hello" ++ NL
                 ++ NL ++ py "## Item 002 [posted]" ++ NL ++ py "text:" ++ NL ++ py "old" in
  let fs : gmap str str := {[ py "queue.md" := content ]} in
  exists fs' written h2 its2,
    main (fun _ _ => true) fs (py "queue.md") 15 true = Ok fs' /\
    fs' !! py "queue.md" = Some written /\
    parse_queue_md written = Ok (h2, its2) /\
    map item_id its2 = [1%Z; 2%Z] /\
    map status its2 = [py "drafted"; py "posted"].
Proof.
  intros content fs.
  assert (Hparse : exists h its, parse_queue_md content = Ok (h, its) /\
            map item_id its = [1%Z; 2%Z] /\
            py_take 15 (pending its) <> [] /\
            map status (process (fun _ _ => true) 0 (py_take 15 (pending its)) its)
            = [py "drafted"; py "posted"]).
  { eexists _, _. split; [vm_compute; reflexivity|]. split; [vm_compute; reflexivity|].
    split; [vm_compute; discriminate|vm_compute; reflexivity]. }
  destruct Hparse as (h & its & Hp & Hi & Hne & Hst).
  destruct (publish_then_reparse (fun _ _ => true) fs (py "queue.md") content 15 h its)
    as (Hm & _ & h2 & its2 & Hp2 & Hids & Hsts); [apply lookup_singleton_eq|done|done|].
  eexists _, _, h2, its2. split; [exact Hm|]. split; [apply lookup_insert_eq|].
  split; [exact Hp2|]. split; [by rewrite Hids|by rewrite Hsts].
Defined.

End PublishFacts.

(** ** The points of a note *)

Module TopPointsFacts.

Import Str StrFacts Sentences TopPoints.

Section Facts.

Variable _score_sentence : str -> Z.

Lemma insert_desc_perm (x : Z * str) (l : list (Z * str)) :
  insert_desc x l ≡ₚ x :: l.
Proof.
  induction l as [|y l IH]; [done|]. simpl. destruct (y.1 <? x.1)%Z; [done|].
  rewrite IH. apply Permutation_swap.
Qed.

Lemma sort_desc_from (l acc : list (Z * str)) :
  foldl (fun acc x => insert_desc x acc) acc l ≡ₚ acc ++ l /\
  (sorted_desc acc -> sorted_desc (foldl (fun acc x => insert_desc x acc) acc l)).
Proof.
  revert acc. induction l as [|x l IH]; intros acc.
  - simpl. by rewrite app_nil_r.
  - simpl. destruct (IH (insert_desc x acc)) as [Hp Hs]. split.
    + rewrite Hp, insert_desc_perm. simpl. apply Permutation_middle.
    + intros Hacc. apply Hs. clear -Hacc.
      induction acc as [|y acc IHa]; [simpl; done|].
      destruct Hacc as [Hy Hacc]. simpl.
      destruct (Z.ltb_spec y.1 x.1) as [Hlt|Hge].
      * split; [|done]. constructor; [unfold score_ge; lia|].
        eapply Forall_impl; [exact Hy|]. intros z Hz. unfold score_ge in *. lia.
      * split; [|by apply IHa].
        rewrite insert_desc_perm. constructor; [unfold score_ge; lia|done].
Qed.

Lemma sort_desc_spec (l : list (Z * str)) :
  sort_desc l ≡ₚ l /\ sorted_desc (sort_desc l).
Proof.
  destruct (sort_desc_from l []) as [Hp Hs]. split; [done|]. by apply Hs.
Qed.

Lemma rank_loop_spec (sents : list str) :
  forall seen : list str,
  let r := rank_loop _score_sentence seen sents in
  NoDup (map (fun x => lower x.2) r) /\
  (forall x, x ∈ r -> x.1 = _score_sentence x.2 /\ x.2 ∈ sents /\ lower x.2 ∉ seen) /\
  (forall s, s ∈ sents -> lower s ∈ seen \/ lower s ∈ map (fun x => lower x.2) r).
Proof.
  induction sents as [|s sents IH]; intros seen; cbv zeta.
  - simpl. split; [constructor|]. split; by intros ? ?%elem_of_nil.
  - simpl. case_bool_decide as Hseen.
    + destruct (IH seen) as (Hnd & Hin & Hall). split; [done|]. split.
      * intros x Hx. destruct (Hin x Hx) as (? & ? & ?). split; [done|]. split; [by right|done].
      * intros t [-> | Ht]%elem_of_cons; [by left|by apply Hall].
    + destruct (IH (lower s :: seen)) as (Hnd & Hin & Hall). split; [|split].
      * simpl. apply NoDup_cons. split; [|done].
        intros (x & Hx & Hxin)%list_elem_of_fmap.
        destruct (Hin x Hxin) as (_ & _ & Hn). apply Hn. rewrite <- Hx. by left.
      * intros x [-> | Hx]%elem_of_cons; [simpl; split; [done|]; split; [by left|done]|].
        destruct (Hin x Hx) as (? & ? & Hn). split; [done|]. split; [by right|].
        intros ?. apply Hn. by right.
      * intros t [-> | Ht]%elem_of_cons; [right; simpl; by left|].
        destruct (Hall t Ht) as [[-> | ?]%elem_of_cons | ?].
        -- right. simpl. by left.
        -- by left.
        -- right. simpl. by right.
Qed.

Lemma sentences_not_empty (text s : str) : s ∈ _sentences text -> s <> [].
Proof.
  unfold _sentences. generalize (re_split false [] (cr_to_lf text)). intros chunks.
  induction chunks as [|c chunks IH]; [by intros ?%elem_of_nil|]. simpl.
  destruct (nonempty (Clean._clean c)) eqn:Hne; simpl; [|done].
  destruct (length (Clean._clean c) <? 8)%nat; [done|].
  intros [-> | H]%elem_of_cons; [by destruct (Clean._clean c)|by apply IH].
Qed.

Lemma all_sentences_not_empty (texts : list str) (s : str) :
  s ∈ all_sentences texts -> s <> [].
Proof.
  unfold all_sentences. intros Hs%list_elem_of_In.
  apply in_concat in Hs as (l & Hl & Hs). apply in_map_iff in Hl as (t & <- & _).
  apply list_elem_of_In in Hs. by eapply sentences_not_empty.
Qed.

Lemma filter_nonempty_all (l : list str) :
  Forall (fun s => s <> []) l -> List.filter nonempty l = l.
Proof.
  induction 1 as [|s l Hs _ IH]; [done|]. simpl. destruct s; [done|]. simpl. by rewrite IH.
Qed.

Lemma sorted_take_drop (l : list (Z * str)) (n : nat) (x y : Z * str) :
  sorted_desc l -> x ∈ take n l -> y ∈ drop n l -> (y.1 <= x.1)%Z.
Proof.
  revert n. induction l as [|a l IH]; intros n Hs Hx Hy.
  - by rewrite take_nil in Hx; apply elem_of_nil in Hx.
  - destruct Hs as [Ha Hs]. destruct n as [|n].
    + by apply elem_of_nil in Hx.
    + simpl in Hx, Hy. apply elem_of_cons in Hx as [-> | Hx]; [|by apply (IH n)].
      rewrite Forall_forall in Ha. apply Ha.
      apply list_elem_of_lookup in Hy as [i Hi]. rewrite lookup_drop in Hi.
      by eapply list_elem_of_lookup_2.
Qed.

Lemma sorted_lookup (l : list (Z * str)) (i j : nat) (x y : Z * str) :
  sorted_desc l -> (i < j)%nat -> l !! i = Some x -> l !! j = Some y ->
  (y.1 <= x.1)%Z.
Proof.
  intros Hs Hij Hi Hj. apply (sorted_take_drop l (S i) x y Hs).
  - apply elem_of_take. exists i. split; [done|lia].
  - apply list_elem_of_lookup. exists (j - S i)%nat. rewrite lookup_drop.
    by replace (S i + (j - S i))%nat with j by lia.
Qed.

Lemma ranked_spec (texts : list str) :
  let r := ranked _score_sentence texts in
  sorted_desc r /\
  NoDup (map (fun x => lower x.2) r) /\
  (forall x, x ∈ r -> x.1 = _score_sentence x.2 /\ x.2 ∈ all_sentences texts) /\
  (forall s, s ∈ all_sentences texts -> lower s ∈ map (fun x => lower x.2) r).
Proof.
  cbv zeta. unfold ranked.
  destruct (sort_desc_spec (rank_loop _score_sentence [] (all_sentences texts)))
    as [Hp Hs].
  destruct (rank_loop_spec (all_sentences texts) []) as (Hnd & Hin & Hall).
  split; [done|]. split; [|split].
  - change (map ?f ?l) with (f <$> l). by rewrite Hp.
  - intros x Hx. rewrite Hp in Hx. destruct (Hin x Hx) as (? & ? & _). done.
  - intros s Hsin. destruct (Hall s Hsin) as [?%elem_of_nil | H]; [done|].
    change (map ?f ?l) with (f <$> l) in *. by rewrite Hp.
Qed.

Lemma top_points_first (texts : list str) (limit : Z) :
  (1 <= limit)%Z ->
  _top_points _score_sentence texts limit
  = map snd (take (Z.to_nat limit) (ranked _score_sentence texts)).
Proof.
  intros Hl. unfold _top_points.
  destruct (ranked_spec texts) as (_ & _ & Hin & Hall).
  rewrite DraftsFacts.py_take_nonneg by lia.
  set (r := ranked _score_sentence texts) in *.
  assert (Hf : List.filter nonempty (map snd (take (Z.to_nat limit) r))
               = map snd (take (Z.to_nat limit) r)).
  { apply filter_nonempty_all, Forall_forall.
    intros s (x & -> & Hx)%list_elem_of_fmap.
    apply elem_of_take in Hx as (i & Hi & _). apply list_elem_of_lookup_2 in Hi.
    destruct (Hin x Hi) as [_ Hs]. by eapply all_sentences_not_empty. }
  rewrite Hf. destruct (map snd (take (Z.to_nat limit) r)) as [|p ps] eqn:Hm; [|done].
  destruct (all_sentences texts) as [|s ss] eqn:Ha; [done|]. exfalso.
  assert (Hs : lower s ∈ map (fun x => lower x.2) r) by (apply Hall; by left).
  destruct r as [|x r']; [by apply elem_of_nil in Hs|].
  destruct (Z.to_nat limit) as [|n] eqn:Hn; [lia|]. done.
Qed.


End Facts.


End TopPointsFacts.

(** ** Links to long articles *)

Module ArticleUrlFacts.

Import Str StrFacts ArticleUrl.

Lemma startswith_longer (m p rest : str) :
  startswith m p = true -> startswith m (p ++ rest) = true.
Proof.
  revert p. induction m as [|a m IH]; intros p H; [done|].
  destruct p as [|b p]; [done|]. simpl in *.
  apply andb_true_iff in H as [-> H]. simpl. by apply IH.
Qed.

Lemma contains_longer (m p rest : str) :
  contains m p = true -> contains m (p ++ rest) = true.
Proof.
  unfold contains. induction p as [|c p IH]; intros H.
  - destruct m as [|a m]; [by destruct rest|done].
  - rewrite <- app_comm_cons. rewrite KnowledgeBaseRuns.find_cons in *.
    destruct (startswith m (c :: p)) eqn:Hs.
    + pose proof (startswith_longer m (c :: p) rest Hs) as Hs'.
      rewrite <- app_comm_cons in Hs'. by rewrite Hs'.
    + destruct (startswith m (c :: p ++ rest)); [done|].
      destruct (find m p); [|done]. specialize (IH eq_refl).
      by destruct (find m (p ++ rest)).
Qed.

Lemma contains_prefix (m p s : str) :
  p `prefix_of` s -> contains m s = false -> contains m p = false.
Proof.
  intros [rest ->] H. destruct (contains m p) eqn:Hp; [|done].
  by rewrite (contains_longer m p rest Hp) in H.
Qed.

Lemma before_prefix (sep s : str) : before sep s `prefix_of` s.
Proof. unfold before. destruct (find sep s); [apply prefix_take|done]. Qed.

Lemma before_without (sep s : str) : sep <> [] -> contains sep (before sep s) = false.
Proof.
  intros Hsep. unfold before. destruct (find sep s) as [i|] eqn:Hf.
  - revert i Hf. induction s as [|c s IH]; intros i Hf.
    + rewrite take_nil. by destruct sep.
    + rewrite KnowledgeBaseRuns.find_cons in Hf.
      destruct (startswith sep (c :: s)) eqn:Hs.
      * injection Hf as <-. by destruct sep.
      * destruct (find sep s) as [i'|] eqn:Hf'; [|done]. injection Hf as <-.
        simpl take. unfold contains. rewrite KnowledgeBaseRuns.find_cons.
        destruct (startswith sep (c :: take i' s)) eqn:Ht.
        -- pose proof (startswith_longer sep (c :: take i' s) (drop i' s) Ht) as Hl.
           rewrite <- app_comm_cons, take_drop in Hl. congruence.
        -- specialize (IH i' eq_refl). unfold contains in IH.
           by destruct (find sep (take i' s)).
  - unfold contains. by rewrite Hf.
Qed.

Lemma before_fixed (sep s : str) : contains sep s = false -> before sep s = s.
Proof. unfold contains, before. by destruct (find sep s). Qed.

Lemma contains_one (c : char) (s : str) : contains [c] s = false -> c ∉ s.
Proof.
  induction s as [|d s IH]; intros H; [by intros ?%elem_of_nil|].
  destruct (KnowledgeBaseRuns.contains_cons_false _ _ _ H) as [Hs Hc].
  simpl in Hs. rewrite andb_true_r in Hs. apply N.eqb_neq in Hs.
  intros [? | ?]%elem_of_cons; [done|]. by apply IH.
Qed.

Lemma absolute_not_path (url : str) :
  url <> [] -> startswith (py "/") (absolute url) = false.
Proof.
  intros Hne. unfold absolute. destruct (startswith (py "/") url) eqn:Hs; [|done].
  reflexivity.
Qed.

(** A normalised article link holds no question mark, is not a bare path,
    and does not name both an article and its media; it is the start of
    the link it was made from, put under the site if that was a path.
    Normalising it again changes nothing. *)
Theorem normalize_article_url_canonical (url : str) :
  let r := _normalize_article_url url in
  (63 ∉ r) /\
  startswith (py "/") r = false /\
  contains (py "/article/") r && contains (py "/media/") r = false /\
  r `prefix_of` absolute url /\
  _normalize_article_url r = r.
Proof.
  cbv zeta. destruct url as [|c0 url0] eqn:Hurl.
  { repeat split; try done. by intros ?%elem_of_nil. }
  rewrite <- Hurl. assert (Hne : url <> []) by (by rewrite Hurl).
  assert (Hnorm : _normalize_article_url url =
    let u2 := before (py "?") (absolute url) in
    if contains (py "/article/") u2 && contains (py "/media/") u2
    then before (py "/media/") u2 else u2).
  { unfold _normalize_article_url. by rewrite Hurl. }
  cbv zeta in Hnorm. set (u2 := before (py "?") (absolute url)) in *.
  assert (Hq : contains (py "?") u2 = false) by (by apply before_without).
  assert (Hp2 : u2 `prefix_of` absolute url) by apply before_prefix.
  set (r := _normalize_article_url url) in *.
  assert (Hr2 : r `prefix_of` u2).
  { rewrite Hnorm. destruct (_ && _); [apply before_prefix|done]. }
  assert (Hboth : contains (py "/article/") r && contains (py "/media/") r = false).
  { rewrite Hnorm. destruct (contains (py "/article/") u2 && contains (py "/media/") u2) eqn:Hc.
    - rewrite (before_without (py "/media/") u2) by done. apply andb_false_r.
    - exact Hc. }
  assert (Hqr : contains (py "?") r = false) by (by apply (contains_prefix _ r u2)).
  assert (Hslash : startswith (py "/") r = false).
  { destruct Hr2 as [k2 Hk2]. destruct Hp2 as [k1 Hk1].
    pose proof (absolute_not_path url Hne) as Ha. rewrite Hk1, Hk2 in Ha.
    destruct (startswith (py "/") r) eqn:Hs; [|done].
    rewrite <- app_assoc in Ha.
    by rewrite (startswith_longer (py "/") r (k2 ++ k1) Hs) in Ha. }
  split; [by apply contains_one|]. split; [done|]. split; [done|].
  split; [by etrans|].
  destruct r as [|c r'] eqn:Hr; [done|]. rewrite <- Hr in *.
  unfold _normalize_article_url. rewrite Hr at 1. simpl negb. cbv iota.
  unfold absolute. rewrite Hslash. cbv zeta.
  rewrite (before_fixed (py "?") r Hqr). by rewrite Hboth.
Qed.

End ArticleUrlFacts.

(** ** Cookies *)

Module CookieFacts.

Import Str StrFacts Cookies.

Lemma split_on_pieces (sep : char) (s : str) :
  forall cur, sep ∉ cur -> Forall (fun p : str => sep ∉ p) (split_on sep cur s).
Proof.
  induction s as [|c s IH]; intros cur Hcur; simpl.
  - by apply Forall_singleton.
  - destruct (N.eqb_spec c sep) as [-> | Hc].
    + apply Forall_cons. split; [done|]. apply IH. by intros ?%elem_of_nil.
    + apply IH. intros [? | ->%list_elem_of_singleton]%elem_of_app; done.
Qed.

Lemma split_on_app (sep : char) (a b : str) :
  forall cur,
  split_on sep cur (a ++ sep :: b)
  = split_on sep cur a ++ split_on sep [] b.
Proof.
  induction a as [|c a IH]; intros cur; simpl.
  - by rewrite N.eqb_refl.
  - destruct (c =? sep); [by rewrite IH|apply IH].
Qed.

Lemma split_on_plain (sep : char) (s : str) :
  forall cur, sep ∉ s -> split_on sep cur s = [cur ++ s].
Proof.
  induction s as [|c s IH]; intros cur Hs; simpl; [by rewrite app_nil_r|].
  apply not_elem_of_cons in Hs as [Hc Hs].
  destruct (N.eqb_spec c sep) as [-> | _]; [done|].
  rewrite IH by done. by rewrite <- app_assoc.
Qed.

Lemma split_once_key (sep : char) (s k v : str) :
  split_once sep s = Some (k, v) -> sep ∉ k.
Proof.
  revert k. induction s as [|c s IH]; intros k H; [done|]. simpl in H.
  destruct (N.eqb_spec c sep) as [-> | Hc].
  - injection H as <- <-. by intros ?%elem_of_nil.
  - destruct (split_once sep s) as [[k' v']|]; [|done]. injection H as <- <-.
    intros [? | ?]%elem_of_cons; [done|]. by apply (IH k').
Qed.

Lemma split_once_plain (sep : char) (k v : str) :
  sep ∉ k -> split_once sep (k ++ sep :: v) = Some (k, v).
Proof.
  induction k as [|c k IH]; intros Hk; simpl.
  - by rewrite N.eqb_refl.
  - apply not_elem_of_cons in Hk as [Hc Hk].
    destruct (N.eqb_spec c sep) as [-> | _]; [done|]. by rewrite IH.
Qed.

Lemma cookie_step_clean (out : gmap str str) (part : str) :
  59 ∉ part ->
  (forall k v, out !! k = Some v -> clean_cookie k v) ->
  forall k v, cookie_step out part !! k = Some v -> clean_cookie k v.
Proof.
  intros Hpart Hout k v. unfold cookie_step.
  destruct (nonempty (strip part)); simpl; [|apply Hout].
  destruct (split_once 61 (strip part)) as [[k' v']|] eqn:Hsp; [|apply Hout].
  destruct (strip k') as [|c sk] eqn:Hk; simpl; [apply Hout|].
  rewrite <- Hk. intros [[<- <-] | [_ H]]%lookup_insert_Some; [|by apply Hout].
  pose proof (PublishFacts.split_once_parts _ _ _ _ Hsp) as Hparts.
  assert (Hsub : forall c, c ∈ k' \/ c ∈ v' -> c ∈ part).
  { intros x Hx. apply PublishFacts.strip_subset. rewrite Hparts.
    apply elem_of_app. destruct Hx; [by left|right; by right]. }
  unfold clean_cookie. split; [by rewrite Hk|].
  split; [apply PublishFacts.strip_strip|]. split; [apply PublishFacts.strip_strip|].
  split; [|split].
  - intros H%PublishFacts.strip_subset. apply Hpart, Hsub. by left.
  - intros H%PublishFacts.strip_subset. by apply (split_once_key _ _ _ _ Hsp).
  - intros H%PublishFacts.strip_subset. apply Hpart, Hsub. by right.
Qed.

Lemma cookie_step_union (out base : gmap str str) (part : str) :
  cookie_step (out ∪ base) part = cookie_step out part ∪ base.
Proof.
  unfold cookie_step. destruct (negb (nonempty (strip part))); [done|].
  destruct (split_once 61 (strip part)) as [[k v]|]; [|done].
  destruct (negb (nonempty (strip k))); [done|]. by rewrite insert_union_l.
Qed.

Lemma cookie_loop_union (parts : list str) :
  forall out base : gmap str str,
  foldl cookie_step (out ∪ base) parts = foldl cookie_step out parts ∪ base.
Proof.
  induction parts as [|p parts IH]; intros out base; [done|]. simpl.
  by rewrite cookie_step_union, IH.
Qed.

Lemma strip_fixed (s : str) (c d : char) :
  head s = Some c -> isspace c = false -> last s = Some d -> isspace d = false ->
  strip s = s.
Proof.
  intros Hh Hc Hl Hd. destruct s as [|c' s]; [done|]. injection Hh as ->.
  unfold strip. cbn [lstrip]. rewrite Hc. by apply (PublishFacts.rstrip_fixed _ d).
Qed.

(** Every cookie read from a cookie string has a name that is not empty,
    name and value without white space around them, no ";" in either and
    no "=" in the name. One "name=value" gives that one cookie, and of two
    strings joined by ";" the later one wins where both name a cookie. *)
Theorem parse_cookie_string_clean (raw : str) :
  (forall k v, _parse_cookie_string raw !! k = Some v ->
     k <> [] /\ strip k = k /\ strip v = v /\ (59 ∉ k) /\ (61 ∉ k) /\ (59 ∉ v)) /\
  (forall k v : str,
     raw = k ++ py "=" ++ v ->
     k <> [] -> strip k = k -> strip v = v -> (59 ∉ k) -> (61 ∉ k) -> (59 ∉ v) ->
     _parse_cookie_string raw = {[ k := v ]}) /\
  (forall a b : str,
     raw = a ++ py ";" ++ b ->
     _parse_cookie_string raw = _parse_cookie_string b ∪ _parse_cookie_string a).
Proof.
  split; [|split].
  - unfold _parse_cookie_string.
    pose proof (split_on_pieces 59 raw [] ltac:(by intros ?%elem_of_nil)) as Hparts.
    assert (H0 : forall k v, (∅ : gmap str str) !! k = Some v -> clean_cookie k v)
      by (intros k v H; by rewrite lookup_empty in H).
    revert H0. generalize (∅ : gmap str str).
    induction Hparts as [|p parts Hp _ IH]; intros out Hout; [exact Hout|].
    simpl. apply IH. by apply cookie_step_clean.
  - intros k v -> Hne Hk Hv H1 H2 H3. unfold _parse_cookie_string.
    rewrite split_on_plain.
    + rewrite app_nil_l. cbn [foldl]. unfold cookie_step.
      assert (Hs : strip (k ++ py "=" ++ v) = k ++ py "=" ++ v).
      { destruct (BatchFacts.strip_ends k) as [He | (c & _ & Hc & _ & Hcs & _)];
          [by rewrite Hk in He|].
        rewrite Hk in Hc.
        assert (Hhead : head (k ++ py "=" ++ v) = Some c) by (by destruct k).
        destruct v as [|v0 v'].
        - apply (strip_fixed _ c 61); [done|done| |done].
          rewrite app_nil_r. apply last_snoc.
        - destruct (BatchFacts.strip_ends (v0 :: v')) as [He | (_ & e & _ & Hd & _ & Hds)];
            [by rewrite Hv in He|].
          rewrite Hv in Hd. apply (strip_fixed _ c e); [done|done| |done].
          rewrite app_assoc, last_app, Hd. done. }
      rewrite Hs. change (k ++ py "=" ++ v) with (k ++ 61 :: v).
      assert (Hn : nonempty (k ++ 61 :: v) = true) by (by destruct k).
      rewrite Hn, (split_once_plain 61 k v H2), Hk, Hv.
      assert (Hnk : nonempty k = true) by (by destruct k).
      rewrite Hnk. simpl negb. cbv iota. by rewrite insert_empty.
    + intros [? | [?%list_elem_of_singleton | ?]%elem_of_app]%elem_of_app; done.
  - intros a b ->. unfold _parse_cookie_string.
    change (a ++ py ";" ++ b) with (a ++ 59 :: b). rewrite split_on_app, foldl_app.
    rewrite <- (left_id_L ∅ (∪) (foldl cookie_step ∅ (split_on 59 [] a))) at 1.
    by rewrite cookie_loop_union.
Qed.

End CookieFacts.
